(** * GhostDB: the document registry, the payload codec and the key handshake

    A shallow embedding of
    - [GhostDocumentRegistry] (the Solidity contract),
    - the client-side payload codec ([hexToBytes], [encryptBody],
      [decryptBody], ...), and
    - [decryptAccessKey], the re-encryption handshake of the web client,
    - [fetchDocuments], [ensureKey] and [shortHex] of the web client,
    followed by the properties of the specification that concern them and
    by further properties of the code. *)

From Stdlib Require Import NArith ZArith List String Ascii Bool Lia Sorted.
From Stdlib.Strings Require Import Byte.
From Stdlib Require Import DecimalString HexadecimalString.
From Stdlib Require Import DecimalN Permutation.
From ITree Require ITree ITreeFacts Events.State Events.StateFacts.
Import ListNotations.


(* ===================================================================== *)
(** * Part I.  The contract                                               *)
(* ===================================================================== *)

Module Registry.

Local Open Scope string_scope.
Local Open Scope list_scope.
Local Open Scope N_scope.

(** ** Solidity value types *)

(** [address] is a 160-bit account reference, [uint256] a 256-bit unsigned
    integer; both are carried by [N].  [euint256] and [externalEuint256]
    are user-defined value types over [bytes32]: opaque ciphertext
    handles. *)
Definition address := N.
Definition uint256 := N.
Definition euint256 := N.
Definition externalEuint256 := N.
Definition bytes := list byte.

Definition address0 : address := 0.
Definition uint256_max : uint256 := 2 ^ 256 - 1.

(** ** Storage layout *)

Record Document := mkDocument {
  name : string;
  encryptedBody : string;
  encryptedAccessKey : euint256;
  owner : address;
  lastEditor : address;
  createdAt : uint256;
  updatedAt : uint256
}.

(** A slot of [_documents] that was never written reads as zero. *)
Definition zeroDocument : Document :=
  mkDocument "" "" 0 address0 address0 0 0.

Inductive Event :=
| DocumentCreated (documentId : uint256) (owner : address) (name : string)
| DocumentUpdated (documentId : uint256) (editor : address) (encryptedBody : string)
| EditorAllowed (documentId : uint256) (editor : address).

(** The contract's five state variables, followed by the two pieces of the
    world it writes to: the coprocessor's access-control list (through
    [FHE.allow] and [FHE.allowThis]) and the event log. *)
Record State := mkState {
  _nextDocumentId : uint256;
  _documents : uint256 -> Document;
  _documentsByOwner : address -> list uint256;
  _documentsByEditor : address -> list uint256;
  _editors : uint256 -> address -> bool;
  acl : euint256 -> address -> bool;
  events : list Event
}.

(** State at deployment: [_nextDocumentId = 1], every mapping empty. *)
Definition initial : State :=
  mkState 1 (fun _ => zeroDocument) (fun _ => []) (fun _ => [])
          (fun _ _ => false) (fun _ _ => false) [].

(** ** Execution context and reverts *)

Record Context := mkContext {
  msg_sender : address;
  block_timestamp : uint256
}.

(** [Error] is the [Error(string)] of a failed [require], [Panic] the
    compiler-inserted check (0x11: arithmetic overflow) and
    [InputVerificationFailed] a revert raised inside the coprocessor
    library while it checks an input proof. *)
Inductive Revert :=
| Error (reason : string)
| Panic (code : N)
| InputVerificationFailed.

(** The error taxonomy of the specification, and the class each revert of
    the contract falls in. *)
Inductive ErrorKind :=
| InvalidArgument
| NotFound
| NotAuthorized
| InvalidProof
| Unclassified.

Definition errorKind (r : Revert) : ErrorKind :=
  match r with
  | Error reason =>
      if String.eqb reason "Name required" then InvalidArgument
      else if String.eqb reason "Invalid editor" then InvalidArgument
      else if String.eqb reason "Document does not exist" then NotFound
      else if String.eqb reason "Not authorized" then NotAuthorized
      else if String.eqb reason "Only owner can allow" then NotAuthorized
      else Unclassified
  | Panic _ => Unclassified
  | InputVerificationFailed => InvalidProof
  end.

(** ** The transaction monad

    A call reads its context, threads the state and either returns or
    reverts; a revert carries no state, so none of the writes made before
    it survive. *)
Definition Tx (A : Type) : Type := Context -> State -> Revert + (A * State).

Definition ret {A} (a : A) : Tx A := fun _ s => inr (a, s).

Definition bind {A B} (m : Tx A) (k : A -> Tx B) : Tx B :=
  fun c s =>
    match m c s with
    | inl r => inl r
    | inr (a, s') => k a c s'
    end.

Notation "x <- m ;; k" := (bind m (fun x => k))
  (at level 61, m at next level, right associativity).
Notation "m ;; k" := (bind m (fun _ => k))
  (at level 61, right associativity).

Definition revert {A} (r : Revert) : Tx A := fun _ _ => inl r.

Definition require (cond : bool) (reason : string) : Tx unit :=
  if cond then ret tt else revert (Error reason).

Definition sender : Tx address := fun c s => inr (msg_sender c, s).
Definition timestamp : Tx uint256 := fun c s => inr (block_timestamp c, s).
Definition load {A} (f : State -> A) : Tx A := fun _ s => inr (f s, s).
Definition store (f : State -> State) : Tx unit := fun _ s => inr (tt, f s).

(** ** Storage writes *)

Definition set_nextDocumentId (v : uint256) (s : State) : State :=
  mkState v (_documents s) (_documentsByOwner s) (_documentsByEditor s)
          (_editors s) (acl s) (events s).

(** [_documents[documentId].field = ...] *)
Definition modifyDocument (documentId : uint256) (f : Document -> Document)
    (s : State) : State :=
  mkState (_nextDocumentId s)
          (fun k => if k =? documentId then f (_documents s k) else _documents s k)
          (_documentsByOwner s) (_documentsByEditor s)
          (_editors s) (acl s) (events s).

Definition set_name v d :=
  mkDocument v (encryptedBody d) (encryptedAccessKey d) (owner d)
             (lastEditor d) (createdAt d) (updatedAt d).
Definition set_encryptedBody v d :=
  mkDocument (name d) v (encryptedAccessKey d) (owner d)
             (lastEditor d) (createdAt d) (updatedAt d).
Definition set_encryptedAccessKey v d :=
  mkDocument (name d) (encryptedBody d) v (owner d)
             (lastEditor d) (createdAt d) (updatedAt d).
Definition set_owner v d :=
  mkDocument (name d) (encryptedBody d) (encryptedAccessKey d) v
             (lastEditor d) (createdAt d) (updatedAt d).
Definition set_lastEditor v d :=
  mkDocument (name d) (encryptedBody d) (encryptedAccessKey d) (owner d)
             v (createdAt d) (updatedAt d).
Definition set_createdAt v d :=
  mkDocument (name d) (encryptedBody d) (encryptedAccessKey d) (owner d)
             (lastEditor d) v (updatedAt d).
Definition set_updatedAt v d :=
  mkDocument (name d) (encryptedBody d) (encryptedAccessKey d) (owner d)
             (lastEditor d) (createdAt d) v.

(** [_documentsByOwner[who].push(documentId)] *)
Definition push_documentsByOwner (who : address) (documentId : uint256)
    (s : State) : State :=
  mkState (_nextDocumentId s) (_documents s)
          (fun a => if a =? who then _documentsByOwner s a ++ [documentId]
                    else _documentsByOwner s a)
          (_documentsByEditor s) (_editors s) (acl s) (events s).

(** [_documentsByEditor[who].push(documentId)] *)
Definition push_documentsByEditor (who : address) (documentId : uint256)
    (s : State) : State :=
  mkState (_nextDocumentId s) (_documents s) (_documentsByOwner s)
          (fun a => if a =? who then _documentsByEditor s a ++ [documentId]
                    else _documentsByEditor s a)
          (_editors s) (acl s) (events s).

(** [_editors[documentId][who] = true] *)
Definition set_editor (documentId : uint256) (who : address) (s : State) : State :=
  mkState (_nextDocumentId s) (_documents s) (_documentsByOwner s)
          (_documentsByEditor s)
          (fun k a => if (k =? documentId) && (a =? who) then true
                      else _editors s k a)
          (acl s) (events s).

Definition emit (e : Event) : Tx unit :=
  store (fun s =>
    mkState (_nextDocumentId s) (_documents s) (_documentsByOwner s)
            (_documentsByEditor s) (_editors s) (acl s) (events s ++ [e])).

(** ** The coprocessor library

    [@fhevm/solidity] is imported by the contract and is not part of the
    repository.  [FHE.fromExternal] checks an input proof; its verdict
    depends on the coprocessor and is a parameter of the deployment,
    [None] standing for a revert inside the library. *)
Record Deployment := mkDeployment {
  this : address;
  verifyInput : address -> externalEuint256 -> bytes -> option euint256
}.

Section Contract.

Variable dep : Deployment.

Definition FHE_fromExternal (inputHandle : externalEuint256) (inputProof : bytes)
  : Tx euint256 :=
  fun c s =>
    match verifyInput dep (msg_sender c) inputHandle inputProof with
    | Some h => inr (h, s)
    | None => inl InputVerificationFailed
    end.

(** Modelled from the spec: [FHE.allow] of the imported library, as the
    coprocessor's [authorize(handle, identity)]; it adds the identity to the
    access list of the handle and never removes one. *)
Definition FHE_allow (handle : euint256) (account : address) : Tx unit :=
  store (fun s =>
    mkState (_nextDocumentId s) (_documents s) (_documentsByOwner s)
            (_documentsByEditor s) (_editors s)
            (fun h a => if (h =? handle) && (a =? account) then true
                        else acl s h a)
            (events s)).

(** [FHE.allowThis(handle)] is [FHE.allow(handle, address(this))]. *)
Definition FHE_allowThis (handle : euint256) : Tx unit :=
  FHE_allow handle (this dep).

(** ** The contract's functions *)

(** [modifier onlyExisting(uint256 documentId)] *)
Definition onlyExisting (documentId : uint256) : Tx unit :=
  d <- load (fun s => _documents s documentId) ;;
  require (negb (owner d =? address0)) "Document does not exist".

Definition _grantEditor (documentId : uint256) (editor : address) : Tx unit :=
  isEd <- load (fun s => _editors s documentId editor) ;;
  if negb isEd then
    store (set_editor documentId editor) ;;
    store (push_documentsByEditor editor documentId)
  else ret tt.

(** [documentId = _nextDocumentId++] under checked arithmetic. *)
Definition postIncrement_nextDocumentId : Tx uint256 :=
  old <- load _nextDocumentId ;;
  (if old =? uint256_max then revert (Panic 17) else ret tt) ;;
  store (set_nextDocumentId (old + 1)) ;;
  ret old.

Definition createDocument (name : string) (encryptedAccessKey : externalEuint256)
    (inputProof : bytes) : Tx uint256 :=
  require (0 <? N.of_nat (String.length name)) "Name required" ;;
  documentId <- postIncrement_nextDocumentId ;;
  storedKey <- FHE_fromExternal encryptedAccessKey inputProof ;;
  who <- sender ;;
  now <- timestamp ;;
  store (modifyDocument documentId (set_name name)) ;;
  store (modifyDocument documentId (set_encryptedBody "")) ;;
  store (modifyDocument documentId (set_encryptedAccessKey storedKey)) ;;
  store (modifyDocument documentId (set_owner who)) ;;
  store (modifyDocument documentId (set_lastEditor who)) ;;
  store (modifyDocument documentId (set_createdAt now)) ;;
  store (modifyDocument documentId (set_updatedAt now)) ;;
  store (push_documentsByOwner who documentId) ;;
  _grantEditor documentId who ;;
  FHE_allow storedKey who ;;
  FHE_allowThis storedKey ;;
  emit (DocumentCreated documentId who name) ;;
  ret documentId.

Definition updateDocument (documentId : uint256) (encryptedBody : string)
  : Tx unit :=
  onlyExisting documentId ;;
  who <- sender ;;
  isEd <- load (fun s => _editors s documentId who) ;;
  require isEd "Not authorized" ;;
  now <- timestamp ;;
  store (modifyDocument documentId (set_encryptedBody encryptedBody)) ;;
  store (modifyDocument documentId (set_lastEditor who)) ;;
  store (modifyDocument documentId (set_updatedAt now)) ;;
  emit (DocumentUpdated documentId who encryptedBody).

Definition allowEditor (documentId : uint256) (editor : address) : Tx unit :=
  onlyExisting documentId ;;
  require (negb (editor =? address0)) "Invalid editor" ;;
  document <- load (fun s => _documents s documentId) ;;
  who <- sender ;;
  require (owner document =? who) "Only owner can allow" ;;
  _grantEditor documentId editor ;;
  FHE_allow (encryptedAccessKey document) editor ;;
  emit (EditorAllowed documentId editor).

End Contract.

(** ** View functions

    A view reads the state and returns or reverts. *)
Definition View (A : Type) : Type := State -> Revert + A.

Definition viewOnlyExisting {A} (documentId : uint256) (body : View A) : View A :=
  fun s =>
    if negb (owner (_documents s documentId) =? address0) then body s
    else inl (Error "Document does not exist").

Definition getDocument (documentId : uint256)
  : View (string * string * euint256 * address * address * uint256 * uint256) :=
  viewOnlyExisting documentId (fun s =>
    let document := _documents s documentId in
    inr (name document, encryptedBody document, encryptedAccessKey document,
         owner document, lastEditor document,
         createdAt document, updatedAt document)).

Definition getDocumentsByOwner (ownerAddress : address) : State -> list uint256 :=
  fun s => _documentsByOwner s ownerAddress.

Definition getDocumentsForEditor (editor : address) : State -> list uint256 :=
  fun s => _documentsByEditor s editor.

Definition isEditor (documentId : uint256) (account : address) : View bool :=
  viewOnlyExisting documentId (fun s => inr (_editors s documentId account)).

(** ** Transactions and runs

    The ledger orders the calls; a call that reverts changes nothing. *)
Inductive Call :=
| CreateDocument (name : string) (encryptedAccessKey : externalEuint256)
                 (inputProof : bytes)
| UpdateDocument (documentId : uint256) (encryptedBody : string)
| AllowEditor (documentId : uint256) (editor : address).

Record Transaction := mkTransaction {
  tx_context : Context;
  tx_call : Call
}.

(** The outcome of a transaction: its revert, or the id it returned (for
    [createDocument]) and the state it leaves. *)
Definition execute (dep : Deployment) (t : Transaction) (s : State)
  : Revert + (option uint256 * State) :=
  match tx_call t with
  | CreateDocument n k p =>
      match createDocument dep n k p (tx_context t) s with
      | inl r => inl r
      | inr (documentId, s') => inr (Some documentId, s')
      end
  | UpdateDocument i b =>
      match updateDocument i b (tx_context t) s with
      | inl r => inl r
      | inr (_, s') => inr (None, s')
      end
  | AllowEditor i e =>
      match allowEditor i e (tx_context t) s with
      | inl r => inl r
      | inr (_, s') => inr (None, s')
      end
  end.

Definition step (dep : Deployment) (s : State) (t : Transaction) : State :=
  match execute dep t s with
  | inl _ => s
  | inr (_, s') => s'
  end.

Definition run (dep : Deployment) (s : State) (ts : list Transaction) : State :=
  fold_left (step dep) ts s.

(** The ids returned by the successful [createDocument] calls of a run, in
    the order of the calls. *)
Fixpoint createdIds (dep : Deployment) (s : State) (ts : list Transaction)
  : list uint256 :=
  match ts with
  | [] => []
  | t :: ts' =>
      match execute dep t s with
      | inl _ => createdIds dep s ts'
      | inr (Some documentId, s') => documentId :: createdIds dep s' ts'
      | inr (None, s') => createdIds dep s' ts'
      end
  end.

(** No account signs for the zero address, so the ledger never delivers a
    transaction whose [msg.sender] is [address(0)]; the contract's
    existence test ([owner != address(0)]) relies on it. *)
Definition signed (t : Transaction) : Prop :=
  msg_sender (tx_context t) <> address0.

(** The record [updateDocument] leaves behind. *)
Definition updatedDocument (b : string) (c : Context) (d : Document) : Document :=
  mkDocument (name d) b (encryptedAccessKey d) (owner d)
             (msg_sender c) (createdAt d) (block_timestamp c).

(** The fields of a record that are written at creation only. *)
Definition identityOf (d : Document) : string * euint256 * address * uint256 :=
  (name d, encryptedAccessKey d, owner d, createdAt d).

(** ** The storage invariant

    An id is allocated once [_nextDocumentId] has moved past it. *)
Definition allocated (s : State) (i : uint256) : bool :=
  (1 <=? i) && (i <? _nextDocumentId s).

Record Consistent (s : State) : Prop := mkConsistent {
  next_bounds : 1 <= _nextDocumentId s <= uint256_max;
  unallocated_document :
    forall i, allocated s i = false -> _documents s i = zeroDocument;
  unallocated_editors :
    forall i a, allocated s i = false -> _editors s i a = false;
  owner_is_editor :
    forall i, allocated s i = true ->
              _editors s i (owner (_documents s i)) = true;
  editor_index :
    forall i a, count_occ N.eq_dec (_documentsByEditor s a) i =
                if _editors s i a then 1%nat else 0%nat;
  owner_index :
    forall i a, count_occ N.eq_dec (_documentsByOwner s a) i =
                if allocated s i && (owner (_documents s i) =? a)
                then 1%nat else 0%nat
}.

Arguments next_bounds {s}.
Arguments unallocated_document {s}.
Arguments unallocated_editors {s}.
Arguments owner_is_editor {s}.
Arguments editor_index {s}.
Arguments owner_index {s}.

(** Under signed transactions every allocated document exists. *)
Definition AllocatedExist (s : State) : Prop :=
  forall i, allocated s i = true -> owner (_documents s i) <> address0.

(** Whoever signs, a document with a non-null editor exists. *)
Definition EditedExist (s : State) : Prop :=
  forall i a, a <> address0 -> _editors s i a = true ->
              owner (_documents s i) <> address0.

End Registry.

(** ** A concrete deployment

    The two signers and the calls of the repository's test suite, used to
    run the contract on concrete inputs. *)
Module Scenario.

Import Registry.
Local Open Scope string_scope.
Local Open Scope N_scope.

Definition ownerSigner : address := 0xf39Fd6e51aad88F6F4ce6aB8827279cffFb92266.
Definition editorSigner : address := 0x70997970C51812dc3A010C7d01b50e0d17dc79C8.
Definition registryAddress : address := 0x5FbDB2315678afecb367f032d93F642f64180aa3.

(** An input is accepted when it comes with a proof, and the handle it
    names is the one stored. *)
Definition deployment : Deployment :=
  mkDeployment registryAddress
    (fun _ inputHandle inputProof =>
       match inputProof with
       | [] => None
       | _ => Some inputHandle
       end).

Definition asOwner (now : uint256) : Context := mkContext ownerSigner now.
Definition asEditor (now : uint256) : Context := mkContext editorSigner now.

Definition createFirstDoc : Transaction :=
  mkTransaction (asOwner 1700000000)
                (CreateDocument "First Doc" 0x1234 [x01]).
Definition createDraft : Transaction :=
  mkTransaction (asEditor 1700000050) (CreateDocument "Draft" 0x01 [x02]).
Definition shareWithEditor : Transaction :=
  mkTransaction (asOwner 1700000100) (AllowEditor 1 editorSigner).
Definition editorUpdates : Transaction :=
  mkTransaction (asEditor 1700000200) (UpdateDocument 1 "updated-by-editor").

(** The state after the first document is created, and after it is shared. *)
Definition created : State := run deployment initial [createFirstDoc].
Definition shared : State := run deployment initial [createFirstDoc; shareWithEditor].

End Scenario.

(* ===================================================================== *)
(** * Part II.  The payload codec of the client                           *)
(* ===================================================================== *)

Module Codec.

Local Open Scope string_scope.
Local Open Scope list_scope.
Local Open Scope N_scope.

(** ** Values

    A [Uint8Array] is a [list byte].  The strings the codec takes apart (an
    access key, a base64 blob) are modelled by their code units below 256,
    as [string]; a "binary string" is such a string read as bytes.  A
    plaintext is kept whole, as the list of its UTF-16 code units. *)

Definition byte_of_N (n : N) : byte :=
  match Byte.of_N (n mod 256) with
  | Some b => b
  | None => x00
  end.

(** A rejected promise carries the [DOMException] it was rejected with. *)
Inductive Exception :=
| InvalidCharacterError   (* atob: not a base64 string *)
| DataError               (* importKey: not an AES key length *)
| OperationError.         (* crypto.subtle.decrypt: decryption failed *)

Definition Promise (A : Type) : Type := (Exception + A)%type.

Definition andThen {A B} (m : Promise A) (k : A -> Promise B) : Promise B :=
  match m with
  | inl e => inl e
  | inr a => k a
  end.

Notation "'await' x <- m ;; k" := (andThen m (fun x => k))
  (at level 61, x name, m at next level, right associativity).

(** ** parseInt(string, 16) and the store into a Uint8Array *)

Definition isWhiteSpace (c : ascii) : bool :=
  match N_of_ascii c with
  | 9 | 10 | 11 | 12 | 13 | 32 | 160 => true
  | _ => false
  end.

Definition hexDigit (c : ascii) : option N :=
  let n := N_of_ascii c in
  if (48 <=? n) && (n <=? 57) then Some (n - 48)
  else if (97 <=? n) && (n <=? 102) then Some (n - 87)
  else if (65 <=? n) && (n <=? 70) then Some (n - 55)
  else None.

Fixpoint trimStart (s : string) : string :=
  match s with
  | String c r => if isWhiteSpace c then trimStart r else s
  | EmptyString => s
  end.

(** The value of the longest prefix of radix-16 digits; [None] when that
    prefix is empty. *)
Fixpoint digits16 (s : string) (acc : option N) : option N :=
  match s with
  | String c r =>
      match hexDigit c with
      | Some d =>
          digits16 r (Some (16 * match acc with Some a => a | None => 0 end + d))
      | None => acc
      end
  | EmptyString => acc
  end.

(** [parseInt(s, 16)]; [None] is NaN. *)
Definition parseInt16 (s : string) : option Z :=
  let s1 := trimStart s in
  let '(sign, s2) :=
    match s1 with
    | String "-" r => ((-1)%Z, r)
    | String "+" r => (1%Z, r)
    | _ => (1%Z, s1)
    end in
  let s3 :=
    match s2 with
    | String "0" (String "x" r) => r
    | String "0" (String "X" r) => r
    | _ => s2
    end in
  match digits16 s3 None with
  | None => None
  | Some m => Some (sign * Z.of_N m)%Z
  end.

(** Storing a number in a [Uint8Array]: NaN becomes 0, an integer is
    reduced modulo 256. *)
Definition ToUint8 (v : option Z) : byte :=
  match v with
  | None => x00
  | Some z => byte_of_N (Z.to_N (z mod 256))
  end.

(** ** hexToBytes *)

(** [hexValue.replace(/^0x/, "")] *)
Definition replace_leading_0x (hexValue : string) : string :=
  match hexValue with
  | String "0" (String "x" r) => r
  | _ => hexValue
  end.

(** The loop of [hexToBytes]: one byte per pair of characters.  The array
    has [floor(length / 2)] cells, so the store made for a trailing single
    character falls outside it and is ignored. *)
Fixpoint hexPairs (cleanHex : string) : list byte :=
  match cleanHex with
  | String a (String b r) =>
      ToUint8 (parseInt16 (String a (String b ""))) :: hexPairs r
  | _ => []
  end.

Definition hexToBytes (hexValue : string) : list byte :=
  hexPairs (replace_leading_0x hexValue).

(** ** btoa and atob

    Platform functions, written out after the HTML standard
    (forgiving-base64 encode and decode). *)

Definition charOfSextet (n : N) : ascii :=
  ascii_of_N
    (if n <? 26 then 65 + n
     else if n <? 52 then 71 + n
     else if n <? 62 then n - 4
     else if n =? 62 then 43
     else 47).

Definition sextetOfChar (c : ascii) : option N :=
  let n := N_of_ascii c in
  if (65 <=? n) && (n <=? 90) then Some (n - 65)
  else if (97 <=? n) && (n <=? 122) then Some (n - 71)
  else if (48 <=? n) && (n <=? 57) then Some (n + 4)
  else if n =? 43 then Some 62
  else if n =? 47 then Some 63
  else None.

Definition codeOf (c : ascii) : N := N_of_ascii c.

Fixpoint btoa (binary : string) : string :=
  match binary with
  | String a (String b (String c r)) =>
      String (charOfSextet (codeOf a / 4))
     (String (charOfSextet ((codeOf a mod 4) * 16 + codeOf b / 16))
     (String (charOfSextet ((codeOf b mod 16) * 4 + codeOf c / 64))
     (String (charOfSextet (codeOf c mod 64)) (btoa r))))
  | String a (String b EmptyString) =>
      String (charOfSextet (codeOf a / 4))
     (String (charOfSextet ((codeOf a mod 4) * 16 + codeOf b / 16))
     (String (charOfSextet ((codeOf b mod 16) * 4))
     (String "=" "")))
  | String a EmptyString =>
      String (charOfSextet (codeOf a / 4))
     (String (charOfSextet ((codeOf a mod 4) * 16))
     (String "=" (String "=" "")))
  | EmptyString => ""
  end.

Definition isAsciiWhitespace (c : ascii) : bool :=
  match N_of_ascii c with
  | 9 | 10 | 12 | 13 | 32 => true
  | _ => false
  end.

Fixpoint removeWhitespace (s : list ascii) : list ascii :=
  match s with
  | c :: r => if isAsciiWhitespace c then removeWhitespace r
              else c :: removeWhitespace r
  | [] => []
  end.

(** When the length is a multiple of four, one or two trailing ['='] are
    dropped. *)
Definition stripPadding (s : list ascii) : list ascii :=
  if N.of_nat (List.length s) mod 4 =? 0 then
    match rev s with
    | c1 :: r1 =>
        if Ascii.eqb c1 "=" then
          match r1 with
          | c2 :: r2 => if Ascii.eqb c2 "=" then rev r2 else rev r1
          | [] => rev r1
          end
        else s
    | [] => s
    end
  else s.

Fixpoint sextets (s : list ascii) : option (list N) :=
  match s with
  | c :: r =>
      match sextetOfChar c, sextets r with
      | Some n, Some ns => Some (n :: ns)
      | _, _ => None
      end
  | [] => Some []
  end.

(** Four sextets give three bytes; a group of three gives two bytes and a
    group of two gives one, the bits left over being discarded. *)
Fixpoint decodeSextets (ns : list N) : string :=
  match ns with
  | a :: b :: c :: d :: r =>
      String (ascii_of_N (a * 4 + b / 16))
     (String (ascii_of_N ((b mod 16) * 16 + c / 4))
     (String (ascii_of_N ((c mod 4) * 64 + d)) (decodeSextets r)))
  | [a; b; c] =>
      String (ascii_of_N (a * 4 + b / 16))
     (String (ascii_of_N ((b mod 16) * 16 + c / 4)) "")
  | [a; b] => String (ascii_of_N (a * 4 + b / 16)) ""
  | _ => ""
  end.

Definition atob (data : string) : Promise string :=
  let s := stripPadding (removeWhitespace (list_ascii_of_string data)) in
  if N.of_nat (List.length s) mod 4 =? 1 then inl InvalidCharacterError
  else
    match sextets s with
    | None => inl InvalidCharacterError
    | Some ns => inr (decodeSextets ns)
    end.

(** The layout of what [btoa] returns: the sextets of the input, then the
    padding. *)
Fixpoint sextetsOf (binary : string) : list N :=
  match binary with
  | String a (String b (String c r)) =>
      codeOf a / 4
      :: (codeOf a mod 4) * 16 + codeOf b / 16
      :: (codeOf b mod 16) * 4 + codeOf c / 64
      :: codeOf c mod 64
      :: sextetsOf r
  | String a (String b EmptyString) =>
      [codeOf a / 4; (codeOf a mod 4) * 16 + codeOf b / 16; (codeOf b mod 16) * 4]
  | String a EmptyString =>
      [codeOf a / 4; (codeOf a mod 4) * 16]
  | EmptyString => []
  end.

Fixpoint paddingOf (binary : string) : list ascii :=
  match binary with
  | String a (String b (String c r)) => paddingOf r
  | String a (String b EmptyString) => ["="%char]
  | String a EmptyString => ["="%char; "="%char]
  | EmptyString => []
  end.

(** The character of a sextet decodes to it, is not white space and is
    not the padding character. *)
Definition sextetChecks (n : N) : bool :=
  match sextetOfChar (charOfSextet n) with
  | Some m => m =? n
  | None => false
  end
  && negb (isAsciiWhitespace (charOfSextet n))
  && negb (Ascii.eqb (charOfSextet n) "=").

(** ** bytesToBase64 and base64ToBytes *)

(** [binary += String.fromCharCode(bytes[i])] for each cell. *)
Fixpoint binaryOfBytes (bytes : list byte) : string :=
  match bytes with
  | b :: r => String (ascii_of_byte b) (binaryOfBytes r)
  | [] => ""
  end.

(** [bytes[i] = binary.charCodeAt(i)] for each character. *)
Fixpoint bytesOfBinary (binary : string) : list byte :=
  match binary with
  | String c r => byte_of_ascii c :: bytesOfBinary r
  | EmptyString => []
  end.

Definition bytesToBase64 (bytes : list byte) : string :=
  btoa (binaryOfBytes bytes).

Definition base64ToBytes (base64 : string) : Promise (list byte) :=
  await binary <- atob base64 ;;
  inr (bytesOfBinary binary).

(** ** TextEncoder and TextDecoder

    Platform functions, written out after the Encoding standard.  A
    plaintext is a JavaScript string in full: a sequence of UTF-16 code
    units. *)

Definition isHighSurrogate (u : N) : bool := (0xD800 <=? u) && (u <=? 0xDBFF).
Definition isLowSurrogate (u : N) : bool := (0xDC00 <=? u) && (u <=? 0xDFFF).

(** The scalar values of a string; a surrogate without its partner
    becomes U+FFFD. *)
Fixpoint scalarValues (units : list N) : list N :=
  match units with
  | [] => []
  | u :: r =>
      if isHighSurrogate u then
        match r with
        | v :: r' =>
            if isLowSurrogate v
            then 0x10000 + (u - 0xD800) * 0x400 + (v - 0xDC00) :: scalarValues r'
            else 0xFFFD :: scalarValues r
        | [] => [0xFFFD]
        end
      else if isLowSurrogate u then 0xFFFD :: scalarValues r
      else u :: scalarValues r
  end.

Definition utf8Bytes (cp : N) : list byte :=
  if cp <? 0x80 then [byte_of_N cp]
  else if cp <? 0x800 then
    [byte_of_N (0xC0 + cp / 0x40); byte_of_N (0x80 + cp mod 0x40)]
  else if cp <? 0x10000 then
    [byte_of_N (0xE0 + cp / 0x1000); byte_of_N (0x80 + (cp / 0x40) mod 0x40);
     byte_of_N (0x80 + cp mod 0x40)]
  else
    [byte_of_N (0xF0 + cp / 0x40000); byte_of_N (0x80 + (cp / 0x1000) mod 0x40);
     byte_of_N (0x80 + (cp / 0x40) mod 0x40); byte_of_N (0x80 + cp mod 0x40)].

(** [new TextEncoder().encode(input)] *)
Definition TextEncoder_encode (input : list N) : list byte :=
  flat_map utf8Bytes (scalarValues input).

(** The state of the UTF-8 decoder. *)
Record Utf8State := mkUtf8State {
  codePoint : N;
  bytesSeen : N;
  bytesNeeded : N;
  lowerBoundary : N;
  upperBoundary : N
}.

Definition utf8Start : Utf8State := mkUtf8State 0 0 0 0x80 0xBF.

(** A byte met while no sequence is open: what it emits and the state it
    leaves. *)
Definition leadByte (b : N) : list N * Utf8State :=
  if b <=? 0x7F then ([b], utf8Start)
  else if (0xC2 <=? b) && (b <=? 0xDF) then
    ([], mkUtf8State (b - 0xC0) 0 1 0x80 0xBF)
  else if (0xE0 <=? b) && (b <=? 0xEF) then
    ([], mkUtf8State (b - 0xE0) 0 2
           (if b =? 0xE0 then 0xA0 else 0x80)
           (if b =? 0xED then 0x9F else 0xBF))
  else if (0xF0 <=? b) && (b <=? 0xF4) then
    ([], mkUtf8State (b - 0xF0) 0 3
           (if b =? 0xF0 then 0x90 else 0x80)
           (if b =? 0xF4 then 0x8F else 0xBF))
  else ([0xFFFD], utf8Start).

(** The decoder with replacement: a byte out of place emits U+FFFD and is
    then read again as a lead byte; so does the end of input inside a
    sequence. *)
Fixpoint utf8Decode (st : Utf8State) (input : list N) : list N :=
  match input with
  | [] => if bytesNeeded st =? 0 then [] else [0xFFFD]
  | b :: r =>
      if bytesNeeded st =? 0 then
        let (out, st') := leadByte b in out ++ utf8Decode st' r
      else if (lowerBoundary st <=? b) && (b <=? upperBoundary st) then
        let cp := codePoint st * 0x40 + (b - 0x80) in
        if bytesSeen st + 1 =? bytesNeeded st
        then cp :: utf8Decode utf8Start r
        else utf8Decode
               (mkUtf8State cp (bytesSeen st + 1) (bytesNeeded st) 0x80 0xBF) r
      else
        let (out, st') := leadByte b in
        0xFFFD :: out ++ utf8Decode st' r
  end.

Definition codeUnitsOf (cp : N) : list N :=
  if cp <? 0x10000 then [cp]
  else [0xD800 + (cp - 0x10000) / 0x400; 0xDC00 + (cp - 0x10000) mod 0x400].

(** [new TextDecoder().decode(buffer)]: UTF-8, not fatal, and with
    [ignoreBOM] unset, so a leading U+FEFF is dropped from the output. *)
Definition TextDecoder_decode (buffer : list byte) : list N :=
  let decoded := utf8Decode utf8Start (List.map Byte.to_N buffer) in
  let output :=
    match decoded with
    | c :: r => if c =? 0xFEFF then r else decoded
    | [] => decoded
    end in
  flat_map codeUnitsOf output.

(** The code units of a string of the model, to write plaintexts with. *)
Fixpoint codeUnits (s : string) : list N :=
  match s with
  | String c r => N_of_ascii c :: codeUnits r
  | EmptyString => []
  end.

(** ** The platform's cryptography

    SHA-256 and AES-GCM belong to the browser and are parameters;
    [AES_GCM_open] answers [None] when the authentication tag does not
    verify. *)
Record Platform := mkPlatform {
  SHA256 : list byte -> list byte;
  AES_GCM_seal : list byte -> list byte -> list byte -> list byte;
  AES_GCM_open : list byte -> list byte -> list byte -> option (list byte)
}.

(** What the codec relies on: a digest is 32 bytes long, sealing appends a
    16-byte tag, and opening what was sealed, with the key and nonce it was
    sealed with, gives the plaintext back. *)
Record Lawful (P : Platform) : Prop := mkLawful {
  digest_length : forall data, List.length (SHA256 P data) = 32%nat;
  seal_length : forall key iv data,
    List.length (AES_GCM_seal P key iv data) = (List.length data + 16)%nat;
  open_seal : forall key iv data,
    AES_GCM_open P key iv (AES_GCM_seal P key iv data) = Some data
}.

Arguments digest_length {P}.
Arguments seal_length {P}.
Arguments open_seal {P}.

Section WithPlatform.

Variable P : Platform.

(** [crypto.subtle.importKey("raw", keyData, "AES-GCM", ...)] *)
Definition importKey (keyData : list byte) : Promise (list byte) :=
  match List.length keyData with
  | 16%nat | 24%nat | 32%nat => inr keyData
  | _ => inl DataError
  end.

(** [crypto.subtle.encrypt({ name: "AES-GCM", iv }, key, data)] *)
Definition subtle_encrypt (iv key data : list byte) : Promise (list byte) :=
  inr (AES_GCM_seal P key iv data).

(** [crypto.subtle.decrypt({ name: "AES-GCM", iv }, key, data)], with the
    default 128-bit tag: data shorter than the tag is refused before any
    decryption is attempted, with the same exception as a failed tag. *)
Definition subtle_decrypt (iv key data : list byte) : Promise (list byte) :=
  if (List.length data <? 16)%nat then inl OperationError
  else
    match AES_GCM_open P key iv data with
    | Some plain => inr plain
    | None => inl OperationError
    end.

Definition deriveKey (accessKey : string) : Promise (list byte) :=
  let keyBytes := hexToBytes accessKey in
  let hashBuffer := SHA256 P keyBytes in
  importKey hashBuffer.

(** [iv] is the array filled by [crypto.getRandomValues(new Uint8Array(12))]. *)
Definition encryptBody (iv : list byte) (plainText : list N) (accessKey : string)
  : Promise string :=
  await key <- deriveKey accessKey ;;
  await cipherBuffer <- subtle_encrypt iv key (TextEncoder_encode plainText) ;;
  let combined := iv ++ cipherBuffer in
  inr (bytesToBase64 combined).

Definition decryptBody (cipherText : string) (accessKey : string)
  : Promise (list N) :=
  await key <- deriveKey accessKey ;;
  await combined <- base64ToBytes cipherText ;;
  let iv := firstn 12 combined in
  let payload := skipn 12 combined in
  await plainBuffer <- subtle_decrypt iv key payload ;;
  inr (TextDecoder_decode plainBuffer).

End WithPlatform.

(** ** A stand-in platform

    Enough of a platform to run the codec: the digest pads or cuts to 32
    bytes, and sealing appends a 16-byte tag made from the key, the nonce
    and the data. *)
Definition standInDigest (data : list byte) : list byte :=
  firstn 32 (data ++ repeat x00 32).

Definition standInTag (key iv data : list byte) : list byte :=
  firstn 16 (key ++ iv ++ data ++ repeat x00 16).

Definition standInSeal (key iv data : list byte) : list byte :=
  data ++ standInTag key iv data.

Fixpoint bytes_eqb (x y : list byte) : bool :=
  match x, y with
  | [], [] => true
  | a :: x', b :: y' => Byte.eqb a b && bytes_eqb x' y'
  | _, _ => false
  end.

Definition standInOpen (key iv sealed : list byte) : option (list byte) :=
  let n := (List.length sealed - 16)%nat in
  let data := firstn n sealed in
  if bytes_eqb (skipn n sealed) (standInTag key iv data)
  then Some data else None.

Definition standIn : Platform :=
  mkPlatform standInDigest standInSeal standInOpen.

End Codec.

(* ===================================================================== *)
(** * Part III.  The re-encryption handshake of the client                *)
(* ===================================================================== *)

Module Handshake.

Import ITree.ITree ITree.ITreeFacts ITree.Events.State ITree.Events.StateFacts.
Import ITreeNotations.
Local Open Scope itree_scope.
Local Open Scope string_scope.
Local Open Scope list_scope.

(** ** Values *)

Record DocumentRecord := mkDocumentRecord {
  id : N;
  name : string;
  encryptedBody : string;
  encryptedAccessKey : string;
  owner : string;
  lastEditor : string;
  createdAt : N;
  updatedAt : N;
  canEdit : bool
}.

(** What [instance.generateKeypair()] returns. *)
Record Keypair := mkKeypair {
  publicKey : string;
  privateKey : string
}.

(** What [instance.createEIP712(...)] returns, as far as the client reads
    it: the domain, the [UserDecryptRequestVerification] type and the
    message to sign. *)
Record EIP712 := mkEIP712 {
  domain : string;
  UserDecryptRequestVerification : string;
  message : string
}.

(** The values the component closes over: whether the relayer instance is
    there, the connected account, whether [signerPromise] resolves to a
    signer, and the contract address. *)
Record Session := mkSession {
  instance : bool;
  address : option string;
  signer : bool;
  normalizedContract : string
}.

(** ** The outside world

    Every call that leaves the function: the relayer SDK, the clock, the
    wallet, ethers and the component's state setters.  A call that can
    throw or reject answers [None] when it does. *)
Variant clientE : Type -> Type :=
| generateKeypair : clientE (option Keypair)
| Date_now : clientE N
| createEIP712 (publicKey : string) (contractAddresses : list string)
    (startTimeStamp durationDays : string) : clientE (option EIP712)
| signTypedData (domain types message : string) : clientE (option string)
| userDecrypt (handleContractPairs : list (string * string))
    (privateKey publicKey signature : string)
    (contractAddresses : list string)
    (userAddress startTimeStamp durationDays : string)
    : clientE (option (list (string * N)))
| getAddress (value : string) : clientE (option string)
| setMessage (docId : N) (value : string) : clientE unit
| setKeyLoading (docId : N) (loading : bool) : clientE unit
| setDecryptedKeys (docId : N) (key : string) : clientE unit
| console_error (label : string) : clientE unit.

(** ** Helpers of the language *)

(** [n.toString()] and [n.toString(16)] *)
Definition toString (n : N) : string :=
  DecimalString.NilEmpty.string_of_uint (N.to_uint n).
Definition toString16 (n : N) : string :=
  HexadecimalString.NilEmpty.string_of_uint (N.to_hex_uint n).

(** [s.padStart(40, '0')] *)
Definition padStart40 (s : string) : string :=
  (string_of_list_ascii (repeat "0"%char (40 - String.length s)) ++ s)%string.

(** [signature.replace('0x', '')]: the first occurrence is removed. *)
Fixpoint replace_first_0x (s : string) : string :=
  match s with
  | String "0" (String "x" r) => r
  | String c r => String c (replace_first_0x r)
  | EmptyString => s
  end.

(** [result[key]] *)
Fixpoint lookup (key : string) (result : list (string * N)) : option N :=
  match result with
  | (k, v) :: r => if String.eqb k key then Some v else lookup key r
  | [] => None
  end.

(** ** decryptAccessKey *)

(** The body of the [try] block; [None] stands for a thrown exception. *)
Definition tryDecrypt (s : Session) (user : string) (doc : DocumentRecord)
  : itree clientE (option string) :=
  generated <- ITree.trigger generateKeypair ;;
  match generated with
  | None => Ret None
  | Some keypair =>
      let handleContractPairs :=
        [(encryptedAccessKey doc, normalizedContract s)] in
      now <- ITree.trigger Date_now ;;
      let startTimeStamp := toString (now / 1000) in
      let durationDays := "7" in
      let contractAddresses := [normalizedContract s] in
      created <- ITree.trigger
        (createEIP712 (publicKey keypair) contractAddresses startTimeStamp
                      durationDays) ;;
      match created with
      | None => Ret None
      | Some eip712 =>
          signed <- ITree.trigger
            (signTypedData (domain eip712)
               (UserDecryptRequestVerification eip712) (message eip712)) ;;
          match signed with
          | None => Ret None
          | Some signature =>
              answered <- ITree.trigger
                (userDecrypt handleContractPairs (privateKey keypair)
                   (publicKey keypair) (replace_first_0x signature)
                   contractAddresses user startTimeStamp durationDays) ;;
              match answered with
              | None => Ret None
              | Some result =>
                  match lookup (encryptedAccessKey doc) result with
                  | None => Ret None
                  | Some decryptedValue =>
                      if (decryptedValue =? 0)%N then Ret None
                      else
                        let keyHex :=
                          ("0x" ++ padStart40 (toString16 decryptedValue))%string in
                        checksummed <- ITree.trigger (getAddress keyHex) ;;
                        match checksummed with
                        | None => Ret None
                        | Some checksumKey =>
                            ITree.trigger
                              (setDecryptedKeys (id doc) checksumKey) ;;
                            ITree.trigger
                              (setMessage (id doc) "Access key decrypted") ;;
                            Ret (Some checksumKey)
                        end
                  end
              end
          end
      end
  end.

Definition decryptAccessKey (s : Session) (doc : DocumentRecord)
  : itree clientE (option string) :=
  match instance s, address s with
  | true, Some (String c r as user) =>
      if signer s then
        ITree.trigger (setKeyLoading (id doc) true) ;;
        outcome <- tryDecrypt s user doc ;;
        match outcome with
        | Some checksumKey =>
            ITree.trigger (setKeyLoading (id doc) false) ;;
            Ret (Some checksumKey)
        | None =>
            ITree.trigger (console_error "Decrypt access key failed") ;;
            ITree.trigger (setMessage (id doc) "Failed to decrypt access key.") ;;
            ITree.trigger (setKeyLoading (id doc) false) ;;
            Ret None
        end
      else
        ITree.trigger (setMessage (id doc) "Connect a signer to decrypt.") ;;
        Ret None
  | _, _ =>
      ITree.trigger (setMessage (id doc) "Encryption service not ready.") ;;
      Ret None
  end.

(** ** Runs

    A run is the function interpreted against an environment that answers
    each call; the log keeps the calls and their answers in order.  No run
    makes the same call twice, so an environment is given by its answer to
    each call. *)
Inductive Entry := Did (T : Type) (e : clientE T) (answer : T).
Arguments Did {T}.

Definition Environment := forall T, clientE T -> T.

Definition handler (env : Environment)
  : clientE ~> Monads.stateT (list Entry) (itree void1) :=
  fun T e log => Ret (log ++ [Did e (env T e)], env T e).

Definition runWith (env : Environment) (s : Session) (doc : DocumentRecord)
  : itree void1 (list Entry * option string) :=
  interp_state (handler env) (decryptAccessKey s doc) [].

(** Calls that reach the relayer or the wallet. *)
Definition isRelayerCall (entry : Entry) : bool :=
  match entry with
  | Did generateKeypair _ => true
  | Did (createEIP712 _ _ _ _) _ => true
  | Did (signTypedData _ _ _) _ => true
  | Did (userDecrypt _ _ _ _ _ _ _ _) _ => true
  | _ => false
  end.

(** No entry of [l] is a call to the relayer or to the wallet. *)
Definition quiet (l : list Entry) : Prop :=
  forallb (fun entry => negb (isRelayerCall entry)) l = true.

(** What the [catch] block and the [finally] block add to the log of a run
    whose [try] block threw. *)
Definition failureReport (doc : DocumentRecord) : list Entry :=
  [Did (console_error "Decrypt access key failed") tt;
   Did (setMessage (id doc) "Failed to decrypt access key.") tt;
   Did (setKeyLoading (id doc) false) tt].

(** A scripted environment and a ready session, to run the handshake on. *)
Definition scripted : Environment :=
  fun T e =>
    match e in clientE T return T with
    | generateKeypair =>
        Some (mkKeypair "ephemeral-public" "ephemeral-private")
    | Date_now => 1700000000123%N
    | createEIP712 pk contracts start days =>
        Some (mkEIP712 "relayer-domain" "UserDecryptRequestVerification"
                       (pk ++ "|" ++ start ++ "|" ++ days)%string)
    | signTypedData d t m => Some ("0x5167" ++ m)%string
    | userDecrypt pairs sk pk sig contracts user start days =>
        Some (List.map
                (fun pair : string * string =>
                   let (handle, _) := pair in
                   (handle, 0x1234000000000000000000000000000000000000%N))
                pairs)
    | getAddress value => Some value
    | setMessage _ _ => tt
    | setKeyLoading _ _ => tt
    | setDecryptedKeys _ _ => tt
    | console_error _ => tt
    end.

Definition readySession : Session :=
  mkSession true (Some "0xf39Fd6e51aad88F6F4ce6aB8827279cffFb92266") true
            "0x5FbDB2315678afecb367f032d93F642f64180aa3".

Definition firstDoc : DocumentRecord :=
  mkDocumentRecord 1 "First Doc" "" "0xhandle"
    "0xf39Fd6e51aad88F6F4ce6aB8827279cffFb92266"
    "0xf39Fd6e51aad88F6F4ce6aB8827279cffFb92266"
    1700000000 1700000000 true.

End Handshake.

(* ===================================================================== *)
(** * Part III, continued.  The document list of the client                *)
(* ===================================================================== *)

Module Client.

Import Registry.
Local Open Scope string_scope.
Local Open Scope list_scope.
Local Open Scope N_scope.

(** ** Values of the language *)

(** [Number(n)] of a bigint: the nearest double, ties to even, kept as the
    integer it denotes.  Up to 53 bits nothing is lost; beyond, the bits
    under the 53 highest are rounded away.  (A [uint256] stays far below
    the largest double.) *)
Definition Number (n : N) : N :=
  let size := N.size n in
  if size <=? 53 then n
  else
    let e := size - 53 in
    let q := N.shiftr n e in
    let r := N.land n (N.ones e) in
    let half := N.shiftl 1 (e - 1) in
    let q' := if r <? half then q
              else if half <? r then q + 1
              else if N.even q then q else q + 1 in
    N.shiftl q' e.

(** [BigInt(s)] on the decimal strings that [toString] produces; [None]
    is the SyntaxError thrown for anything else. *)
Definition BigInt (s : string) : option N :=
  option_map N.of_uint (DecimalString.NilEmpty.uint_of_string s).

(** [Array.from(new Set(values))]: a value is kept where it first occurs. *)
Fixpoint setOf (seen values : list string) : list string :=
  match values with
  | [] => []
  | v :: r =>
      if existsb (String.eqb v) seen then setOf seen r
      else v :: setOf (v :: seen) r
  end.

(** [Promise.all(values.map(f))], and a [map] whose callback can throw:
    the first failure is the failure of the whole. *)
Fixpoint allOf {A B} (f : A -> option B) (values : list A) : option (list B) :=
  match values with
  | [] => Some []
  | v :: r =>
      match f v with
      | None => None
      | Some b =>
          match allOf f r with
          | None => None
          | Some bs => Some (b :: bs)
          end
      end
  end.

(** ** shortHex *)

(** [value.slice(0, visible)] and [value.slice(-visible)], for a count
    [visible] that is a natural number; [slice(-0)] is [slice(0)], the
    whole string. *)
Definition slice_first (visible : nat) (value : string) : string :=
  substring 0 visible value.

Definition slice_last (visible : nat) (value : string) : string :=
  match visible with
  | O => value
  | _ => substring (String.length value - visible) visible value
  end.

Definition shortHex (value : string) (visible : nat) : string :=
  match value with
  | EmptyString => ""
  | _ => slice_first visible value ++ "..." ++ slice_last visible value
  end.

(** The default of the parameter. *)
Definition shortHex_default (value : string) : string := shortHex value 6.

(** ** fetchDocuments *)

(** How viem hands an [address] and a [bytes32] to the client: as text.
    The spelling is the library's. *)
Record Abi := mkAbi {
  addressText : address -> string;
  bytes32Text : euint256 -> string
}.

(** What [publicClient.readContract] answers to the four reads of the
    function; [None] when the call throws.  No run asks the same question
    twice. *)
Record PublicClient := mkPublicClient {
  read_getDocumentsByOwner : address -> option (list uint256);
  read_getDocumentsForEditor : address -> option (list uint256);
  read_getDocument :
    uint256 ->
    option (string * string * euint256 * address * address * uint256 * uint256);
  read_isEditor : uint256 -> address -> option bool
}.

(** What the function does to the component. *)
Inductive UiEffect :=
| SetDocuments (documents : list Handshake.DocumentRecord)
| SetLoadingDocs (loading : bool)
| ConsoleError (label : string).

(** [Array.from(new Set([...ownerDocs, ...editorDocs].map(id => id.toString())))
      .map(id => BigInt(id))] *)
Definition uniqueIds (ownerDocs editorDocs : list uint256) : option (list uint256) :=
  allOf BigInt (setOf [] (List.map Handshake.toString (ownerDocs ++ editorDocs))).

(** The callback of [uniqueIds.map]: two reads and a record. *)
Definition loadDocument (abi : Abi) (client : PublicClient) (account : address)
    (id : uint256) : option Handshake.DocumentRecord :=
  match read_getDocument client id with
  | None => None
  | Some (name, encryptedBody, encryptedAccessKey, owner, lastEditor,
          createdAt, updatedAt) =>
      match read_isEditor client id account with
      | None => None
      | Some canEdit =>
          Some (Handshake.mkDocumentRecord id name encryptedBody
                  (bytes32Text abi encryptedAccessKey)
                  (addressText abi owner) (addressText abi lastEditor)
                  (Number createdAt) (Number updatedAt) canEdit)
      end
  end.

(** [loadedDocs.sort((a, b) => b.updatedAt - a.updatedAt)].  The sort of
    the language is stable and the comparator is a total preorder, so the
    result is determined: the records by decreasing [updatedAt], those with
    the same [updatedAt] in the order they had.  Inserting from the right
    computes it. *)
Fixpoint insertByUpdatedAt (x : Handshake.DocumentRecord)
    (sorted : list Handshake.DocumentRecord) : list Handshake.DocumentRecord :=
  match sorted with
  | [] => [x]
  | y :: r =>
      if Handshake.updatedAt x <? Handshake.updatedAt y
      then y :: insertByUpdatedAt x r
      else x :: y :: r
  end.

Definition sortByUpdatedAt (docs : list Handshake.DocumentRecord)
  : list Handshake.DocumentRecord :=
  fold_right insertByUpdatedAt [] docs.

(** The [try] block; [None] stands for a thrown exception. *)
Definition loadDocuments (abi : Abi) (client : PublicClient) (account : address)
  : option (list Handshake.DocumentRecord) :=
  match read_getDocumentsByOwner client account with
  | None => None
  | Some ownerDocs =>
      match read_getDocumentsForEditor client account with
      | None => None
      | Some editorDocs =>
          match uniqueIds ownerDocs editorDocs with
          | None => None
          | Some ids =>
              match allOf (loadDocument abi client account) ids with
              | None => None
              | Some loadedDocs => Some (sortByUpdatedAt loadedDocs)
              end
          end
      end
  end.

Definition fetchDocuments (abi : Abi) (publicClient : option PublicClient)
    (account : option address) (contractIsValid : bool) : list UiEffect :=
  match publicClient, account with
  | Some client, Some a =>
      if contractIsValid then
        SetLoadingDocs true
        :: match loadDocuments abi client a with
           | Some loadedDocs => [SetDocuments loadedDocs]
           | None => [ConsoleError "Failed to load documents"]
           end
        ++ [SetLoadingDocs false]
      else [SetDocuments []]
  | _, _ => [SetDocuments []]
  end.

(** ** The reads, answered by the contract

    Each read is a call of its own and sees the chain as it is at that
    moment: the owner's list in one state, the editor's list in a later
    one, and the two reads made for a document in states later still. *)
Definition answer {A} (outcome : Revert + A) : option A :=
  match outcome with
  | inr a => Some a
  | inl _ => None
  end.

Definition readsFrom (sOwner sEditor : State) (sDocument sIsEditor : uint256 -> State)
  : PublicClient :=
  mkPublicClient
    (fun a => Some (getDocumentsByOwner a sOwner))
    (fun a => Some (getDocumentsForEditor a sEditor))
    (fun i => answer (getDocument i (sDocument i)))
    (fun i a => answer (isEditor i a (sIsEditor i))).

(** ** The log of a handshake, read for the cache *)

(** Calls that store a key in the component. *)
Definition isKeyStore (entry : Handshake.Entry) : bool :=
  match entry with
  | Handshake.Did (Handshake.setDecryptedKeys _ _) _ => true
  | _ => false
  end.

Definition storesNoKey (l : list Handshake.Entry) : Prop :=
  forallb (fun entry => negb (isKeyStore entry)) l = true.

End Client.

Module KeyCache.

Import ITree.ITree ITree.ITreeFacts ITree.Events.State ITree.Events.StateFacts.
Import ITreeNotations.
Import Handshake.
Local Open Scope itree_scope.
Local Open Scope string_scope.
Local Open Scope list_scope.

(** [decryptedKeys], the component's record of keys: a property per
    [Number(doc.id)]. *)
Definition Keys := N -> option string.

(** [prev => ({ ...prev, [Number(doc.id)]: checksumKey })] *)
Definition updateKeys (prev : Keys) (docId : N) (key : string) : Keys :=
  fun n => if (n =? Client.Number docId)%N then Some key else prev n.

(** The record once the stores of a log have been applied, in order. *)
Definition keysAfter (log : list Entry) (keys : Keys) : Keys :=
  fold_left
    (fun acc entry =>
       match entry with
       | Did (setDecryptedKeys docId key) _ => updateKeys acc docId key
       | _ => acc
       end)
    log keys.

(** ** ensureKey *)
Definition ensureKey (decryptedKeys : Keys) (s : Session) (doc : DocumentRecord)
  : itree clientE (option string) :=
  match decryptedKeys (Client.Number (id doc)) with
  | Some (String c r as cachedKey) => Ret (Some cachedKey)
  | _ => decryptAccessKey s doc
  end.

Definition runEnsureKey (env : Environment) (decryptedKeys : Keys) (s : Session)
    (doc : DocumentRecord) : itree void1 (list Entry * option string) :=
  interp_state (handler env) (ensureKey decryptedKeys s doc) [].

End KeyCache.

(* ===================================================================== *)
(** * Part IV.  Properties of the contract                               *)
(* ===================================================================== *)

Module RegistryFacts.

Import Registry.
Local Open Scope string_scope.
Local Open Scope list_scope.
Local Open Scope N_scope.

(** ** What each function does, field by field *)

Ltac tx_unfold :=
  unfold createDocument, updateDocument, allowEditor, onlyExisting,
    _grantEditor, postIncrement_nextDocumentId, FHE_fromExternal,
    FHE_allowThis, FHE_allow, emit, require, revert, sender, timestamp,
    load, store, bind, ret in *.

Section Functions.

Variable dep : Deployment.

Lemma createDocument_inv n k p c s documentId s' :
  createDocument dep n k p c s = inr (documentId, s') ->
  n <> "" /\
  documentId = _nextDocumentId s /\
  _nextDocumentId s <> uint256_max /\
  exists storedKey,
    verifyInput dep (msg_sender c) k p = Some storedKey /\
    _nextDocumentId s' = _nextDocumentId s + 1 /\
    (forall i, _documents s' i =
       if i =? documentId
       then mkDocument n "" storedKey (msg_sender c) (msg_sender c)
                       (block_timestamp c) (block_timestamp c)
       else _documents s i) /\
    (forall a, _documentsByOwner s' a =
       if a =? msg_sender c then _documentsByOwner s a ++ [documentId]
       else _documentsByOwner s a) /\
    (forall i a, _editors s' i a =
       ((i =? documentId) && (a =? msg_sender c)) || _editors s i a) /\
    (forall a, _documentsByEditor s' a =
       if (a =? msg_sender c) && negb (_editors s documentId (msg_sender c))
       then _documentsByEditor s a ++ [documentId]
       else _documentsByEditor s a) /\
    (forall h a, acl s' h a =
       ((h =? storedKey) && ((a =? msg_sender c) || (a =? this dep)))
       || acl s h a) /\
    events s' = events s ++ [DocumentCreated documentId (msg_sender c) n].
Proof.
  intros H. tx_unfold.
  destruct n as [|ch n']; [discriminate|].
  cbn [String.length] in H.
  replace (0 <? N.of_nat (S (String.length n'))) with true in H
    by (symmetry; apply N.ltb_lt; lia).
  destruct (_nextDocumentId s =? uint256_max) eqn:Emax; [discriminate|].
  destruct (verifyInput dep (msg_sender c) k p) as [h|] eqn:Ev; [|discriminate].
  cbn in H.
  split; [discriminate|].
  destruct (_editors s (_nextDocumentId s) (msg_sender c)) eqn:Eed;
    cbn in H; injection H as <- <-; cbn;
    (split; [reflexivity|]); (split; [now apply N.eqb_neq|]);
    exists h; repeat split; intros.
  all: try reflexivity.
  all: try (destruct (i =? _nextDocumentId s) eqn:Ei; cbn; try reflexivity).
  all: try (destruct (a =? msg_sender c) eqn:Ea; cbn; try reflexivity).
  all: try (apply N.eqb_eq in Ei; apply N.eqb_eq in Ea; subst; now rewrite Eed).
  all: try (destruct (h0 =? h) eqn:Eh; cbn; try reflexivity).
  all: try (destruct (a =? this dep) eqn:Et; cbn; try reflexivity).
  all: rewrite Eed; reflexivity.
Qed.

Lemma createDocument_empty_name k p c s :
  createDocument dep "" k p c s = inl (Error "Name required").
Proof. reflexivity. Qed.

Lemma createDocument_succeeds n k p c s storedKey :
  n <> "" ->
  _nextDocumentId s <> uint256_max ->
  verifyInput dep (msg_sender c) k p = Some storedKey ->
  exists s', createDocument dep n k p c s = inr (_nextDocumentId s, s').
Proof.
  intros Hn Hmax Hv. tx_unfold.
  destruct n as [|ch n']; [congruence|].
  cbn [String.length].
  replace (0 <? N.of_nat (S (String.length n'))) with true
    by (symmetry; apply N.ltb_lt; lia).
  apply N.eqb_neq in Hmax. rewrite Hmax, Hv. cbn.
  destruct (_editors s (_nextDocumentId s) (msg_sender c)); cbn; eauto.
Qed.

Lemma updateDocument_not_found i b c s :
  owner (_documents s i) = address0 ->
  updateDocument i b c s = inl (Error "Document does not exist").
Proof.
  intros H. tx_unfold. rewrite H. reflexivity.
Qed.

Lemma updateDocument_not_authorized i b c s :
  owner (_documents s i) <> address0 ->
  _editors s i (msg_sender c) = false ->
  updateDocument i b c s = inl (Error "Not authorized").
Proof.
  intros H He. tx_unfold. apply N.eqb_neq in H. rewrite H. cbn.
  rewrite He. reflexivity.
Qed.

Lemma updateDocument_inv i b c s u s' :
  updateDocument i b c s = inr (u, s') ->
  owner (_documents s i) <> address0 /\
  _editors s i (msg_sender c) = true /\
  _nextDocumentId s' = _nextDocumentId s /\
  (forall j, _documents s' j =
     if j =? i then updatedDocument b c (_documents s j) else _documents s j) /\
  _documentsByOwner s' = _documentsByOwner s /\
  _documentsByEditor s' = _documentsByEditor s /\
  _editors s' = _editors s /\
  acl s' = acl s /\
  events s' = events s ++ [DocumentUpdated i (msg_sender c) b].
Proof.
  intros H. tx_unfold.
  destruct (owner (_documents s i) =? address0) eqn:Eo; [discriminate|].
  cbn in H.
  destruct (_editors s i (msg_sender c)) eqn:Ee; [|discriminate].
  cbn in H. injection H as _ <-. cbn.
  split; [now apply N.eqb_neq|].
  repeat split.
  intros j. destruct (j =? i); reflexivity.
Qed.

Lemma updateDocument_succeeds i b c s :
  owner (_documents s i) <> address0 ->
  _editors s i (msg_sender c) = true ->
  exists s', updateDocument i b c s = inr (tt, s').
Proof.
  intros H He. tx_unfold. apply N.eqb_neq in H. rewrite H. cbn.
  rewrite He. cbn. eauto.
Qed.

Lemma allowEditor_not_found i e c s :
  owner (_documents s i) = address0 ->
  allowEditor i e c s = inl (Error "Document does not exist").
Proof.
  intros H. tx_unfold. rewrite H. reflexivity.
Qed.

Lemma allowEditor_invalid_editor i c s :
  owner (_documents s i) <> address0 ->
  allowEditor i address0 c s = inl (Error "Invalid editor").
Proof.
  intros H. tx_unfold. apply N.eqb_neq in H. rewrite H. reflexivity.
Qed.

Lemma allowEditor_only_owner i e c s :
  owner (_documents s i) <> address0 ->
  e <> address0 ->
  owner (_documents s i) <> msg_sender c ->
  allowEditor i e c s = inl (Error "Only owner can allow").
Proof.
  intros H He Ho. tx_unfold.
  apply N.eqb_neq in H, He, Ho. rewrite H. cbn. rewrite He. cbn.
  rewrite Ho. reflexivity.
Qed.

Lemma allowEditor_inv i e c s u s' :
  allowEditor i e c s = inr (u, s') ->
  owner (_documents s i) <> address0 /\
  e <> address0 /\
  owner (_documents s i) = msg_sender c /\
  _nextDocumentId s' = _nextDocumentId s /\
  _documents s' = _documents s /\
  _documentsByOwner s' = _documentsByOwner s /\
  (forall j a, _editors s' j a = ((j =? i) && (a =? e)) || _editors s j a) /\
  (forall a, _documentsByEditor s' a =
     if (a =? e) && negb (_editors s i e)
     then _documentsByEditor s a ++ [i]
     else _documentsByEditor s a) /\
  (forall h a, acl s' h a =
     ((h =? encryptedAccessKey (_documents s i)) && (a =? e)) || acl s h a) /\
  events s' = events s ++ [EditorAllowed i e].
Proof.
  intros H. tx_unfold.
  destruct (owner (_documents s i) =? address0) eqn:Eo; [discriminate|].
  cbn in H.
  destruct (e =? address0) eqn:Ee; [discriminate|].
  cbn in H.
  destruct (owner (_documents s i) =? msg_sender c) eqn:Es; [|discriminate].
  cbn in H.
  apply N.eqb_neq in Eo, Ee. apply N.eqb_eq in Es.
  destruct (_editors s i e) eqn:Eed; cbn in H; injection H as _ <-; cbn;
    repeat split; auto; intros.
  all: try (destruct (j =? i) eqn:Ej; cbn; try reflexivity).
  all: try (destruct (a =? e) eqn:Ea; cbn; try reflexivity).
  all: try (apply N.eqb_eq in Ej; apply N.eqb_eq in Ea; subst; now rewrite Eed).
Qed.

Lemma allowEditor_succeeds i e c s :
  owner (_documents s i) <> address0 ->
  e <> address0 ->
  owner (_documents s i) = msg_sender c ->
  exists s', allowEditor i e c s = inr (tt, s').
Proof.
  intros H He Ho. tx_unfold.
  apply N.eqb_neq in H, He. apply N.eqb_eq in Ho.
  rewrite H. cbn. rewrite He. cbn. rewrite Ho. cbn.
  destruct (_editors s i e); cbn; eauto.
Qed.

End Functions.

(** ** The invariant holds in every reachable state *)

Ltac nb :=
  repeat match goal with
  | H : context [N.eqb ?a ?b] |- _ => destruct (N.eqb_spec a b)
  | H : context [N.ltb ?a ?b] |- _ => destruct (N.ltb_spec a b)
  | H : context [N.leb ?a ?b] |- _ => destruct (N.leb_spec a b)
  | |- context [N.eqb ?a ?b] => destruct (N.eqb_spec a b)
  | |- context [N.ltb ?a ?b] => destruct (N.ltb_spec a b)
  | |- context [N.leb ?a ?b] => destruct (N.leb_spec a b)
  end; cbn in *; subst; try lia; try congruence; try reflexivity.

Lemma consistent_initial : Consistent initial.
Proof.
  split; cbn; intros; try reflexivity; try lia.
  - unfold allocated in H. cbn in H. nb.
  - assert (E : allocated initial i = false)
      by (unfold allocated; cbn [_nextDocumentId initial]; nb).
    now rewrite E.
Qed.

Lemma count_occ_snoc (l : list N) (x i : N) :
  count_occ N.eq_dec (l ++ [x]) i =
  (count_occ N.eq_dec l i + (if N.eqb x i then 1 else 0))%nat.
Proof.
  rewrite count_occ_app. cbn.
  destruct (N.eq_dec x i), (N.eqb_spec x i); congruence.
Qed.

Lemma allocated_exists_consistent s i :
  Consistent s -> owner (_documents s i) <> address0 -> allocated s i = true.
Proof.
  intros C H. destruct (allocated s i) eqn:E; [reflexivity|].
  rewrite (unallocated_document C _ E) in H. now elim H.
Qed.

Lemma consistent_createDocument dep n k p c s documentId s' :
  Consistent s ->
  createDocument dep n k p c s = inr (documentId, s') ->
  Consistent s'.
Proof.
  intros C H.
  apply createDocument_inv in H.
  destruct H as (Hn & -> & Hmax & h & Hv & Hnext & Hdoc & Hbo & Hed & Hbe & Hacl & Hev).
  pose proof (next_bounds C) as Hb.
  assert (Hfresh : allocated s (_nextDocumentId s) = false)
    by (unfold allocated; nb).
  assert (Hal : forall i, allocated s' i =
                 (i =? _nextDocumentId s) || allocated s i)
    by (intros i; unfold allocated; rewrite Hnext; nb).
  split.
  - lia.
  - intros i Hi. rewrite Hal in Hi. apply orb_false_iff in Hi as [Hi1 Hi2].
    rewrite Hdoc, Hi1. now apply (unallocated_document C).
  - intros i a Hi. rewrite Hal in Hi. apply orb_false_iff in Hi as [Hi1 Hi2].
    rewrite Hed, Hi1. cbn. now apply (unallocated_editors C).
  - intros i Hi. rewrite Hal in Hi. rewrite Hed, Hdoc.
    destruct (i =? _nextDocumentId s) eqn:Ei; cbn.
    + now rewrite N.eqb_refl.
    + cbn in Hi. now apply (owner_is_editor C).
  - intros i a. rewrite Hbe, Hed.
    rewrite (unallocated_editors C _ (msg_sender c) Hfresh). cbn.
    rewrite andb_true_r.
    destruct (a =? msg_sender c) eqn:Ea.
    + rewrite count_occ_snoc, (editor_index C).
      rewrite andb_true_r, (N.eqb_sym i).
      destruct (_nextDocumentId s =? i) eqn:Ei; cbn; [|now rewrite Nat.add_0_r].
      apply N.eqb_eq in Ei, Ea. subst i a.
      now rewrite (unallocated_editors C _ _ Hfresh).
    + rewrite andb_false_r. cbn. apply (editor_index C).
  - intros i a. rewrite Hbo, Hal, Hdoc.
    destruct (a =? msg_sender c) eqn:Ea.
    + rewrite count_occ_snoc, (owner_index C), (N.eqb_sym _ i).
      destruct (i =? _nextDocumentId s) eqn:Ei; cbn.
      * apply N.eqb_eq in Ei. subst i. rewrite Hfresh. cbn.
        now rewrite N.eqb_sym, Ea.
      * now rewrite Nat.add_0_r.
    + rewrite (owner_index C).
      destruct (i =? _nextDocumentId s) eqn:Ei; cbn; [|reflexivity].
      apply N.eqb_eq in Ei. subst i. rewrite Hfresh. cbn.
      now rewrite N.eqb_sym, Ea.
Qed.

Lemma allocated_updateDocument i b c s u s' :
  updateDocument i b c s = inr (u, s') ->
  forall j, allocated s' j = allocated s j.
Proof.
  intros H j. apply updateDocument_inv in H.
  destruct H as (_ & _ & Hnext & _). unfold allocated. now rewrite Hnext.
Qed.

Lemma owner_updateDocument i b c s u s' :
  updateDocument i b c s = inr (u, s') ->
  forall j, owner (_documents s' j) = owner (_documents s j).
Proof.
  intros H j. apply updateDocument_inv in H.
  destruct H as (_ & _ & _ & Hdoc & _). rewrite Hdoc.
  destruct (j =? i); reflexivity.
Qed.

Lemma consistent_updateDocument i b c s u s' :
  Consistent s ->
  updateDocument i b c s = inr (u, s') ->
  Consistent s'.
Proof.
  intros C H.
  pose proof (allocated_updateDocument _ _ _ _ _ _ H) as Hal.
  pose proof (owner_updateDocument _ _ _ _ _ _ H) as Hown.
  apply updateDocument_inv in H.
  destruct H as (Hex & Hed & Hnext & Hdoc & Hbo & Hbe & Heds & Hacl & Hev).
  pose proof (allocated_exists_consistent _ _ C Hex) as Hi.
  split.
  - rewrite Hnext. apply (next_bounds C).
  - intros j Hj. rewrite Hal in Hj. rewrite Hdoc.
    destruct (j =? i) eqn:Ej.
    + apply N.eqb_eq in Ej. congruence.
    + now apply (unallocated_document C).
  - intros j a Hj. rewrite Hal in Hj. rewrite Heds.
    now apply (unallocated_editors C).
  - intros j Hj. rewrite Hal in Hj. rewrite Heds, Hown.
    now apply (owner_is_editor C).
  - intros j a. rewrite Hbe, Heds. apply (editor_index C).
  - intros j a. rewrite Hbo, Hal, Hown. apply (owner_index C).
Qed.

Lemma consistent_allowEditor i e c s u s' :
  Consistent s ->
  allowEditor i e c s = inr (u, s') ->
  Consistent s'.
Proof.
  intros C H.
  apply allowEditor_inv in H.
  destruct H as (Hex & He & Ho & Hnext & Hdoc & Hbo & Hed & Hbe & Hacl & Hev).
  pose proof (allocated_exists_consistent _ _ C Hex) as Hi.
  assert (Hal : forall j, allocated s' j = allocated s j)
    by (intros j; unfold allocated; now rewrite Hnext).
  split.
  - rewrite Hnext. apply (next_bounds C).
  - intros j Hj. rewrite Hal in Hj. rewrite Hdoc.
    now apply (unallocated_document C).
  - intros j a Hj. rewrite Hal in Hj. rewrite Hed.
    destruct (j =? i) eqn:Ej.
    + apply N.eqb_eq in Ej. congruence.
    + cbn. now apply (unallocated_editors C).
  - intros j Hj. rewrite Hal in Hj. rewrite Hed, Hdoc.
    rewrite (owner_is_editor C _ Hj). apply orb_true_r.
  - intros j a. rewrite Hbe, Hed.
    destruct (a =? e) eqn:Ea; cbn.
    + apply N.eqb_eq in Ea. subst a.
      destruct (_editors s i e) eqn:Eie; cbn.
      * rewrite (editor_index C).
        destruct (j =? i) eqn:Ej; cbn; [|reflexivity].
        apply N.eqb_eq in Ej. subst j. now rewrite Eie.
      * rewrite count_occ_snoc, (editor_index C), (N.eqb_sym i j).
        destruct (j =? i) eqn:Ej; cbn.
        -- apply N.eqb_eq in Ej. subst j. now rewrite Eie.
        -- now rewrite Nat.add_0_r.
    + rewrite andb_false_r. cbn. apply (editor_index C).
  - intros j a. rewrite Hbo, Hal, Hdoc. apply (owner_index C).
Qed.

Lemma consistent_step dep s t : Consistent s -> Consistent (step dep s t).
Proof.
  intros C. unfold step, execute.
  destruct (tx_call t) as [n k p|i b|i e].
  - destruct (createDocument dep n k p (tx_context t) s) as [r|[d s']] eqn:E;
      [assumption|]. eapply consistent_createDocument; eauto.
  - destruct (updateDocument i b (tx_context t) s) as [r|[u s']] eqn:E;
      [assumption|]. eapply consistent_updateDocument; eauto.
  - destruct (allowEditor i e (tx_context t) s) as [r|[u s']] eqn:E;
      [assumption|]. eapply consistent_allowEditor; eauto.
Qed.

Lemma consistent_run dep ts : forall s, Consistent s -> Consistent (run dep s ts).
Proof.
  induction ts as [|t ts IH]; intros s C; cbn; [assumption|].
  apply IH, consistent_step, C.
Qed.

Lemma consistent_reachable dep ts : Consistent (run dep initial ts).
Proof. apply consistent_run, consistent_initial. Qed.

(** ** Editors are never removed *)

Lemma isEditor_true i a s :
  isEditor i a s = inr true <->
  owner (_documents s i) <> address0 /\ _editors s i a = true.
Proof.
  unfold isEditor, viewOnlyExisting.
  destruct (N.eqb_spec (owner (_documents s i)) address0) as [E|E]; cbn.
  - split; [discriminate|]. intros [H _]. now elim H.
  - split; [intros H; injection H as H; auto|intros [_ ->]; reflexivity].
Qed.

Lemma step_keeps_editor dep s t i a :
  Consistent s ->
  isEditor i a s = inr true ->
  isEditor i a (step dep s t) = inr true.
Proof.
  intros C H. apply isEditor_true in H as [Hex Hed].
  pose proof (allocated_exists_consistent _ _ C Hex) as Hal.
  apply isEditor_true. unfold step, execute.
  destruct (tx_call t) as [n k p|j b|j e].
  - destruct (createDocument dep n k p (tx_context t) s) as [r|[d s']] eqn:E;
      [auto|].
    apply createDocument_inv in E.
    destruct E as (_ & -> & _ & h & _ & _ & Hdoc & _ & Heds & _).
    rewrite Hdoc, Heds, Hed, orb_true_r.
    destruct (i =? _nextDocumentId s) eqn:Ei; [|auto].
    apply N.eqb_eq in Ei. subst i. unfold allocated in Hal. nb.
  - destruct (updateDocument j b (tx_context t) s) as [r|[u s']] eqn:E;
      [auto|].
    rewrite (owner_updateDocument _ _ _ _ _ _ E).
    apply updateDocument_inv in E.
    destruct E as (_ & _ & _ & _ & _ & _ & -> & _). auto.
  - destruct (allowEditor j e (tx_context t) s) as [r|[u s']] eqn:E;
      [auto|].
    apply allowEditor_inv in E.
    destruct E as (_ & _ & _ & _ & -> & _ & Heds & _).
    rewrite Heds, Hed, orb_true_r. auto.
Qed.

Lemma run_keeps_editor dep ts i a :
  forall s, Consistent s ->
  isEditor i a s = inr true ->
  isEditor i a (run dep s ts) = inr true.
Proof.
  induction ts as [|t ts IH]; intros s C H; cbn; [assumption|].
  apply IH; [apply consistent_step, C|apply step_keeps_editor; assumption].
Qed.

Lemma getDocument_owner i s n b k o le ca ua :
  getDocument i s = inr (n, b, k, o, le, ca, ua) ->
  o = owner (_documents s i) /\ o <> address0.
Proof.
  unfold getDocument, viewOnlyExisting.
  destruct (N.eqb_spec (owner (_documents s i)) address0) as [E|E]; cbn;
    [discriminate|].
  intros H. injection H as <- <- <- <- <- <- <-. auto.
Qed.


(** ** The repository's tests, replayed *)

(** "creates a document with encrypted key and tracks ownership" *)
Example test_create_tracks_ownership :
  createdIds Scenario.deployment initial [Scenario.createFirstDoc] = [1] /\
  getDocumentsByOwner Scenario.ownerSigner Scenario.created = [1] /\
  getDocumentsForEditor Scenario.ownerSigner Scenario.created = [1] /\
  getDocument 1 Scenario.created =
    inr ("First Doc", "", 0x1234, Scenario.ownerSigner, Scenario.ownerSigner,
         1700000000, 1700000000) /\
  acl Scenario.created 0x1234 Scenario.ownerSigner = true /\
  acl Scenario.created 0x1234 Scenario.registryAddress = true.
Proof. repeat split; vm_compute; reflexivity. Qed.

(** "lets owner update encrypted body" *)
Example test_owner_updates_body :
  let s := run Scenario.deployment Scenario.created
             [mkTransaction (Scenario.asOwner 1700000010)
                            (UpdateDocument 1 "ciphertext")] in
  getDocument 1 s =
    inr ("First Doc", "ciphertext", 0x1234, Scenario.ownerSigner,
         Scenario.ownerSigner, 1700000000, 1700000010) /\
  last (events s) (EditorAllowed 0 0) =
    DocumentUpdated 1 Scenario.ownerSigner "ciphertext".
Proof. split; vm_compute; reflexivity. Qed.

(** "allows owner to share editing rights and editor can update" *)
Example test_editor_can_update :
  isEditor 1 Scenario.editorSigner Scenario.shared = inr true /\
  getDocumentsForEditor Scenario.editorSigner Scenario.shared = [1] /\
  getDocument 1 (run Scenario.deployment Scenario.shared [Scenario.editorUpdates]) =
    inr ("First Doc", "updated-by-editor", 0x1234, Scenario.ownerSigner,
         Scenario.editorSigner, 1700000000, 1700000200).
Proof. repeat split; vm_compute; reflexivity. Qed.

(** "blocks non-editors from updating documents" *)
Example test_non_editor_is_blocked :
  updateDocument 1 "nope" (Scenario.asEditor 1700000010) Scenario.created
  = inl (Error "Not authorized").
Proof. vm_compute. reflexivity. Qed.

(** A call made in the name of [address(0)], which no transaction is,
    would leave a record that the contract itself reports as missing. *)
Remark document_of_null_sender_is_missing :
  match createDocument Scenario.deployment "Orphan" 0x01 [x01]
          (mkContext address0 1700000000) initial with
  | inr (documentId, s') =>
      documentId = 1 /\
      getDocument documentId s' = inl (Error "Document does not exist")
  | inl _ => False
  end.
Proof. vm_compute. split; reflexivity. Qed.


(** ** Claims about authorization *)

(** C1.  Authorization is monotone.  In every state reached by a sequence
    of createDocument / updateDocument / allowEditor calls, the owner that
    [getDocument] reports for a document is one of its editors, and an
    identity for which [isEditor] answers true keeps that answer in every
    later state, whatever calls follow. *)
Theorem authorization_monotone dep (ts later : list Transaction) (i : uint256) :
  let s := run dep initial ts in
  (forall n b k o le ca ua,
      getDocument i s = inr (n, b, k, o, le, ca, ua) ->
      isEditor i o s = inr true) /\
  (forall a,
      isEditor i a s = inr true ->
      isEditor i a (run dep s later) = inr true).
Proof.
  intros s.
  assert (C : Consistent s) by apply consistent_reachable.
  split.
  - intros n b k o le ca ua H.
    apply getDocument_owner in H as [-> Hex].
    apply isEditor_true. split; [assumption|].
    apply (owner_is_editor C), allocated_exists_consistent; assumption.
  - intros a H. apply run_keeps_editor; assumption.
Qed.

Lemma authorization_monotone_witness :
  isEditor 1 Scenario.editorSigner Scenario.shared = inr true /\
  isEditor 1 Scenario.editorSigner
    (run Scenario.deployment Scenario.shared [Scenario.editorUpdates; Scenario.createDraft])
  = inr true.
Proof.
  split; [vm_compute; reflexivity|].
  apply (authorization_monotone Scenario.deployment
           [Scenario.createFirstDoc; Scenario.shareWithEditor]
           [Scenario.editorUpdates; Scenario.createDraft] 1).
  vm_compute. reflexivity.
Defined.


(** ** Allocation of ids *)

Lemma execute_next dep t s :
  match execute dep t s with
  | inl _ => True
  | inr (Some documentId, s') =>
      documentId = _nextDocumentId s /\
      _nextDocumentId s' = _nextDocumentId s + 1
  | inr (None, s') => _nextDocumentId s' = _nextDocumentId s
  end.
Proof.
  unfold execute. destruct (tx_call t) as [n k p|i b|i e].
  - destruct (createDocument dep n k p (tx_context t) s) as [r|[d s']] eqn:E;
      [exact I|].
    apply createDocument_inv in E.
    destruct E as (_ & -> & _ & h & _ & Hnext & _). auto.
  - destruct (updateDocument i b (tx_context t) s) as [r|[u s']] eqn:E;
      [exact I|].
    apply updateDocument_inv in E. now destruct E as (_ & _ & Hnext & _).
  - destruct (allowEditor i e (tx_context t) s) as [r|[u s']] eqn:E;
      [exact I|].
    apply allowEditor_inv in E. now destruct E as (_ & _ & _ & Hnext & _).
Qed.

Lemma createdIds_range dep ts :
  forall s,
    _nextDocumentId s <= _nextDocumentId (run dep s ts) /\
    (forall i, In i (createdIds dep s ts) <->
               _nextDocumentId s <= i < _nextDocumentId (run dep s ts)) /\
    StronglySorted N.lt (createdIds dep s ts) /\
    (forall i rest, createdIds dep s ts = i :: rest -> i = _nextDocumentId s).
Proof.
  induction ts as [|t ts IH]; intros s.
  - cbn. repeat split; try lia; try constructor; try contradiction; discriminate.
  - change (run dep s (t :: ts)) with (run dep (step dep s t) ts).
    cbn [createdIds].
    pose proof (execute_next dep t s) as Hx. unfold step.
    destruct (execute dep t s) as [r|[[d|] s']].
    + apply IH.
    + destruct Hx as [-> Hn].
      destruct (IH s') as (Hle & Hin & Hs & Hhd). rewrite Hn in *.
      split; [lia|]. split; [|split].
      * intros i. split.
        -- intros [<-|Hi]; [lia|]. apply Hin in Hi. lia.
        -- intros [H1 H2].
           destruct (N.eq_dec (_nextDocumentId s) i); [now left|right].
           apply Hin. lia.
      * constructor; [assumption|].
        apply Forall_forall. intros x Hx. apply Hin in Hx. lia.
      * intros i rest Hi. now injection Hi as <- _.
    + specialize (IH s'). rewrite Hx in IH. exact IH.
Qed.

Lemma step_allocated dep s t i :
  allocated s i = true -> allocated (step dep s t) i = true.
Proof.
  unfold allocated, step. pose proof (execute_next dep t s) as Hx.
  destruct (execute dep t s) as [r|[[d|] s']]; [auto| |].
  - destruct Hx as [_ ->]. intros H. nb.
  - now rewrite Hx.
Qed.

Lemma step_identity dep s t i :
  allocated s i = true ->
  identityOf (_documents (step dep s t) i) = identityOf (_documents s i).
Proof.
  intros Hal. unfold step, execute.
  destruct (tx_call t) as [n k p|j b|j e].
  - destruct (createDocument dep n k p (tx_context t) s) as [r|[d s']] eqn:E;
      [reflexivity|].
    apply createDocument_inv in E.
    destruct E as (_ & -> & _ & h & _ & _ & Hdoc & _).
    rewrite Hdoc. destruct (i =? _nextDocumentId s) eqn:Ei; [|reflexivity].
    apply N.eqb_eq in Ei. subst i. unfold allocated in Hal. nb.
  - destruct (updateDocument j b (tx_context t) s) as [r|[u s']] eqn:E;
      [reflexivity|].
    apply updateDocument_inv in E.
    destruct E as (_ & _ & _ & Hdoc & _). rewrite Hdoc.
    destruct (i =? j); reflexivity.
  - destruct (allowEditor j e (tx_context t) s) as [r|[u s']] eqn:E;
      [reflexivity|].
    apply allowEditor_inv in E.
    destruct E as (_ & _ & _ & _ & -> & _). reflexivity.
Qed.

Lemma run_identity dep ts i :
  forall s, allocated s i = true ->
  identityOf (_documents (run dep s ts) i) = identityOf (_documents s i).
Proof.
  induction ts as [|t ts IH]; intros s Hal; [reflexivity|].
  change (run dep s (t :: ts)) with (run dep (step dep s t) ts).
  rewrite IH by (apply step_allocated, Hal). apply step_identity, Hal.
Qed.


Lemma StronglySorted_lt_NoDup (l : list N) : StronglySorted N.lt l -> NoDup l.
Proof.
  induction 1 as [|x l Hs IH Hall]; constructor; [|assumption].
  intros Hin. rewrite Forall_forall in Hall. specialize (Hall _ Hin). lia.
Qed.

(** C8.  Document ids are allocated monotonically.  Over any run from
    deployment, the first successful createDocument returns 1, the ids
    returned are strictly increasing in call order (each is greater than
    every id returned before it), none occurs twice, they are exactly the
    allocated ids, and the record stored under a returned id keeps the
    name, key handle, owner and creation time it was created with,
    whatever calls follow. *)
Theorem document_ids_monotone dep (ts later : list Transaction) :
  let s := run dep initial ts in
  let ids := createdIds dep initial ts in
  (forall i rest, ids = i :: rest -> i = 1) /\
  StronglySorted N.lt ids /\
  NoDup ids /\
  (forall i, In i ids <-> allocated s i = true) /\
  (forall i, In i ids ->
     identityOf (_documents (run dep s later) i) = identityOf (_documents s i)).
Proof.
  intros s ids.
  destruct (createdIds_range dep ts initial) as (Hle & Hin & Hs & Hhd).
  fold s ids in Hle, Hin, Hs, Hhd. cbn [_nextDocumentId initial] in *.
  assert (Hal : forall i, In i ids <-> allocated s i = true).
  { intros i. rewrite Hin. unfold allocated.
    rewrite andb_true_iff, N.leb_le, N.ltb_lt. reflexivity. }
  repeat split.
  - exact Hhd.
  - exact Hs.
  - apply StronglySorted_lt_NoDup, Hs.
  - apply Hal.
  - apply Hal.
  - intros i Hi. apply run_identity, Hal, Hi.
Qed.

Lemma document_ids_monotone_witness :
  createdIds Scenario.deployment initial
    [Scenario.createFirstDoc; Scenario.shareWithEditor; Scenario.createDraft]
  = [1; 2] /\
  identityOf (_documents
    (run Scenario.deployment
       (run Scenario.deployment initial
          [Scenario.createFirstDoc; Scenario.shareWithEditor; Scenario.createDraft])
       [Scenario.editorUpdates]) 1)
  = ("First Doc", 0x1234, Scenario.ownerSigner, 1700000000).
Proof.
  split; [vm_compute; reflexivity|].
  destruct (document_ids_monotone Scenario.deployment
              [Scenario.createFirstDoc; Scenario.shareWithEditor; Scenario.createDraft]
              [Scenario.editorUpdates]) as (_ & _ & _ & _ & H).
  rewrite (H 1); vm_compute; [reflexivity|now left].
Defined.


(** ** The two indices *)

Lemma allocatedExist_initial : AllocatedExist initial.
Proof.
  intros i H. unfold allocated in H. cbn in H. nb.
Qed.

Lemma allocatedExist_step dep s t :
  signed t -> AllocatedExist s -> AllocatedExist (step dep s t).
Proof.
  intros Hsig A i. unfold step, execute.
  destruct (tx_call t) as [n k p|j b|j e].
  - destruct (createDocument dep n k p (tx_context t) s) as [r|[d s']] eqn:E;
      [apply A|].
    apply createDocument_inv in E.
    destruct E as (_ & -> & _ & h & _ & Hnext & Hdoc & _).
    unfold allocated. rewrite Hnext, Hdoc. intros Hi.
    destruct (i =? _nextDocumentId s) eqn:Ei; [exact Hsig|].
    apply A. unfold allocated. nb.
  - destruct (updateDocument j b (tx_context t) s) as [r|[u s']] eqn:E;
      [apply A|].
    rewrite (allocated_updateDocument _ _ _ _ _ _ E),
            (owner_updateDocument _ _ _ _ _ _ E). apply A.
  - destruct (allowEditor j e (tx_context t) s) as [r|[u s']] eqn:E;
      [apply A|].
    apply allowEditor_inv in E.
    destruct E as (_ & _ & _ & Hnext & -> & _).
    unfold allocated. rewrite Hnext. apply A.
Qed.

Lemma allocatedExist_run dep ts :
  forall s, Forall signed ts -> AllocatedExist s -> AllocatedExist (run dep s ts).
Proof.
  induction ts as [|t ts IH]; intros s Hsig A; [assumption|].
  inversion Hsig as [|? ? Ht Hts]; subst.
  change (run dep s (t :: ts)) with (run dep (step dep s t) ts).
  apply IH; [assumption|]. now apply allocatedExist_step.
Qed.

Lemma editedExist_initial : EditedExist initial.
Proof. intros i a _ H. discriminate. Qed.

Lemma editedExist_step dep s t :
  Consistent s -> EditedExist s -> EditedExist (step dep s t).
Proof.
  intros C A i a Ha. unfold step, execute.
  destruct (tx_call t) as [n k p|j b|j e].
  - destruct (createDocument dep n k p (tx_context t) s) as [r|[d s']] eqn:E;
      [now apply A|].
    apply createDocument_inv in E.
    destruct E as (_ & -> & Hmax & h & _ & _ & Hdoc & _ & Hed & _).
    rewrite Hed, Hdoc.
    destruct (i =? _nextDocumentId s) eqn:Ei; cbn; [|now apply A].
    apply N.eqb_eq in Ei. subst i.
    rewrite (unallocated_editors C (_nextDocumentId s) a), orb_false_r
      by (unfold allocated; nb).
    intros Hc. apply N.eqb_eq in Hc. now subst a.
  - destruct (updateDocument j b (tx_context t) s) as [r|[u s']] eqn:E;
      [now apply A|].
    rewrite (owner_updateDocument _ _ _ _ _ _ E).
    apply updateDocument_inv in E.
    destruct E as (_ & _ & _ & _ & _ & _ & -> & _). now apply A.
  - destruct (allowEditor j e (tx_context t) s) as [r|[u s']] eqn:E;
      [now apply A|].
    apply allowEditor_inv in E.
    destruct E as (Hex & _ & _ & _ & -> & _ & Hed & _).
    rewrite Hed. destruct (i =? j) eqn:Ei; cbn.
    + apply N.eqb_eq in Ei. now subst i.
    + now apply A.
Qed.

Lemma editedExist_reachable dep ts : EditedExist (run dep initial ts).
Proof.
  assert (H : forall s, Consistent s -> EditedExist s ->
                        EditedExist (run dep s ts)).
  { induction ts as [|t ts IH]; intros s C A; [assumption|].
    change (run dep s (t :: ts)) with (run dep (step dep s t) ts).
    apply IH; [now apply consistent_step|now apply editedExist_step]. }
  apply H; [apply consistent_initial|apply editedExist_initial].
Qed.

Lemma step_indices_grow dep s t a :
  (exists l, _documentsByOwner (step dep s t) a = _documentsByOwner s a ++ l) /\
  (exists l, _documentsByEditor (step dep s t) a = _documentsByEditor s a ++ l).
Proof.
  assert (Hnil : forall l : list uint256, exists l', l = l ++ l')
    by (intros l; exists []; now rewrite app_nil_r).
  unfold step, execute.
  destruct (tx_call t) as [n k p|j b|j e].
  - destruct (createDocument dep n k p (tx_context t) s) as [r|[d s']] eqn:E;
      [split; apply Hnil|].
    apply createDocument_inv in E.
    destruct E as (_ & -> & _ & h & _ & _ & _ & Hbo & _ & Hbe & _).
    rewrite Hbo, Hbe. split.
    + destruct (a =? msg_sender (tx_context t)); eauto.
    + destruct ((a =? msg_sender (tx_context t)) && _); eauto.
  - destruct (updateDocument j b (tx_context t) s) as [r|[u s']] eqn:E;
      [split; apply Hnil|].
    apply updateDocument_inv in E.
    destruct E as (_ & _ & _ & _ & -> & -> & _). split; apply Hnil.
  - destruct (allowEditor j e (tx_context t) s) as [r|[u s']] eqn:E;
      [split; apply Hnil|].
    apply allowEditor_inv in E.
    destruct E as (_ & _ & _ & _ & _ & -> & _ & Hbe & _).
    rewrite Hbe. split; [apply Hnil|].
    destruct ((a =? e) && _); eauto.
Qed.

Lemma run_indices_grow dep ts a :
  forall s,
  (exists l, _documentsByOwner (run dep s ts) a = _documentsByOwner s a ++ l) /\
  (exists l, _documentsByEditor (run dep s ts) a = _documentsByEditor s a ++ l).
Proof.
  induction ts as [|t ts IH]; intros s.
  - split; exists []; cbn; now rewrite app_nil_r.
  - change (run dep s (t :: ts)) with (run dep (step dep s t) ts).
    destruct (IH (step dep s t)) as [[l1 H1] [l2 H2]].
    destruct (step_indices_grow dep s t a) as [[m1 G1] [m2 G2]].
    rewrite H1, H2, G1, G2, <- !app_assoc. eauto.
Qed.

Lemma count_occ_one_NoDup (l : list N) :
  (forall i, (count_occ N.eq_dec l i <= 1)%nat) -> NoDup l.
Proof. intros H. apply (NoDup_count_occ N.eq_dec), H. Qed.

(** C10.  Index consistency.  Take a state reached by any run from
    deployment and an identity a; a is any identity but the null one, or
    any identity at all when every transaction of the run was signed.
    Then each id listed by getDocumentsByOwner(a) is an existing document
    whose owner is a, each id listed by getDocumentsForEditor(a) has
    isEditor(id, a) = true, neither list repeats an id, and whatever calls
    follow only append to the two lists. *)
Theorem index_consistency dep (ts later : list Transaction) (a : address) :
  a <> address0 \/ Forall signed ts ->
  let s := run dep initial ts in
  (forall i, In i (getDocumentsByOwner a s) ->
     exists n b k le ca ua, getDocument i s = inr (n, b, k, a, le, ca, ua)) /\
  (forall i, In i (getDocumentsForEditor a s) -> isEditor i a s = inr true) /\
  NoDup (getDocumentsByOwner a s) /\
  NoDup (getDocumentsForEditor a s) /\
  (exists l, getDocumentsByOwner a (run dep s later) =
             getDocumentsByOwner a s ++ l) /\
  (exists l, getDocumentsForEditor a (run dep s later) =
             getDocumentsForEditor a s ++ l).
Proof.
  intros Hsig s.
  assert (C : Consistent s) by apply consistent_reachable.
  assert (E : EditedExist s) by apply editedExist_reachable.
  assert (A : forall i, allocated s i = true ->
                        owner (_documents s i) = a \/ _editors s i a = true ->
                        owner (_documents s i) <> address0).
  { intros i Hal Hi. destruct Hsig as [Ha|Hsig].
    - destruct Hi as [Ho|He]; [congruence|now apply (E i a)].
    - apply (allocatedExist_run dep ts initial Hsig allocatedExist_initial i Hal). }
  unfold getDocumentsByOwner, getDocumentsForEditor.
  split; [|split; [|split; [|split]]].
  - intros i Hi.
    apply (count_occ_In N.eq_dec) in Hi. rewrite (owner_index C) in Hi.
    destruct (allocated s i) eqn:Hal; [|cbn in Hi; lia].
    destruct (N.eqb_spec (owner (_documents s i)) a) as [Ho|Ho];
      [|cbn in Hi; lia].
    specialize (A _ Hal (or_introl Ho)).
    unfold getDocument, viewOnlyExisting.
    apply N.eqb_neq in A. rewrite A. cbn. rewrite Ho. eauto 7.
  - intros i Hi.
    apply (count_occ_In N.eq_dec) in Hi. rewrite (editor_index C) in Hi.
    destruct (_editors s i a) eqn:He; [|lia].
    apply isEditor_true. split; [|assumption].
    apply A; [|now right]. destruct (allocated s i) eqn:Hal; [reflexivity|].
    rewrite (unallocated_editors C _ _ Hal) in He. discriminate.
  - apply count_occ_one_NoDup. intros i. rewrite (owner_index C).
    destruct (_ && _); lia.
  - apply count_occ_one_NoDup. intros i. rewrite (editor_index C).
    destruct (_editors s i a); lia.
  - apply run_indices_grow.
Qed.

Lemma index_consistency_witness :
  getDocumentsForEditor Scenario.editorSigner
    (run Scenario.deployment initial
       [Scenario.createFirstDoc; Scenario.createDraft; Scenario.shareWithEditor])
  = [2; 1] /\
  isEditor 1 Scenario.editorSigner
    (run Scenario.deployment initial
       [Scenario.createFirstDoc; Scenario.createDraft; Scenario.shareWithEditor])
  = inr true.
Proof.
  split; [vm_compute; reflexivity|].
  assert (Hsig : Forall signed
            [Scenario.createFirstDoc; Scenario.createDraft; Scenario.shareWithEditor])
    by (repeat constructor; vm_compute; discriminate).
  destruct (index_consistency Scenario.deployment _ [] Scenario.editorSigner
              (or_intror Hsig))
    as (_ & H & _).
  apply H. vm_compute. right. now left.
Defined.


(** ** Claims about the three calls *)

Lemma isEditor_false i a s :
  isEditor i a s = inr false <->
  owner (_documents s i) <> address0 /\ _editors s i a = false.
Proof.
  unfold isEditor, viewOnlyExisting.
  destruct (N.eqb_spec (owner (_documents s i)) address0) as [E|E]; cbn.
  - split; [discriminate|]. intros [H _]. now elim H.
  - split; [intros H; injection H as H; auto|intros [_ ->]; reflexivity].
Qed.

Lemma getDocument_fails i s r :
  getDocument i s = inl r -> owner (_documents s i) = address0.
Proof.
  unfold getDocument, viewOnlyExisting.
  destruct (N.eqb_spec (owner (_documents s i)) address0) as [E|E]; cbn;
    [auto|discriminate].
Qed.

(** C2.  updateDocument.  It reverts with "Document does not exist"
    (NotFound) when getDocument finds no document under the id, and with
    "Not authorized" (NotAuthorized) when the document exists and isEditor
    answers false for the caller; a call that reverts leaves the state as it
    was, so encryptedBody and updatedAt are unchanged.  When the caller is
    an editor the call succeeds, and getDocument then returns the new body
    exactly as passed, lastEditor = caller and updatedAt = block.timestamp,
    the other fields being those of before. *)
Theorem updateDocument_correct dep (i : uint256) (b : string) (c : Context)
    (s : State) :
  (forall r0, getDocument i s = inl r0 ->
     updateDocument i b c s = inl (Error "Document does not exist") /\
     errorKind (Error "Document does not exist") = NotFound) /\
  (isEditor i (msg_sender c) s = inr false ->
     updateDocument i b c s = inl (Error "Not authorized") /\
     errorKind (Error "Not authorized") = NotAuthorized) /\
  (forall r, updateDocument i b c s = inl r ->
     step dep s (mkTransaction c (UpdateDocument i b)) = s) /\
  (isEditor i (msg_sender c) s = inr true ->
     exists s', updateDocument i b c s = inr (tt, s') /\
       forall n b0 k o le ca ua,
         getDocument i s = inr (n, b0, k, o, le, ca, ua) ->
         getDocument i s' = inr (n, b, k, o, msg_sender c, ca, block_timestamp c)).
Proof.
  split; [|split; [|split]].
  - intros r0 H. apply getDocument_fails in H.
    split; [apply updateDocument_not_found, H|reflexivity].
  - intros H. apply isEditor_false in H as [Hex He].
    split; [apply updateDocument_not_authorized; eassumption|reflexivity].
  - intros r H. unfold step, execute. cbn. now rewrite H.
  - intros H. apply isEditor_true in H as [Hex He].
    destruct (updateDocument_succeeds i b c s Hex He) as [s' Hs'].
    exists s'. split; [assumption|].
    apply updateDocument_inv in Hs'.
    destruct Hs' as (_ & _ & _ & Hdoc & _).
    intros n b0 k o le ca ua. unfold getDocument, viewOnlyExisting.
    rewrite Hdoc, N.eqb_refl. cbn.
    destruct (owner (_documents s i) =? address0); cbn; [discriminate|].
    intros G. injection G as <- <- <- <- <- <- <-. reflexivity.
Qed.

Lemma updateDocument_correct_witness :
  getDocument 1
    (run Scenario.deployment Scenario.shared [Scenario.editorUpdates])
  = inr ("First Doc", "updated-by-editor", 0x1234, Scenario.ownerSigner,
         Scenario.editorSigner, 1700000000, 1700000200).
Proof.
  destruct (updateDocument_correct Scenario.deployment 1 "updated-by-editor"
              (Scenario.asEditor 1700000200) Scenario.shared)
    as (_ & _ & _ & H).
  destruct H as [s' [Hs' Hget]]; [vm_compute; reflexivity|].
  unfold run, fold_left, step, execute, Scenario.editorUpdates. cbn [tx_call tx_context].
  rewrite Hs'. eapply Hget. vm_compute. reflexivity.
Defined.


(** C3.  createDocument.  When a call by a signing caller succeeds, the
    name was non-empty and getDocument on the returned id gives that name,
    an empty body, owner = lastEditor = caller and
    createdAt = updatedAt = block.timestamp.  With an empty name the call
    reverts with "Name required" (InvalidArgument) and the state, hence the
    set of documents, is what it was. *)
Theorem createDocument_correct dep (n : string) (k : externalEuint256)
    (p : bytes) (c : Context) (s : State) :
  (forall documentId s',
     createDocument dep n k p c s = inr (documentId, s') ->
     msg_sender c <> address0 ->
     n <> "" /\
     exists storedKey,
       verifyInput dep (msg_sender c) k p = Some storedKey /\
       getDocument documentId s' =
       inr (n, "", storedKey, msg_sender c, msg_sender c,
            block_timestamp c, block_timestamp c)) /\
  createDocument dep "" k p c s = inl (Error "Name required") /\
  errorKind (Error "Name required") = InvalidArgument /\
  step dep s (mkTransaction c (CreateDocument "" k p)) = s.
Proof.
  split; [|split].
  - intros documentId s' H Hsig.
    apply createDocument_inv in H.
    destruct H as (Hn & -> & _ & h & Hv & _ & Hdoc & _).
    split; [assumption|]. exists h. split; [assumption|].
    unfold getDocument, viewOnlyExisting.
    rewrite Hdoc, N.eqb_refl. cbn.
    apply N.eqb_neq in Hsig. now rewrite Hsig.
  - reflexivity.
  - split; reflexivity.
Qed.

Lemma createDocument_correct_witness :
  match createDocument Scenario.deployment "First Doc" 0x1234 [x01]
          (Scenario.asOwner 1700000000) initial with
  | inr (documentId, s') =>
      getDocument documentId s' =
      inr ("First Doc", "", 0x1234, Scenario.ownerSigner, Scenario.ownerSigner,
           1700000000, 1700000000)
  | inl _ => False
  end.
Proof.
  destruct (createDocument Scenario.deployment "First Doc" 0x1234 [x01]
              (Scenario.asOwner 1700000000) initial) as [r|[documentId s']] eqn:E.
  - vm_compute in E. discriminate.
  - destruct (createDocument_correct Scenario.deployment "First Doc" 0x1234 [x01]
                (Scenario.asOwner 1700000000) initial) as (H & _).
    destruct (H documentId s' E) as (_ & key & Hv & Hget);
      [vm_compute; discriminate|].
    rewrite Hget. vm_compute in Hv. injection Hv as <-. reflexivity.
Defined.


(** C4, as the code has it.  allowEditor is idempotent for every identity
    but the null one.  In a reachable state, for a document with owner o
    and a non-null identity e, allowEditor(id, e) called twice as o
    succeeds both times; the second call changes neither the editor
    mapping, nor what isEditor answers, nor any list returned by
    getDocumentsForEditor, and getDocumentsForEditor(e) holds the id exactly
    once. *)
Theorem allowEditor_idempotent dep (ts : list Transaction) (i : uint256)
    (e : address) (c c' : Context) n b k o le ca ua :
  let s := run dep initial ts in
  getDocument i s = inr (n, b, k, o, le, ca, ua) ->
  msg_sender c = o ->
  msg_sender c' = o ->
  e <> address0 ->
  exists s1 s2,
    allowEditor i e c s = inr (tt, s1) /\
    allowEditor i e c' s1 = inr (tt, s2) /\
    (forall j a, _editors s2 j a = _editors s1 j a) /\
    (forall a, isEditor i a s2 = isEditor i a s1) /\
    (forall a, getDocumentsForEditor a s2 = getDocumentsForEditor a s1) /\
    count_occ N.eq_dec (getDocumentsForEditor e s2) i = 1%nat.
Proof.
  intros s Hget Hc Hc' He.
  apply getDocument_owner in Hget as [-> Hex].
  assert (C : Consistent s) by apply consistent_reachable.
  destruct (allowEditor_succeeds i e c s Hex He (eq_sym Hc)) as [s1 H1].
  assert (C1 : Consistent s1) by (eapply consistent_allowEditor; eauto).
  pose proof H1 as I1. apply allowEditor_inv in I1.
  destruct I1 as (_ & _ & _ & _ & Hdoc1 & _ & Hed1 & _).
  assert (Hex1 : owner (_documents s1 i) <> address0) by now rewrite Hdoc1.
  assert (Ho1 : owner (_documents s1 i) = msg_sender c')
    by (rewrite Hdoc1; congruence).
  destruct (allowEditor_succeeds i e c' s1 Hex1 He Ho1) as [s2 H2].
  pose proof H2 as I2. apply allowEditor_inv in I2.
  destruct I2 as (_ & _ & _ & _ & Hdoc2 & _ & Hed2 & Hbe2 & _).
  assert (Hie : _editors s1 i e = true)
    by (rewrite Hed1, !N.eqb_refl; reflexivity).
  assert (Heds : forall j a, _editors s2 j a = _editors s1 j a).
  { intros j a. rewrite Hed2.
    destruct (j =? i) eqn:Ej; [|reflexivity].
    destruct (a =? e) eqn:Ea; [|reflexivity].
    apply N.eqb_eq in Ej, Ea. subst. now rewrite Hie. }
  assert (Hidx : forall a, _documentsByEditor s2 a = _documentsByEditor s1 a).
  { intros a. rewrite Hbe2, Hie. cbn. now rewrite andb_false_r. }
  exists s1, s2. repeat split; auto.
  - intros a. unfold isEditor, viewOnlyExisting. now rewrite Hdoc2, Heds.
  - unfold getDocumentsForEditor. rewrite Hidx, (editor_index C1), Hie.
    reflexivity.
Qed.

Lemma allowEditor_idempotent_witness :
  exists s1 s2,
    allowEditor 1 Scenario.editorSigner (Scenario.asOwner 1700000100)
      Scenario.created = inr (tt, s1) /\
    allowEditor 1 Scenario.editorSigner (Scenario.asOwner 1700000101) s1
      = inr (tt, s2) /\
    getDocumentsForEditor Scenario.editorSigner s2
      = getDocumentsForEditor Scenario.editorSigner s1 /\
    count_occ N.eq_dec (getDocumentsForEditor Scenario.editorSigner s2) 1 = 1%nat.
Proof.
  destruct (allowEditor_idempotent Scenario.deployment [Scenario.createFirstDoc]
              1 Scenario.editorSigner
              (Scenario.asOwner 1700000100) (Scenario.asOwner 1700000101)
              "First Doc" "" 0x1234 Scenario.ownerSigner Scenario.ownerSigner
              1700000000 1700000000)
    as (s1 & s2 & H1 & H2 & _ & _ & H3 & H4).
  - vm_compute. reflexivity.
  - reflexivity.
  - reflexivity.
  - vm_compute. discriminate.
  - exists s1, s2. repeat split; auto.
Defined.

(** C4, as stated, fails for the null identity: the owner's grant to
    [address(0)] is refused, the first time and again the second time, and
    the index of [address(0)] does not hold the id. *)
Lemma allowEditor_null_identity_refused :
  getDocument 1 Scenario.created =
    inr ("First Doc", "", 0x1234, Scenario.ownerSigner, Scenario.ownerSigner,
         1700000000, 1700000000) /\
  allowEditor 1 address0 (Scenario.asOwner 1700000100) Scenario.created
    = inl (Error "Invalid editor") /\
  allowEditor 1 address0 (Scenario.asOwner 1700000101)
    (step Scenario.deployment Scenario.created
       (mkTransaction (Scenario.asOwner 1700000100) (AllowEditor 1 address0)))
    = inl (Error "Invalid editor") /\
  count_occ N.eq_dec (getDocumentsForEditor address0 Scenario.created) 1 = 0%nat.
Proof.
  repeat split; vm_compute; reflexivity.
Qed.

(** C5, as the code has it.  allowEditor checks, in this order, that the
    document exists, that the editor is not the null identity, and that
    the caller is the owner.  It reverts with "Document does not exist"
    (NotFound) when getDocument finds no document; with "Invalid editor"
    (InvalidArgument) when the document exists and the editor is
    address(0), whoever calls; and with "Only owner can allow"
    (NotAuthorized) when the document exists, the editor is non-null and
    the caller is not the owner getDocument reports.  A call that reverts
    leaves the state, hence every editor set, as it was. *)
Theorem allowEditor_failures dep (i : uint256) (e : address) (c : Context)
    (s : State) :
  (forall r0, getDocument i s = inl r0 ->
     allowEditor i e c s = inl (Error "Document does not exist") /\
     errorKind (Error "Document does not exist") = NotFound) /\
  (forall n b k o le ca ua,
     getDocument i s = inr (n, b, k, o, le, ca, ua) ->
     e = address0 ->
     allowEditor i e c s = inl (Error "Invalid editor") /\
     errorKind (Error "Invalid editor") = InvalidArgument) /\
  (forall n b k o le ca ua,
     getDocument i s = inr (n, b, k, o, le, ca, ua) ->
     e <> address0 ->
     msg_sender c <> o ->
     allowEditor i e c s = inl (Error "Only owner can allow") /\
     errorKind (Error "Only owner can allow") = NotAuthorized) /\
  (forall r, allowEditor i e c s = inl r ->
     step dep s (mkTransaction c (AllowEditor i e)) = s).
Proof.
  split; [|split; [|split]].
  - intros r0 H. apply getDocument_fails in H.
    split; [apply allowEditor_not_found, H|reflexivity].
  - intros n b k o le ca ua H ->. apply getDocument_owner in H as [-> Hex].
    split; [apply allowEditor_invalid_editor, Hex|reflexivity].
  - intros n b k o le ca ua H He Hc. apply getDocument_owner in H as [-> Hex].
    split; [apply allowEditor_only_owner; auto|reflexivity].
  - intros r H. unfold step, execute. cbn. now rewrite H.
Qed.

Lemma allowEditor_failures_witness :
  allowEditor 1 Scenario.ownerSigner (Scenario.asEditor 1700000300)
    Scenario.created = inl (Error "Only owner can allow") /\
  step Scenario.deployment Scenario.created
    (mkTransaction (Scenario.asEditor 1700000300)
                   (AllowEditor 1 Scenario.ownerSigner))
  = Scenario.created.
Proof.
  destruct (allowEditor_failures Scenario.deployment 1 Scenario.ownerSigner
              (Scenario.asEditor 1700000300) Scenario.created)
    as (_ & _ & _ & H).
  split; [vm_compute; reflexivity|].
  eapply H. vm_compute. reflexivity.
Defined.

(** C5, as stated, fails where the caller is not the owner and the editor
    is the null identity: the claim's NotAuthorized is not what the
    contract answers, because the editor is checked first. *)
Lemma allowEditor_null_editor_by_stranger :
  getDocument 1 Scenario.created =
    inr ("First Doc", "", 0x1234, Scenario.ownerSigner, Scenario.ownerSigner,
         1700000000, 1700000000) /\
  msg_sender (Scenario.asEditor 1700000300) <> Scenario.ownerSigner /\
  allowEditor 1 address0 (Scenario.asEditor 1700000300) Scenario.created
    = inl (Error "Invalid editor") /\
  errorKind (Error "Invalid editor") <> NotAuthorized.
Proof.
  repeat split; vm_compute; try reflexivity; discriminate.
Qed.


End RegistryFacts.

(* ===================================================================== *)
(** * Part V.  Properties of the codec                                    *)
(* ===================================================================== *)

Module CodecFacts.

Import Codec.
Local Open Scope string_scope.
Local Open Scope list_scope.
Local Open Scope N_scope.

Ltac divlia := zify; Z.to_euclidean_division_equations; lia.

(** ** The codec on concrete inputs *)

Example hexToBytes_examples :
  hexToBytes "0x1234" = [x12; x34] /\
  hexToBytes "1234" = [x12; x34] /\
  hexToBytes "0xabc" = [xab] /\
  hexToBytes "0xzz-f" = [x00; xf1] /\
  hexToBytes "0XAB" = [x00; xab].
Proof. repeat split; vm_compute; reflexivity. Qed.

Example base64_examples :
  bytesToBase64 [x00; x01; x02] = "AAEC" /\
  bytesToBase64 [xff; xfe] = "//4=" /\
  base64ToBytes "//4=" = inr [xff; xfe] /\
  base64ToBytes " / / 4 " = inr [xff; xfe] /\
  base64ToBytes "A" = inl InvalidCharacterError /\
  base64ToBytes "AA*A" = inl InvalidCharacterError.
Proof. repeat split; vm_compute; reflexivity. Qed.

(** ** Base64 *)

Lemma string_ind3 (Q : string -> Prop) :
  Q "" ->
  (forall a, Q (String a "")) ->
  (forall a b, Q (String a (String b ""))) ->
  (forall a b c r, Q r -> Q (String a (String b (String c r)))) ->
  forall s, Q s.
Proof.
  intros H0 H1 H2 H3. fix IH 1.
  intros [|a [|b [|c r]]];
    [exact H0|apply H1|apply H2|apply H3, IH].
Qed.

Lemma sextetChecks_all : forallb sextetChecks (map N.of_nat (seq 0 64)) = true.
Proof. vm_compute. reflexivity. Qed.

Lemma sextet_facts n :
  n < 64 ->
  sextetOfChar (charOfSextet n) = Some n /\
  isAsciiWhitespace (charOfSextet n) = false /\
  Ascii.eqb (charOfSextet n) "=" = false.
Proof.
  intros H.
  assert (Hin : In n (map N.of_nat (seq 0 64))).
  { apply in_map_iff. exists (N.to_nat n). split; [lia|]. apply in_seq. lia. }
  pose proof sextetChecks_all as Hall. rewrite forallb_forall in Hall.
  specialize (Hall _ Hin). unfold sextetChecks in Hall.
  apply andb_true_iff in Hall as [Hall H3].
  apply andb_true_iff in Hall as [H1 H2].
  destruct (sextetOfChar (charOfSextet n)) as [m|]; [|discriminate].
  apply N.eqb_eq in H1. subst m.
  apply negb_true_iff in H2, H3. auto.
Qed.

Lemma codeOf_bounded c : codeOf c < 256.
Proof. apply N_ascii_bounded. Qed.

Lemma sextetsOf_bounded : forall b, Forall (fun n => n < 64) (sextetsOf b).
Proof.
  induction b as [|a|a b|a b c r IH] using string_ind3; cbn [sextetsOf];
    repeat constructor; try assumption;
    try (pose proof (codeOf_bounded a));
    try (pose proof (codeOf_bounded b));
    try (pose proof (codeOf_bounded c)); divlia.
Qed.

Lemma btoa_layout : forall b,
  list_ascii_of_string (btoa b) = map charOfSextet (sextetsOf b) ++ paddingOf b.
Proof.
  induction b as [|a|a b|a b c r IH] using string_ind3; cbn; try reflexivity.
  now rewrite IH.
Qed.

Lemma layout_lengths : forall b,
  exists q : nat,
    (List.length (sextetsOf b) + List.length (paddingOf b) = 4 * q)%nat /\
    (List.length (paddingOf b) <= 2)%nat /\
    (paddingOf b = [] \/ paddingOf b = ["="%char] \/
     paddingOf b = ["="%char; "="%char]).
Proof.
  induction b as [|a|a b|a b c r IH] using string_ind3; cbn.
  - exists 0%nat. auto.
  - exists 1%nat. auto.
  - exists 1%nat. auto.
  - destruct IH as (q & H1 & H2 & H3). exists (S q). repeat split; auto. lia.
Qed.

Lemma decode_sextetsOf : forall b, decodeSextets (sextetsOf b) = b.
Proof.
  induction b as [|a|a b|a b c r IH] using string_ind3; cbn [sextetsOf decodeSextets].
  - reflexivity.
  - pose proof (codeOf_bounded a).
    replace (codeOf a / 4 * 4 + codeOf a mod 4 * 16 / 16) with (codeOf a) by divlia.
    unfold codeOf. now rewrite ascii_N_embedding.
  - pose proof (codeOf_bounded a). pose proof (codeOf_bounded b).
    replace (codeOf a / 4 * 4 + (codeOf a mod 4 * 16 + codeOf b / 16) / 16)
      with (codeOf a) by divlia.
    replace ((codeOf a mod 4 * 16 + codeOf b / 16) mod 16 * 16
             + codeOf b mod 16 * 4 / 4) with (codeOf b) by divlia.
    unfold codeOf. now rewrite !ascii_N_embedding.
  - pose proof (codeOf_bounded a). pose proof (codeOf_bounded b).
    pose proof (codeOf_bounded c).
    replace (codeOf a / 4 * 4 + (codeOf a mod 4 * 16 + codeOf b / 16) / 16)
      with (codeOf a) by divlia.
    replace ((codeOf a mod 4 * 16 + codeOf b / 16) mod 16 * 16
             + (codeOf b mod 16 * 4 + codeOf c / 64) / 4) with (codeOf b) by divlia.
    replace ((codeOf b mod 16 * 4 + codeOf c / 64) mod 4 * 64 + codeOf c mod 64)
      with (codeOf c) by divlia.
    rewrite IH. unfold codeOf. now rewrite !ascii_N_embedding.
Qed.

Lemma removeWhitespace_sextets ns (tail : list ascii) :
  Forall (fun n => n < 64) ns ->
  removeWhitespace (map charOfSextet ns ++ tail) =
  map charOfSextet ns ++ removeWhitespace tail.
Proof.
  induction 1 as [|n ns Hn _ IH]; cbn; [reflexivity|].
  destruct (sextet_facts n Hn) as (_ & -> & _). now rewrite IH.
Qed.

Lemma removeWhitespace_padding b :
  removeWhitespace (paddingOf b) = paddingOf b.
Proof.
  destruct (layout_lengths b) as (_ & _ & _ & [-> | [-> | ->]]); reflexivity.
Qed.

Lemma sextets_of_chars ns :
  Forall (fun n => n < 64) ns -> sextets (map charOfSextet ns) = Some ns.
Proof.
  induction 1 as [|n ns Hn _ IH]; cbn; [reflexivity|].
  destruct (sextet_facts n Hn) as (-> & _). now rewrite IH.
Qed.

Lemma last_char_not_padding ns :
  Forall (fun n => n < 64) ns ->
  match rev (map charOfSextet ns) with
  | c :: _ => Ascii.eqb c "=" = false
  | [] => True
  end.
Proof.
  intros H. rewrite <- map_rev.
  apply Forall_rev in H. destruct H as [|n r Hn _]; cbn; [exact I|].
  now destruct (sextet_facts n Hn) as (_ & _ & ->).
Qed.

Lemma stripPadding_layout b :
  stripPadding (map charOfSextet (sextetsOf b) ++ paddingOf b) =
  map charOfSextet (sextetsOf b).
Proof.
  pose proof (last_char_not_padding _ (sextetsOf_bounded b)) as Hlast.
  destruct (layout_lengths b) as (q & Hlen & _ & Hpad).
  unfold stripPadding.
  rewrite length_app, length_map, Hlen.
  replace (N.of_nat (4 * q) mod 4 =? 0) with true
    by (symmetry; apply N.eqb_eq; divlia).
  rewrite rev_app_distr.
  set (core := map charOfSextet (sextetsOf b)) in *.
  destruct Hpad as [-> | [-> | ->]]; cbn [rev app Ascii.eqb].
  - rewrite app_nil_r.
    destruct (rev core) as [|c r] eqn:E; [reflexivity|]. now rewrite Hlast.
  - cbn. destruct (rev core) as [|c r] eqn:E.
    + now rewrite <- (rev_involutive core), E.
    + rewrite Hlast. now rewrite <- E, rev_involutive.
  - cbn. now rewrite rev_involutive.
Qed.

Lemma atob_btoa binary : atob (btoa binary) = inr binary.
Proof.
  unfold atob. rewrite btoa_layout.
  rewrite removeWhitespace_sextets by apply sextetsOf_bounded.
  rewrite removeWhitespace_padding, stripPadding_layout, length_map.
  destruct (layout_lengths binary) as (q & Hlen & Hle & _).
  replace (N.of_nat (List.length (sextetsOf binary)) mod 4 =? 1) with false
    by (symmetry; apply N.eqb_neq; divlia).
  rewrite sextets_of_chars by apply sextetsOf_bounded.
  now rewrite decode_sextetsOf.
Qed.

Lemma bytesOfBinary_binaryOfBytes bytes :
  bytesOfBinary (binaryOfBytes bytes) = bytes.
Proof.
  induction bytes as [|b r IH]; cbn; [reflexivity|].
  now rewrite byte_of_ascii_of_byte, IH.
Qed.

(** Decoding what [bytesToBase64] produced gives the bytes back. *)
Lemma base64_round_trip bytes :
  base64ToBytes (bytesToBase64 bytes) = inr bytes.
Proof.
  unfold base64ToBytes, bytesToBase64. rewrite atob_btoa. cbn.
  now rewrite bytesOfBinary_binaryOfBytes.
Qed.


(** ** The stand-in platform is lawful *)

Lemma standInTag_length key iv data :
  List.length (standInTag key iv data) = 16%nat.
Proof.
  unfold standInTag. rewrite length_firstn, !length_app, repeat_length. lia.
Qed.

Lemma bytes_eqb_refl x : bytes_eqb x x = true.
Proof.
  induction x as [|a x IH]; cbn; [reflexivity|].
  now rewrite IH, (Byte.byte_dec_lb eq_refl).
Qed.

Lemma standIn_lawful : Lawful standIn.
Proof.
  split; unfold standIn; cbn [SHA256 AES_GCM_seal AES_GCM_open].
  - intros data. unfold standInDigest.
    rewrite length_firstn, length_app, repeat_length. lia.
  - intros key iv data. unfold standInSeal.
    now rewrite length_app, standInTag_length.
  - intros key iv data. unfold standInOpen, standInSeal.
    rewrite length_app, standInTag_length.
    replace (List.length data + 16 - 16)%nat with (List.length data) by lia.
    rewrite firstn_app, Nat.sub_diag, firstn_all, firstn_0, app_nil_r.
    rewrite skipn_app, Nat.sub_diag, skipn_all, skipn_0.
    cbn [app]. now rewrite bytes_eqb_refl.
Qed.

(** ** Text

    Encoding and decoding give an ASCII text back; the claims below ask
    this of the plaintext at hand, since it does not hold of every string. *)

Lemma byte_of_N_to_N n : n < 256 -> Byte.to_N (byte_of_N n) = n.
Proof.
  intros H. unfold byte_of_N. rewrite N.mod_small by exact H.
  destruct (Byte.of_N n) as [b|] eqn:E.
  - now apply Byte.to_of_N.
  - apply Byte.of_N_None_iff in E. lia.
Qed.

Lemma scalarValues_ascii units :
  Forall (fun u => u < 0x80) units -> scalarValues units = units.
Proof.
  induction 1 as [|u r Hu _ IH]; cbn [scalarValues]; [reflexivity|].
  unfold isHighSurrogate, isLowSurrogate.
  replace (0xD800 <=? u) with false by (symmetry; apply N.leb_gt; lia).
  replace (0xDC00 <=? u) with false by (symmetry; apply N.leb_gt; lia).
  cbn. now rewrite IH.
Qed.

Lemma utf8Decode_ascii units :
  Forall (fun u => u < 0x80) units ->
  utf8Decode utf8Start (List.map Byte.to_N (flat_map utf8Bytes units)) = units.
Proof.
  induction 1 as [|u r Hu _ IH]; [reflexivity|].
  cbn [flat_map]. unfold utf8Bytes at 1.
  replace (u <? 0x80) with true by (symmetry; apply N.ltb_lt; lia).
  cbn [app List.map]. rewrite byte_of_N_to_N by lia.
  cbn [utf8Decode bytesNeeded utf8Start N.eqb]. unfold leadByte.
  replace (u <=? 0x7F) with true by (symmetry; apply N.leb_le; lia).
  cbn [app]. now rewrite IH.
Qed.

Lemma codeUnitsOf_ascii units :
  Forall (fun u => u < 0x80) units -> flat_map codeUnitsOf units = units.
Proof.
  induction 1 as [|u r Hu _ IH]; [reflexivity|].
  cbn [flat_map]. rewrite IH. unfold codeUnitsOf.
  replace (u <? 0x10000) with true by (symmetry; apply N.ltb_lt; lia).
  reflexivity.
Qed.

Lemma text_round_trip_ascii units :
  Forall (fun u => u < 0x80) units ->
  TextDecoder_decode (TextEncoder_encode units) = units.
Proof.
  intros H. unfold TextDecoder_decode, TextEncoder_encode.
  rewrite (scalarValues_ascii _ H), (utf8Decode_ascii _ H).
  destruct H as [|u r Hu Hr]; [reflexivity|].
  replace (u =? 0xFEFF) with false by (symmetry; apply N.eqb_neq; lia).
  apply codeUnitsOf_ascii. now constructor.
Qed.

Example text_examples :
  TextEncoder_encode [0x20AC] = [xe2; x82; xac] /\
  TextEncoder_encode [0xD83D; 0xDE00] = [xf0; x9f; x98; x80] /\
  TextDecoder_decode [xf0; x9f; x98; x80] = [0xD83D; 0xDE00] /\
  TextDecoder_decode [xe0; x80; x41] = [0xFFFD; 0xFFFD; 0x41] /\
  TextDecoder_decode (TextEncoder_encode [0xFEFF; 0x68]) = [0x68] /\
  TextDecoder_decode (TextEncoder_encode [0xD800; 0x41]) = [0xFFFD; 0x41].
Proof. repeat split; vm_compute; reflexivity. Qed.

(** ** Encrypting and decrypting a body *)

Section WithLawfulPlatform.

Variable P : Platform.
Hypothesis L : Lawful P.

Lemma deriveKey_succeeds accessKey :
  deriveKey P accessKey = inr (SHA256 P (hexToBytes accessKey)).
Proof.
  unfold deriveKey, importKey. now rewrite (digest_length L).
Qed.

Lemma encryptBody_value iv plainText accessKey :
  encryptBody P iv plainText accessKey =
  inr (bytesToBase64
         (iv ++ AES_GCM_seal P (SHA256 P (hexToBytes accessKey)) iv
                  (TextEncoder_encode plainText))).
Proof.
  unfold encryptBody. rewrite deriveKey_succeeds. reflexivity.
Qed.

Lemma decryptBody_value cipherText accessKey combined :
  base64ToBytes cipherText = inr combined ->
  decryptBody P cipherText accessKey =
  if (List.length (skipn 12 combined) <? 16)%nat then inl OperationError
  else
    match AES_GCM_open P (SHA256 P (hexToBytes accessKey))
            (firstn 12 combined) (skipn 12 combined) with
    | Some plain => inr (TextDecoder_decode plain)
    | None => inl OperationError
    end.
Proof.
  intros H. unfold decryptBody, andThen.
  rewrite deriveKey_succeeds, H. unfold subtle_decrypt.
  destruct (List.length (skipn 12 combined) <? 16)%nat; [reflexivity|].
  destruct (AES_GCM_open P _ _ _); reflexivity.
Qed.

Lemma decryptBody_of_encrypted iv plainText k k' cipherText :
  List.length iv = 12%nat ->
  encryptBody P iv plainText k = inr cipherText ->
  decryptBody P cipherText k' =
  match AES_GCM_open P (SHA256 P (hexToBytes k')) iv
          (AES_GCM_seal P (SHA256 P (hexToBytes k)) iv
             (TextEncoder_encode plainText)) with
  | Some plain => inr (TextDecoder_decode plain)
  | None => inl OperationError
  end.
Proof.
  intros Hiv H. rewrite encryptBody_value in H. injection H as <-.
  rewrite (decryptBody_value _ _ _ (base64_round_trip _)).
  assert (F : firstn 12 iv = iv) by (rewrite <- Hiv; apply firstn_all).
  assert (S : skipn 12 iv = []) by (rewrite <- Hiv; apply skipn_all).
  rewrite firstn_app, skipn_app, Hiv, Nat.sub_diag, F, S.
  cbn [firstn skipn app]. rewrite app_nil_r, (seal_length L).
  replace (List.length (TextEncoder_encode plainText) + 16 <? 16)%nat
    with false by (symmetry; apply Nat.ltb_ge; lia).
  reflexivity.
Qed.

End WithLawfulPlatform.


(** ** Counting keys

    A tag has 16 bytes, and there are more keys than tags. *)

Lemma NoDup_map_injective {A B} (f : A -> B) (l : list A) :
  (forall x y, f x = f y -> x = y) -> NoDup l -> NoDup (List.map f l).
Proof.
  intros Hinj. induction 1 as [|a l Hnot Hnd IH]; [constructor|].
  cbn [List.map]. constructor; [|exact IH].
  intros Hin. apply in_map_iff in Hin as (y & Heq & Hin).
  apply Hinj in Heq. now subst y.
Qed.

Lemma NoDup_list_prod {A B} (l : list A) (l' : list B) :
  NoDup l -> NoDup l' -> NoDup (list_prod l l').
Proof.
  intros Hl Hl'. induction Hl as [|a l Hnot Hnd IH]; [constructor|].
  cbn [list_prod]. apply NoDup_app.
  - apply NoDup_map_injective; [|exact Hl']. now intros x y [= ->].
  - exact IH.
  - intros [x y] Hin Hin'. apply in_map_iff in Hin as (z & [= <- <-] & _).
    apply in_prod_iff in Hin' as [Hin' _]. contradiction.
Qed.

(** Two members of a list with more members than there are values share a
    value. *)
Lemma map_collision {A B} (eqB : forall x y : B, {x = y} + {x <> y})
    (f : A -> B) (l : list A) :
  NoDup l ->
  NoDup (List.map f l) \/
  exists a1 a2, In a1 l /\ In a2 l /\ a1 <> a2 /\ f a1 = f a2.
Proof.
  induction 1 as [|a l Hnot Hnd IH]; [left; constructor|].
  destruct IH as [IH|(a1 & a2 & H1 & H2 & Hne & Heq)].
  - destruct (in_dec eqB (f a) (List.map f l)) as [Hin|Hout].
    + right. apply in_map_iff in Hin as (a2 & Heq & Hin).
      exists a, a2. split; [now left|]. split; [now right|].
      split; [|now symmetry]. intros ->. contradiction.
    + left. cbn [List.map]. now constructor.
  - right. exists a1, a2. split; [now right|]. split; [now right|].
    now split.
Qed.

Lemma bytes_listed :
  exists all : list byte,
    NoDup all /\ (forall b, In b all) /\ List.length all = 256%nat.
Proof.
  exists (List.map (fun n => match Byte.of_N (N.of_nat n) with
                             | Some b => b
                             | None => x00
                             end) (seq 0 256)).
  split; [|split].
  - apply NoDup_map_inv with (f := fun b => N.to_nat (Byte.to_N b)).
    rewrite map_map.
    replace (List.map _ (seq 0 256)) with (seq 0 256)
      by (vm_compute; reflexivity).
    apply seq_NoDup.
  - intros b. apply in_map_iff. exists (N.to_nat (Byte.to_N b)).
    split; [now destruct b|].
    apply in_seq. pose proof (Byte.to_N_bounded b). lia.
  - rewrite length_map. apply length_seq.
Qed.

(** The byte strings of length [n]: there are 256 ^ n of them. *)
Lemma words_listed (n : nat) :
  exists W : list (list byte),
    NoDup W /\ (forall w, In w W <-> List.length w = n) /\
    List.length W = (256 ^ n)%nat.
Proof.
  destruct bytes_listed as (all & Hnd & Hall & Hlen).
  induction n as [|n (W & HW & Hin & HlenW)].
  - exists [[]]. split; [|split; [|reflexivity]].
    + constructor; [intros []|constructor].
    + intros w. split.
      * intros [<-|[]]. reflexivity.
      * destruct w; [now left|discriminate].
  - exists (List.map (fun p : byte * list byte => fst p :: snd p)
              (list_prod all W)).
    split; [|split].
    + apply NoDup_map_injective; [|now apply NoDup_list_prod].
      intros [a x] [b y]. cbn [fst snd]. now intros [= -> ->].
    + intros w. split.
      * intros H. apply in_map_iff in H as ([a x] & <- & H).
        apply in_prod_iff in H as [_ H]. apply Hin in H.
        cbn [fst snd List.length]. now rewrite H.
      * destruct w as [|a x]; [discriminate|]. intros [= H].
        apply in_map_iff. exists (a, x). split; [reflexivity|].
        apply in_prod_iff. split; [apply Hall|now apply Hin].
    + rewrite length_map, length_prod, Hlen, HlenW.
      symmetry. apply Nat.pow_succ_r'.
Qed.

(** A function from byte strings to byte strings of one length takes some
    value twice. *)
Lemma fixed_length_collision (n : nat) (f : list byte -> list byte) :
  (forall b, List.length (f b) = n) ->
  exists b1 b2, b1 <> b2 /\ f b1 = f b2.
Proof.
  intros Hf.
  destruct (words_listed n) as (T & _ & HT & HlenT).
  destruct (words_listed (S n)) as (W & HW & _ & HlenW).
  destruct (map_collision (list_eq_dec Byte.byte_eq_dec) f W HW)
    as [Hnd|(b1 & b2 & _ & _ & Hne & Heq)].
  - exfalso.
    assert (Hincl : incl (List.map f W) T).
    { intros y Hy. apply in_map_iff in Hy as (b & <- & _). apply HT, Hf. }
    pose proof (NoDup_incl_length Hnd Hincl) as Hle.
    rewrite length_map, HlenW, HlenT in Hle.
    assert (Hlt : (256 ^ n < 256 ^ S n)%nat)
      by (apply Nat.pow_lt_mono_r; lia).
    exact (Nat.lt_irrefl _ (Nat.le_lt_trans _ _ _ Hle Hlt)).
  - now exists b1, b2.
Qed.

(** Every byte string is what [hexToBytes] reads from some string. *)
Lemma hexToBytes_onto (bs : list byte) : exists k, hexToBytes k = bs.
Proof.
  pose (digit := fun n : N =>
                   ascii_of_N (if (n <? 10)%N then 48 + n else 87 + n)).
  enough (H : exists h, hexPairs h = bs).
  { destruct H as (h & H). exists (String "0" (String "x" h)). exact H. }
  induction bs as [|b bs (h & IH)]; [now exists EmptyString|].
  exists (String (digit (Byte.to_N b / 16)%N)
            (String (digit (Byte.to_N b mod 16)%N) h)).
  cbn [hexPairs]. rewrite IH. f_equal.
  destruct b; vm_compute; reflexivity.
Qed.

(** C6, as the code has it.  On a lawful platform, with the 12-byte nonce
    drawn and a plaintext that TextEncoder and TextDecoder give back
    unchanged (any ASCII text is one), encryptBody succeeds and decryptBody
    of its result with the same access key returns the plaintext.  So does
    decryptBody with any other access key string that hexToBytes maps to
    the same bytes.  With any access key at all, decryptBody of that
    result is rejected with OperationError exactly when AES-GCM, under the
    digest of the bytes of that key, does not verify the tag, and
    otherwise returns the text AES-GCM opened; no other exception is
    raised.  More than that cannot be promised for the keys with other
    bytes: a tag has 16 bytes and keys are unbounded, so on every lawful
    platform and for every nonce there are two access keys with different
    bytes such that what encryptBody makes of the empty text under the
    first is decrypted under the second, to the empty text. *)
Theorem payload_round_trip (P : Platform) (L : Lawful P) (iv : list byte)
    (p : list N) (k : string) :
  List.length iv = 12%nat ->
  TextDecoder_decode (TextEncoder_encode p) = p ->
  (exists c,
     encryptBody P iv p k = inr c /\
     decryptBody P c k = inr p /\
     (forall k', hexToBytes k' = hexToBytes k -> decryptBody P c k' = inr p) /\
     (forall k',
        decryptBody P c k' =
        match AES_GCM_open P (SHA256 P (hexToBytes k')) iv
                (AES_GCM_seal P (SHA256 P (hexToBytes k)) iv
                   (TextEncoder_encode p)) with
        | Some plain => inr (TextDecoder_decode plain)
        | None => inl OperationError
        end)) /\
  (exists k1 k2 c0,
     hexToBytes k1 <> hexToBytes k2 /\
     encryptBody P iv [] k1 = inr c0 /\
     decryptBody P c0 k1 = inr [] /\
     decryptBody P c0 k2 = inr []).
Proof.
  intros Hiv Htext. split.
  - eexists. split; [apply encryptBody_value, L|].
    assert (Hany : forall k',
              decryptBody P
                (bytesToBase64
                   (iv ++ AES_GCM_seal P (SHA256 P (hexToBytes k)) iv
                            (TextEncoder_encode p))) k' =
              match AES_GCM_open P (SHA256 P (hexToBytes k')) iv
                      (AES_GCM_seal P (SHA256 P (hexToBytes k)) iv
                         (TextEncoder_encode p)) with
              | Some plain => inr (TextDecoder_decode plain)
              | None => inl OperationError
              end).
    { intros k'.
      apply (decryptBody_of_encrypted P L iv p k k' _ Hiv
               (encryptBody_value P L _ _ _)). }
    assert (Hsame : forall k', hexToBytes k' = hexToBytes k ->
              decryptBody P
                (bytesToBase64
                   (iv ++ AES_GCM_seal P (SHA256 P (hexToBytes k)) iv
                            (TextEncoder_encode p))) k' = inr p).
    { intros k' Hk. now rewrite Hany, Hk, (open_seal L), Htext. }
    split; [apply Hsame; reflexivity|]. split; [exact Hsame|exact Hany].
  - destruct (fixed_length_collision 16
                (fun b => AES_GCM_seal P (SHA256 P b) iv []))
      as (b1 & b2 & Hne & Heq).
    { intros b. apply (seal_length L). }
    destruct (hexToBytes_onto b1) as (k1 & H1).
    destruct (hexToBytes_onto b2) as (k2 & H2).
    exists k1, k2. eexists.
    split; [now rewrite H1, H2|].
    split; [apply encryptBody_value, L|].
    assert (Hany : forall k',
              decryptBody P
                (bytesToBase64
                   (iv ++ AES_GCM_seal P (SHA256 P (hexToBytes k1)) iv
                            (TextEncoder_encode []))) k' =
              match AES_GCM_open P (SHA256 P (hexToBytes k')) iv
                      (AES_GCM_seal P (SHA256 P (hexToBytes k1)) iv
                         (TextEncoder_encode [])) with
              | Some plain => inr (TextDecoder_decode plain)
              | None => inl OperationError
              end).
    { intros k'.
      apply (decryptBody_of_encrypted P L iv [] k1 k' _ Hiv
               (encryptBody_value P L _ _ _)). }
    split.
    + rewrite Hany, (open_seal L). reflexivity.
    + rewrite Hany, H1, H2.
      change (TextEncoder_encode []) with (@nil byte).
      rewrite Heq, (open_seal L). reflexivity.
Qed.

Lemma payload_round_trip_witness :
  exists c,
    encryptBody standIn (repeat x01 12) (codeUnits "hello") "0xab" = inr c /\
    decryptBody standIn c "0xab" = inr (codeUnits "hello").
Proof.
  destruct (payload_round_trip standIn standIn_lawful (repeat x01 12)
              (codeUnits "hello") "0xab" eq_refl eq_refl)
    as [(c & H1 & H2 & _) _].
  exists c. split; assumption.
Defined.

(** C6, as stated, fails three times.  Two spellings of one key: "0xAB"
    differs from "0xab" as an access key, yet hexToBytes reads the same
    byte from both and the body sealed under the one opens under the
    other.  Two keys with different bytes: on the stand-in platform, which
    is lawful, the body sealed under a 17-byte key opens under the key
    that differs from it in the last byte.  And a plaintext that begins
    with U+FEFF comes back without it, under the very key it was sealed
    with. *)
Lemma other_spelling_of_key_decrypts :
  "0xAB" <> "0xab" /\
  hexToBytes "0xAB" = hexToBytes "0xab" /\
  encryptBody standIn (repeat x01 12) (codeUnits "hello") "0xab"
    = inr "AQEBAQEBAQEBAQEBaGVsbG+rAAAAAAAAAAAAAAAAAAAA" /\
  decryptBody standIn "AQEBAQEBAQEBAQEBaGVsbG+rAAAAAAAAAAAAAAAAAAAA" "0xAB"
    = inr (codeUnits "hello") /\
  hexToBytes "0x000102030405060708090a0b0c0d0e0fab"
    <> hexToBytes "0x000102030405060708090a0b0c0d0e0fcd" /\
  encryptBody standIn (repeat x01 12) (codeUnits "hello")
    "0x000102030405060708090a0b0c0d0e0fab"
    = inr "AQEBAQEBAQEBAQEBaGVsbG8AAQIDBAUGBwgJCgsMDQ4P" /\
  decryptBody standIn "AQEBAQEBAQEBAQEBaGVsbG8AAQIDBAUGBwgJCgsMDQ4P"
    "0x000102030405060708090a0b0c0d0e0fcd"
    = inr (codeUnits "hello") /\
  encryptBody standIn (repeat x01 12) [0xFEFF; 0x68; 0x69] "0xab"
    = inr "AQEBAQEBAQEBAQEB77u/aGmrAAAAAAAAAAAAAAAAAAAA" /\
  decryptBody standIn "AQEBAQEBAQEBAQEB77u/aGmrAAAAAAAAAAAAAAAAAAAA" "0xab"
    = inr [0x68; 0x69].
Proof.
  repeat split; try (vm_compute; reflexivity); discriminate.
Qed.

(** C7, as the code has it.  A blob that decodes to fewer than 12 bytes is
    rejected, whatever the key, with OperationError: decryptBody has no
    length check of its own, the empty payload is refused by
    crypto.subtle.decrypt, and that is the exception a blob whose tag does
    not verify is rejected with. *)
Theorem short_blob_rejected (P : Platform) (L : Lawful P) (blob k : string)
    (combined : list byte) :
  base64ToBytes blob = inr combined ->
  (List.length combined < 12)%nat ->
  decryptBody P blob k = inl OperationError /\
  (forall blob' combined',
     base64ToBytes blob' = inr combined' ->
     AES_GCM_open P (SHA256 P (hexToBytes k))
       (firstn 12 combined') (skipn 12 combined') = None ->
     decryptBody P blob' k = inl OperationError).
Proof.
  intros H Hlen. split.
  - rewrite (decryptBody_value P L _ _ _ H), length_skipn.
    replace (List.length combined - 12 <? 16)%nat with true
      by (symmetry; apply Nat.ltb_lt; lia).
    reflexivity.
  - intros blob' combined' H' Hopen.
    rewrite (decryptBody_value P L _ _ _ H'), Hopen.
    now destruct (_ <? _)%nat.
Qed.

Lemma short_blob_rejected_witness :
  base64ToBytes "AAECAwQFBgcICQo=" =
    inr [x00; x01; x02; x03; x04; x05; x06; x07; x08; x09; x0a] /\
  decryptBody standIn "AAECAwQFBgcICQo=" "0xab" = inl OperationError.
Proof.
  split; [vm_compute; reflexivity|].
  apply (short_blob_rejected standIn standIn_lawful "AAECAwQFBgcICQo=" "0xab"
           [x00; x01; x02; x03; x04; x05; x06; x07; x08; x09; x0a]).
  - vm_compute. reflexivity.
  - cbn. lia.
Defined.

(** C7, as stated, fails: an 11-byte blob and a well-formed blob opened
    with the wrong key are rejected with one and the same exception, so the
    short blob is not told apart from an integrity failure. *)
Lemma short_blob_same_exception :
  base64ToBytes "AAECAwQFBgcICQo=" =
    inr [x00; x01; x02; x03; x04; x05; x06; x07; x08; x09; x0a] /\
  decryptBody standIn "AAECAwQFBgcICQo=" "0xab" = inl OperationError /\
  encryptBody standIn (repeat x01 12) (codeUnits "hello") "0xab"
    = inr "AQEBAQEBAQEBAQEBaGVsbG+rAAAAAAAAAAAAAAAAAAAA" /\
  decryptBody standIn "AQEBAQEBAQEBAQEBaGVsbG+rAAAAAAAAAAAAAAAAAAAA" "0xac"
    = inl OperationError.
Proof.
  repeat split; vm_compute; reflexivity.
Qed.


End CodecFacts.

(* ===================================================================== *)
(** * Part VI.  Properties of the handshake                               *)
(* ===================================================================== *)

Module HandshakeFacts.

Import ITree.ITree ITree.ITreeFacts ITree.Events.State ITree.Events.StateFacts.
Import ITreeNotations.
Import Handshake.
Local Open Scope itree_scope.
Local Open Scope string_scope.
Local Open Scope list_scope.

Lemma unit_answer (u : unit) : u = tt.
Proof. now destruct u. Qed.

Section Runs.

Variable env : Environment.

(** One call: the environment answers, the log grows by one entry. *)
Lemma run_trigger T (e : clientE T) R (k : T -> itree clientE R) log :
  interp_state (handler env) (x <- ITree.trigger e ;; k x) log
  ≈ interp_state (handler env) (k (env T e)) (log ++ [Did e (env T e)]).
Proof.
  rewrite interp_state_bind, interp_state_trigger. unfold handler.
  rewrite bind_ret_l. reflexivity.
Qed.

Lemma run_bind T R (t : itree clientE T) (k : T -> itree clientE R) log log' r :
  interp_state (handler env) t log ≈ Ret (log', r) ->
  interp_state (handler env) (x <- t ;; k x) log
  ≈ interp_state (handler env) (k r) log'.
Proof.
  intros H. rewrite interp_state_bind, H, bind_ret_l. reflexivity.
Qed.

Lemma quiet_app l1 l2 : quiet l1 -> quiet l2 -> quiet (l1 ++ l2).
Proof.
  unfold quiet. intros H1 H2. now rewrite forallb_app, H1, H2.
Qed.

Ltac run_on :=
  repeat first
    [ rewrite run_trigger
    | match goal with H : @eq (option _) _ _ |- _ => rewrite H end
    | match goal with H : @eq bool _ _ |- _ => rewrite H end ];
  rewrite interp_state_ret, <- ?app_assoc; cbn [app];
  rewrite ?(unit_answer (env _ (setDecryptedKeys _ _))),
          ?(unit_answer (env _ (setMessage _ _)));
  reflexivity.

(** The calls of the [try] block and what it comes to, for each way the
    environment can answer. *)
Lemma tryDecrypt_trace s user doc log :
  exists rest r,
    interp_state (handler env) (tryDecrypt s user doc) log
    ≈ Ret (log ++ rest, r) /\
    match env _ generateKeypair with
    | None => rest = [Did generateKeypair None] /\ r = None
    | Some keypair =>
        let contract := normalizedContract s in
        let now := env _ Date_now in
        let start := toString (now / 1000) in
        let request := createEIP712 (publicKey keypair) [contract] start "7" in
        let asked := [Did generateKeypair (Some keypair); Did Date_now now] in
        match env _ request with
        | None => rest = asked ++ [Did request None] /\ r = None
        | Some eip712 =>
            let signing :=
              signTypedData (domain eip712)
                (UserDecryptRequestVerification eip712) (message eip712) in
            match env _ signing with
            | None =>
                rest = asked ++ [Did request (Some eip712); Did signing None] /\
                r = None
            | Some signature =>
                let submission :=
                  userDecrypt [(encryptedAccessKey doc, contract)]
                    (privateKey keypair) (publicKey keypair)
                    (replace_first_0x signature) [contract] user start "7" in
                let signed :=
                  asked ++ [Did request (Some eip712);
                            Did signing (Some signature)] in
                match env _ submission with
                | None => rest = signed ++ [Did submission None] /\ r = None
                | Some result =>
                    let submitted := signed ++ [Did submission (Some result)] in
                    match lookup (encryptedAccessKey doc) result with
                    | None => rest = submitted /\ r = None
                    | Some v =>
                        if (v =? 0)%N then rest = submitted /\ r = None
                        else
                          let conversion :=
                            getAddress
                              ("0x" ++ padStart40 (toString16 v))%string in
                          match env _ conversion with
                          | None =>
                              rest = submitted ++ [Did conversion None] /\
                              r = None
                          | Some key =>
                              rest = submitted ++
                                     [Did conversion (Some key);
                                      Did (setDecryptedKeys (id doc) key) tt;
                                      Did (setMessage (id doc)
                                             "Access key decrypted") tt] /\
                              r = Some key
                          end
                    end
                end
            end
        end
    end.
Proof.
  cbv zeta. unfold tryDecrypt.
  destruct (env _ generateKeypair) as [keypair|] eqn:Egen.
  2: { eexists. exists None. split; [run_on|split; reflexivity]. }
  destruct (env _ (createEIP712 (publicKey keypair) [normalizedContract s]
                     (toString (env _ Date_now / 1000)) "7"))
    as [eip712|] eqn:Ereq.
  2: { eexists. exists None. split; [run_on|split; reflexivity]. }
  destruct (env _ (signTypedData (domain eip712)
                     (UserDecryptRequestVerification eip712) (message eip712)))
    as [signature|] eqn:Esig.
  2: { eexists. exists None. split; [run_on|split; reflexivity]. }
  destruct (env _ (userDecrypt [(encryptedAccessKey doc, normalizedContract s)]
                     (privateKey keypair) (publicKey keypair)
                     (replace_first_0x signature) [normalizedContract s] user
                     (toString (env _ Date_now / 1000)) "7"))
    as [result|] eqn:Esub.
  2: { eexists. exists None. split; [run_on|split; reflexivity]. }
  destruct (lookup (encryptedAccessKey doc) result) as [v|] eqn:Elook.
  2: { eexists. exists None. split; [run_on|split; reflexivity]. }
  destruct (N.eqb v 0) eqn:Ezero.
  1: { eexists. exists None. split; [run_on|split; reflexivity]. }
  destruct (env _ (getAddress ("0x" ++ padStart40 (toString16 v))%string))
    as [key|] eqn:Eaddr.
  2: { eexists. exists None. split; [run_on|split; reflexivity]. }
  eexists. exists (Some key). split; [run_on|split; reflexivity].
Qed.

Ltac split_answers :=
  repeat match goal with
  | |- context [match ?x with Some _ => _ | None => _ end] =>
      assert_fails (is_var x); destruct x
  | |- context [if ?b then _ else _] =>
      assert_fails (is_var b); destruct b
  end.

(** A run in a ready session, in full: the calls it makes, in order, and
    what it returns. *)
Lemma ready_run s doc user :
  instance s = true ->
  address s = Some user ->
  user <> "" ->
  signer s = true ->
  exists log r,
    runWith env s doc ≈ Ret (log, r) /\
    match env _ generateKeypair with
    | None =>
        log = Did (setKeyLoading (id doc) true) tt
              :: Did generateKeypair None :: failureReport doc /\
        r = None
    | Some keypair =>
        let contract := normalizedContract s in
        let now := env _ Date_now in
        let start := toString (now / 1000) in
        let request := createEIP712 (publicKey keypair) [contract] start "7" in
        let asked :=
          [Did (setKeyLoading (id doc) true) tt;
           Did generateKeypair (Some keypair); Did Date_now now] in
        match env _ request with
        | None =>
            log = asked ++ [Did request None] ++ failureReport doc /\ r = None
        | Some eip712 =>
            let signing :=
              signTypedData (domain eip712)
                (UserDecryptRequestVerification eip712) (message eip712) in
            match env _ signing with
            | None =>
                log = asked ++ [Did request (Some eip712); Did signing None]
                      ++ failureReport doc /\
                r = None
            | Some signature =>
                let submission :=
                  userDecrypt [(encryptedAccessKey doc, contract)]
                    (privateKey keypair) (publicKey keypair)
                    (replace_first_0x signature) [contract] user start "7" in
                let signed :=
                  asked ++ [Did request (Some eip712);
                            Did signing (Some signature)] in
                match env _ submission with
                | None =>
                    log = signed ++ [Did submission None] ++ failureReport doc /\
                    r = None
                | Some result =>
                    let submitted := signed ++ [Did submission (Some result)] in
                    match lookup (encryptedAccessKey doc) result with
                    | None => log = submitted ++ failureReport doc /\ r = None
                    | Some v =>
                        if (v =? 0)%N
                        then log = submitted ++ failureReport doc /\ r = None
                        else
                          let conversion :=
                            getAddress
                              ("0x" ++ padStart40 (toString16 v))%string in
                          match env _ conversion with
                          | None =>
                              log = submitted ++ [Did conversion None]
                                    ++ failureReport doc /\
                              r = None
                          | Some key =>
                              log = submitted ++
                                    [Did conversion (Some key);
                                     Did (setDecryptedKeys (id doc) key) tt;
                                     Did (setMessage (id doc)
                                            "Access key decrypted") tt;
                                     Did (setKeyLoading (id doc) false) tt] /\
                              r = Some key
                          end
                    end
                end
            end
        end
    end.
Proof.
  intros Hinst Haddr Huser Hsigner.
  destruct (tryDecrypt_trace s user doc
              ([] ++ [Did (setKeyLoading (id doc) true)
                          (env _ (setKeyLoading (id doc) true))]))
    as (rest & r & Hrun & H).
  rewrite (unit_answer (env _ (setKeyLoading (id doc) true))) in Hrun.
  cbn [app] in Hrun.
  assert (Hend : runWith env s doc
                 ≈ Ret (Did (setKeyLoading (id doc) true) tt
                        :: rest ++
                           match r with
                           | Some _ => [Did (setKeyLoading (id doc) false) tt]
                           | None => failureReport doc
                           end, r)).
  { unfold runWith, decryptAccessKey. rewrite Hinst, Haddr, Hsigner.
    destruct user as [|c u]; [now elim Huser|].
    rewrite run_trigger,
      (unit_answer (env _ (setKeyLoading (id doc) true))).
    cbn [app]. rewrite (run_bind _ _ _ _ _ _ _ Hrun).
    destruct r as [key|].
    - rewrite run_trigger, interp_state_ret.
      rewrite (unit_answer (env _ (setKeyLoading (id doc) false))).
      cbn [app]. rewrite <- ?app_assoc. reflexivity.
    - rewrite !run_trigger, interp_state_ret.
      rewrite (unit_answer (env _ (console_error _))),
              (unit_answer (env _ (setMessage _ _))),
              (unit_answer (env _ (setKeyLoading (id doc) false))).
      unfold failureReport. cbn [app]. rewrite <- ?app_assoc. reflexivity. }
  eexists. exists r. split; [exact Hend|].
  clear Hend Hrun. cbv zeta in *. revert H. split_answers.
  all: intros [-> ->]; split; [|reflexivity].
  all: cbn [app]; rewrite <- ?app_assoc; reflexivity.
Qed.

End Runs.

(** Without an instance, an account or a signer the function says so and
    calls neither the relayer nor the wallet. *)
Lemma decryptAccessKey_not_ready (env : Environment) (s : Session)
    (doc : DocumentRecord) :
  instance s = false \/ address s = None \/ address s = Some "" \/
  signer s = false ->
  exists log,
    runWith env s doc ≈ Ret (log, None) /\ quiet log.
Proof.
  intros H. unfold runWith, decryptAccessKey.
  assert (Hmsg : forall m,
            interp_state (handler env)
              (ITree.trigger (setMessage (id doc) m) ;; Ret None) []
            ≈ Ret ([Did (setMessage (id doc) m) (env _ (setMessage (id doc) m))],
                   @None string)).
  { intros m. rewrite run_trigger, interp_state_ret. reflexivity. }
  destruct (instance s).
  - destruct (address s) as [[|c u]|].
    + eexists. split; [apply Hmsg|reflexivity].
    + destruct (signer s).
      * destruct H as [H|[H|[H|H]]]; discriminate.
      * eexists. split; [apply Hmsg|reflexivity].
    + eexists. split; [apply Hmsg|reflexivity].
  - eexists. split; [apply Hmsg|reflexivity].
Qed.

(** C9.  The handshake.  Whatever the relayer, the clock, the wallet and
    [getAddress] answer, a run of decryptAccessKey in a ready session ends,
    and its log holds these calls and no other, in this order.  It raises
    the loading flag and asks the relayer for a keypair.  If that fails it
    reports the failure and lowers the flag.  Otherwise it reads the clock
    and requests typed data for (the public key of that keypair, the
    contract address, the clock reading in whole seconds, "7" days); if
    typed data comes back it asks the wallet to sign exactly that typed
    data; if a signature comes back it submits the handle with the contract
    address, the pair's private and public key, the signature without its
    first "0x", the contract address, the account, the same start time and
    the same "7" days.  What follows the submission is at most the
    conversion of the decrypted value by [getAddress], the store of the
    converted key, a message and the lowering of the flag, or else the
    report of a failure.  So the keypair is asked for once in each run,
    its keys go into the request and the submission of that run and into
    nothing else, nothing stores them, and nothing is submitted unless the
    signing succeeded. *)
Theorem handshake_protocol (env : Environment) (s : Session)
    (doc : DocumentRecord) (user : string) :
  instance s = true ->
  address s = Some user ->
  user <> "" ->
  signer s = true ->
  exists log r,
    runWith env s doc ≈ Ret (log, r) /\
    match env _ generateKeypair with
    | None =>
        log = Did (setKeyLoading (id doc) true) tt
              :: Did generateKeypair None :: failureReport doc
    | Some keypair =>
        let contract := normalizedContract s in
        let now := env _ Date_now in
        let start := toString (now / 1000) in
        let request := createEIP712 (publicKey keypair) [contract] start "7" in
        let asked :=
          [Did (setKeyLoading (id doc) true) tt;
           Did generateKeypair (Some keypair); Did Date_now now] in
        match env _ request with
        | None => log = asked ++ [Did request None] ++ failureReport doc
        | Some eip712 =>
            let signing :=
              signTypedData (domain eip712)
                (UserDecryptRequestVerification eip712) (message eip712) in
            match env _ signing with
            | None =>
                log = asked ++ [Did request (Some eip712); Did signing None]
                      ++ failureReport doc
            | Some signature =>
                let submission :=
                  userDecrypt [(encryptedAccessKey doc, contract)]
                    (privateKey keypair) (publicKey keypair)
                    (replace_first_0x signature) [contract] user start "7" in
                let signed :=
                  asked ++ [Did request (Some eip712);
                            Did signing (Some signature)] in
                match env _ submission with
                | None =>
                    log = signed ++ [Did submission None] ++ failureReport doc
                | Some result =>
                    let submitted := signed ++ [Did submission (Some result)] in
                    match lookup (encryptedAccessKey doc) result with
                    | None => log = submitted ++ failureReport doc
                    | Some v =>
                        if (v =? 0)%N
                        then log = submitted ++ failureReport doc
                        else
                          let conversion :=
                            getAddress
                              ("0x" ++ padStart40 (toString16 v))%string in
                          match env _ conversion with
                          | None =>
                              log = submitted ++ [Did conversion None]
                                    ++ failureReport doc
                          | Some key =>
                              log = submitted ++
                                    [Did conversion (Some key);
                                     Did (setDecryptedKeys (id doc) key) tt;
                                     Did (setMessage (id doc)
                                            "Access key decrypted") tt;
                                     Did (setKeyLoading (id doc) false) tt]
                          end
                    end
                end
            end
        end
    end.
Proof.
  intros Hinst Haddr Huser Hsigner.
  destruct (ready_run env s doc user Hinst Haddr Huser Hsigner)
    as (log & r & Hrun & H).
  exists log, r. split; [exact Hrun|].
  clear Hrun. cbv zeta in *. revert H.
  repeat match goal with
  | |- context [match ?x with Some _ => _ | None => _ end] => destruct x
  | |- context [if ?b then _ else _] =>
      assert_fails (is_var b); destruct b
  end.
  all: intros [H _]; exact H.
Qed.

Lemma handshake_protocol_witness :
  exists log r,
    runWith scripted readySession firstDoc ≈ Ret (log, r) /\
    log =
      [Did (setKeyLoading 1 true) tt;
       Did generateKeypair
           (Some (mkKeypair "ephemeral-public" "ephemeral-private"));
       Did Date_now 1700000000123%N;
       Did (createEIP712 "ephemeral-public"
              ["0x5FbDB2315678afecb367f032d93F642f64180aa3"] "1700000000" "7")
           (Some (mkEIP712 "relayer-domain" "UserDecryptRequestVerification"
                           "ephemeral-public|1700000000|7"));
       Did (signTypedData "relayer-domain" "UserDecryptRequestVerification"
              "ephemeral-public|1700000000|7")
           (Some "0x5167ephemeral-public|1700000000|7");
       Did (userDecrypt
              [("0xhandle", "0x5FbDB2315678afecb367f032d93F642f64180aa3")]
              "ephemeral-private" "ephemeral-public"
              "5167ephemeral-public|1700000000|7"
              ["0x5FbDB2315678afecb367f032d93F642f64180aa3"]
              "0xf39Fd6e51aad88F6F4ce6aB8827279cffFb92266"
              "1700000000" "7")
           (Some [("0xhandle", 0x1234000000000000000000000000000000000000%N)]);
       Did (getAddress "0x1234000000000000000000000000000000000000")
           (Some "0x1234000000000000000000000000000000000000");
       Did (setDecryptedKeys 1 "0x1234000000000000000000000000000000000000") tt;
       Did (setMessage 1 "Access key decrypted") tt;
       Did (setKeyLoading 1 false) tt].
Proof.
  destruct (handshake_protocol scripted readySession firstDoc
              "0xf39Fd6e51aad88F6F4ce6aB8827279cffFb92266"
              eq_refl eq_refl ltac:(discriminate) eq_refl)
    as (log & r & Hrun & Hlog).
  exists log, r. split; [exact Hrun|]. exact Hlog.
Defined.

End HandshakeFacts.

(* ===================================================================== *)
(** * Part VII.  The contract, further                                    *)
(* ===================================================================== *)

Module RegistryMore.

Import Registry RegistryFacts.
Local Open Scope string_scope.
Local Open Scope list_scope.
Local Open Scope N_scope.

(** ** Reasoning over the reachable states *)

Lemma reachable_ind dep (P : State -> Prop) :
  P initial ->
  (forall s t, Consistent s -> P s -> P (step dep s t)) ->
  forall ts, P (run dep initial ts).
Proof.
  intros H0 Hstep ts.
  assert (H : forall s, Consistent s -> P s -> P (run dep s ts)).
  { induction ts as [|t ts IH]; intros s C Ps; [assumption|].
    change (run dep s (t :: ts)) with (run dep (step dep s t) ts).
    apply IH; [now apply consistent_step|now apply Hstep]. }
  apply H; [apply consistent_initial|assumption].
Qed.

(** A transaction reverts, or it is one of the three calls and succeeded. *)
Lemma step_cases dep s t :
  step dep s t = s \/
  (exists n k p d, tx_call t = CreateDocument n k p /\
     createDocument dep n k p (tx_context t) s = inr (d, step dep s t)) \/
  (exists i b, tx_call t = UpdateDocument i b /\
     updateDocument i b (tx_context t) s = inr (tt, step dep s t)) \/
  (exists i e, tx_call t = AllowEditor i e /\
     allowEditor i e (tx_context t) s = inr (tt, step dep s t)).
Proof.
  unfold step, execute.
  destruct (tx_call t) as [n k p|i b|i e].
  - destruct (createDocument dep n k p (tx_context t) s) as [r|[d s']] eqn:E;
      [now left|right; left; exists n, k, p, d; split; [reflexivity|exact E]].
  - destruct (updateDocument i b (tx_context t) s) as [r|[[] s']] eqn:E;
      [now left|right; right; left; exists i, b; split; [reflexivity|exact E]].
  - destruct (allowEditor i e (tx_context t) s) as [r|[[] s']] eqn:E;
      [now left|right; right; right; exists i, e; split; [reflexivity|exact E]].
Qed.

Lemma fresh_id_unallocated s : allocated s (_nextDocumentId s) = false.
Proof. unfold allocated. nb. Qed.

Lemma getDocument_value i s :
  owner (_documents s i) <> address0 ->
  getDocument i s =
    inr (name (_documents s i), encryptedBody (_documents s i),
         encryptedAccessKey (_documents s i), owner (_documents s i),
         lastEditor (_documents s i), createdAt (_documents s i),
         updatedAt (_documents s i)).
Proof.
  intros H. unfold getDocument, viewOnlyExisting.
  apply N.eqb_neq in H. now rewrite H.
Qed.

Lemma getDocument_fields i s n b k o le ca ua :
  getDocument i s = inr (n, b, k, o, le, ca, ua) ->
  owner (_documents s i) <> address0 /\
  _documents s i = mkDocument n b k o le ca ua.
Proof.
  unfold getDocument, viewOnlyExisting.
  destruct (N.eqb_spec (owner (_documents s i)) address0) as [E|E]; cbn;
    [discriminate|].
  intros H. injection H as <- <- <- <- <- <- <-.
  split; [assumption|]. now destruct (_documents s i).
Qed.

(** ** Who may read a key *)

Lemma acl_covers_editors dep ts :
  forall i, allocated (run dep initial ts) i = true ->
    acl (run dep initial ts)
        (encryptedAccessKey (_documents (run dep initial ts) i)) (this dep) = true /\
    forall a, _editors (run dep initial ts) i a = true ->
      acl (run dep initial ts)
          (encryptedAccessKey (_documents (run dep initial ts) i)) a = true.
Proof.
  apply (reachable_ind dep (fun s =>
    forall i, allocated s i = true ->
      acl s (encryptedAccessKey (_documents s i)) (this dep) = true /\
      forall a, _editors s i a = true ->
        acl s (encryptedAccessKey (_documents s i)) a = true)).
  - intros i H. unfold allocated in H. cbn in H. nb.
  - intros s t C IH i.
    destruct (step_cases dep s t)
      as [E|[(n & k & p & d & _ & E)|[(j & b & _ & E)|(j & e & _ & E)]]].
    + rewrite E. apply IH.
    + apply createDocument_inv in E.
      destruct E as (_ & -> & _ & h & _ & Hnext & Hdoc & _ & Hed & _ & Hacl & _).
      unfold allocated. rewrite Hnext, Hdoc. intros Hi.
      destruct (N.eqb_spec i (_nextDocumentId s)) as [->|Ei]; cbn.
      * split.
        -- rewrite Hacl, !N.eqb_refl. cbn. now rewrite orb_true_r.
        -- intros a. rewrite Hed, Hacl, !N.eqb_refl. cbn.
           rewrite (unallocated_editors C _ a (fresh_id_unallocated s)).
           rewrite orb_false_r. now intros ->.
      * assert (Hal : allocated s i = true) by (unfold allocated; nb).
        destruct (IH i Hal) as [H1 H2]. split.
        -- rewrite Hacl, H1. apply orb_true_r.
        -- intros a. rewrite Hed, Hacl.
           replace (i =? _nextDocumentId s) with false
             by (symmetry; now apply N.eqb_neq).
           cbn. intros Ha. rewrite (H2 a Ha). apply orb_true_r.
    + rewrite (allocated_updateDocument _ _ _ _ _ _ E).
      apply updateDocument_inv in E.
      destruct E as (_ & _ & _ & Hdoc & _ & _ & -> & -> & _).
      intros Hal. rewrite Hdoc.
      destruct (i =? j); [apply (IH i Hal)|apply (IH i Hal)].
    + apply allowEditor_inv in E.
      destruct E as (_ & _ & _ & Hnext & -> & _ & Hed & _ & Hacl & _).
      unfold allocated. rewrite Hnext. intros Hal.
      destruct (IH i Hal) as [H1 H2]. split.
      * rewrite Hacl, H1. apply orb_true_r.
      * intros a. rewrite Hed, Hacl.
        destruct (N.eqb_spec i j) as [->|Ei]; cbn.
        -- destruct (a =? e); cbn.
           ++ intros _. now rewrite N.eqb_refl.
           ++ intros Ha. rewrite (H2 a Ha). apply orb_true_r.
        -- intros Ha. rewrite (H2 a Ha). apply orb_true_r.
Qed.

(** X1.  Every editor can read the key.  In a state reached from
    deployment, the key handle that [getDocument] reports for a document
    is readable, in the coprocessor's access list, by every account for
    which [isEditor] answers true, and by the contract itself. *)
Theorem editors_can_read_key dep (ts : list Transaction) (i : uint256)
    n b k o le ca ua :
  getDocument i (run dep initial ts) = inr (n, b, k, o, le, ca, ua) ->
  acl (run dep initial ts) k (this dep) = true /\
  forall a, isEditor i a (run dep initial ts) = inr true ->
            acl (run dep initial ts) k a = true.
Proof.
  intros H. apply getDocument_fields in H as [Hex Hd].
  pose proof (consistent_reachable dep ts) as C.
  pose proof (allocated_exists_consistent _ _ C Hex) as Hal.
  destruct (acl_covers_editors dep ts i Hal) as [H1 H2].
  rewrite Hd in H1, H2. cbn in H1, H2. split; [assumption|].
  intros a Ha. apply isEditor_true in Ha as [_ Ha]. auto.
Qed.

Lemma editors_can_read_key_witness :
  acl (run Scenario.deployment initial
       [Scenario.createFirstDoc; Scenario.shareWithEditor])
      0x1234 Scenario.registryAddress = true /\
  acl (run Scenario.deployment initial
       [Scenario.createFirstDoc; Scenario.shareWithEditor])
      0x1234 Scenario.editorSigner = true.
Proof.
  destruct (editors_can_read_key Scenario.deployment
              [Scenario.createFirstDoc; Scenario.shareWithEditor] 1
              "First Doc" "" 0x1234 Scenario.ownerSigner Scenario.ownerSigner
              1700000000 1700000000) as [H1 H2].
  - vm_compute. reflexivity.
  - split; [exact H1|]. apply H2. vm_compute. reflexivity.
Defined.

(** An entry of the access list comes from a document that carries the
    handle: the account is the contract or an editor of that document. *)
Lemma acl_entry_origin dep (ts : list Transaction) (h : euint256) (a : address) :
  Forall signed ts ->
  acl (run dep initial ts) h a = true ->
  exists i n b o le ca ua,
    getDocument i (run dep initial ts) = inr (n, b, h, o, le, ca, ua) /\
    (a = this dep \/ isEditor i a (run dep initial ts) = inr true).
Proof.
  intros Hsig Hacl.
  pose proof (allocatedExist_run dep ts initial Hsig allocatedExist_initial) as A.
  assert (H : exists i, allocated (run dep initial ts) i = true /\
                encryptedAccessKey (_documents (run dep initial ts) i) = h /\
                (a = this dep \/ _editors (run dep initial ts) i a = true)).
  { clear A Hsig. revert h a Hacl.
    apply (reachable_ind dep (fun s => forall h a, acl s h a = true ->
      exists i, allocated s i = true /\
                encryptedAccessKey (_documents s i) = h /\
                (a = this dep \/ _editors s i a = true))).
    - intros h a H. discriminate.
    - intros s t C IH h a.
      destruct (step_cases dep s t)
        as [E|[(n & k & p & d & _ & E)|[(j & b & _ & E)|(j & e & _ & E)]]].
      + rewrite E. apply IH.
      + apply createDocument_inv in E.
        destruct E as (_ & -> & _ & h' & _ & Hnext & Hdoc & _ & Hed & _ & Hacl & _).
        rewrite Hacl. intros H. apply orb_true_iff in H as [H|H].
        * apply andb_true_iff in H as [Hh Ha]. apply N.eqb_eq in Hh. subst h'.
          exists (_nextDocumentId s). unfold allocated.
          rewrite Hnext, Hdoc, Hed, !N.eqb_refl. cbn.
          pose proof (next_bounds C).
          split; [nb|]. split; [reflexivity|].
          apply orb_true_iff in Ha as [Ha|Ha]; apply N.eqb_eq in Ha; subst a.
          -- right. now rewrite N.eqb_refl.
          -- now left.
        * destruct (IH h a H) as (i & Hal & Hk & Hi). exists i.
          unfold allocated in *. rewrite Hnext, Hdoc, Hed.
          replace (i =? _nextDocumentId s) with false by (symmetry; nb).
          cbn. split; [nb|]. split; [assumption|]. exact Hi.
      + pose proof (allocated_updateDocument _ _ _ _ _ _ E) as Hal'.
        apply updateDocument_inv in E.
        destruct E as (_ & _ & _ & Hdoc & _ & _ & Heds & Hacl & _).
        rewrite Hacl. intros H.
        destruct (IH h a H) as (i & Hal & Hk & Hi). exists i.
        rewrite Hal', Hdoc, Heds. split; [assumption|].
        split; [|assumption]. destruct (i =? j); assumption.
      + apply allowEditor_inv in E.
        destruct E as (Hex & _ & _ & Hnext & Hdoc & _ & Hed & _ & Hacl & _).
        rewrite Hacl. intros H. apply orb_true_iff in H as [H|H].
        * apply andb_true_iff in H as [Hh Ha]. apply N.eqb_eq in Hh, Ha.
          subst h a. exists j. unfold allocated. rewrite Hnext, Hdoc, Hed.
          split; [apply (allocated_exists_consistent _ _ C Hex)|].
          split; [reflexivity|]. right. now rewrite !N.eqb_refl.
        * destruct (IH h a H) as (i & Hal & Hk & Hi). exists i.
          unfold allocated in *. rewrite Hnext, Hdoc, Hed.
          split; [assumption|]. split; [assumption|].
          destruct Hi as [Hi|Hi]; [now left|right].
          rewrite Hi. apply orb_true_r. }
  destruct H as (i & Hal & Hk & Hi).
  specialize (A i Hal).
  exists i. rewrite (getDocument_value _ _ A), Hk.
  do 6 eexists. split; [reflexivity|].
  destruct Hi as [Hi|Hi]; [now left|right].
  apply isEditor_true. auto.
Qed.

(** X2.  Who is on the access list of a key handle.  When every
    transaction of the run was signed, an entry of the access list written
    by the contract is for the key handle of an existing document, and the
    account it names is the contract itself or an editor of a document
    that carries this handle.  When one document only carries the handle,
    the account is the contract or an editor of that document: nobody else
    can read its key.  (Two documents can carry one handle, and then the
    editors of either are on the list of both; see
    [handle_of_two_documents].) *)
Theorem acl_only_for_editors dep (ts : list Transaction) (h : euint256)
    (a : address) :
  Forall signed ts ->
  acl (run dep initial ts) h a = true ->
  (exists i n b o le ca ua,
     getDocument i (run dep initial ts) = inr (n, b, h, o, le, ca, ua) /\
     (a = this dep \/ isEditor i a (run dep initial ts) = inr true)) /\
  (forall i n b o le ca ua,
     getDocument i (run dep initial ts) = inr (n, b, h, o, le, ca, ua) ->
     (forall j n' b' o' le' ca' ua',
        getDocument j (run dep initial ts) = inr (n', b', h, o', le', ca', ua') ->
        j = i) ->
     a = this dep \/ isEditor i a (run dep initial ts) = inr true).
Proof.
  intros Hsig Hacl.
  pose proof (acl_entry_origin dep ts h a Hsig Hacl) as H.
  split; [exact H|].
  intros i n b o le ca ua _ Honly.
  destruct H as (j & n' & b' & o' & le' & ca' & ua' & Hj & Ha).
  now rewrite <- (Honly j n' b' o' le' ca' ua' Hj).
Qed.

Lemma acl_only_for_editors_witness :
  (exists i n b o le ca ua,
     getDocument i
       (run Scenario.deployment initial
          [Scenario.createFirstDoc; Scenario.shareWithEditor])
     = inr (n, b, 0x1234, o, le, ca, ua) /\
     (Scenario.editorSigner = this Scenario.deployment \/
      isEditor i Scenario.editorSigner
        (run Scenario.deployment initial
           [Scenario.createFirstDoc; Scenario.shareWithEditor])
      = inr true)) /\
  (Scenario.editorSigner = this Scenario.deployment \/
   isEditor 1 Scenario.editorSigner
     (run Scenario.deployment initial
        [Scenario.createFirstDoc; Scenario.shareWithEditor])
   = inr true).
Proof.
  destruct (acl_only_for_editors Scenario.deployment
              [Scenario.createFirstDoc; Scenario.shareWithEditor]
              0x1234 Scenario.editorSigner) as [H1 H2].
  - repeat constructor; vm_compute; discriminate.
  - vm_compute. reflexivity.
  - split; [exact H1|].
    apply (H2 1 "First Doc" "" Scenario.ownerSigner Scenario.ownerSigner
              1700000000 1700000000).
    + vm_compute. reflexivity.
    + intros j n' b' o' le' ca' ua' Hj.
      apply getDocument_fields in Hj as [Hex _].
      pose proof (allocated_exists_consistent _ _
                    (consistent_reachable Scenario.deployment
                       [Scenario.createFirstDoc; Scenario.shareWithEditor])
                    Hex) as Hal.
      unfold allocated in Hal.
      assert (E : _nextDocumentId
                    (run Scenario.deployment initial
                       [Scenario.createFirstDoc; Scenario.shareWithEditor]) = 2)
        by (vm_compute; reflexivity).
      rewrite E in Hal. apply andb_true_iff in Hal as [Ha Hb].
      apply N.leb_le in Ha. apply N.ltb_lt in Hb. lia.
Defined.
(** A handle carried by two documents: the owner creates two documents from
    one encrypted key and shares the second.  The editor of the second is
    then on the access list of the handle, which is the handle of the first
    document too, without being an editor of the first. *)
Example handle_of_two_documents :
  Forall signed
    [Scenario.createFirstDoc; Scenario.createFirstDoc;
     mkTransaction (Scenario.asOwner 1700000100)
                   (AllowEditor 2 Scenario.editorSigner)] /\
  getDocument 1
    (run Scenario.deployment initial
       [Scenario.createFirstDoc; Scenario.createFirstDoc;
        mkTransaction (Scenario.asOwner 1700000100)
                      (AllowEditor 2 Scenario.editorSigner)])
  = inr ("First Doc", "", 0x1234, Scenario.ownerSigner, Scenario.ownerSigner,
         1700000000, 1700000000) /\
  getDocument 2
    (run Scenario.deployment initial
       [Scenario.createFirstDoc; Scenario.createFirstDoc;
        mkTransaction (Scenario.asOwner 1700000100)
                      (AllowEditor 2 Scenario.editorSigner)])
  = inr ("First Doc", "", 0x1234, Scenario.ownerSigner, Scenario.ownerSigner,
         1700000000, 1700000000) /\
  acl (run Scenario.deployment initial
         [Scenario.createFirstDoc; Scenario.createFirstDoc;
          mkTransaction (Scenario.asOwner 1700000100)
                        (AllowEditor 2 Scenario.editorSigner)])
      0x1234 Scenario.editorSigner = true /\
  isEditor 1 Scenario.editorSigner
    (run Scenario.deployment initial
       [Scenario.createFirstDoc; Scenario.createFirstDoc;
        mkTransaction (Scenario.asOwner 1700000100)
                      (AllowEditor 2 Scenario.editorSigner)])
  = inr false /\
  isEditor 2 Scenario.editorSigner
    (run Scenario.deployment initial
       [Scenario.createFirstDoc; Scenario.createFirstDoc;
        mkTransaction (Scenario.asOwner 1700000100)
                      (AllowEditor 2 Scenario.editorSigner)])
  = inr true.
Proof.
  split; [repeat constructor; vm_compute; discriminate|].
  repeat split; vm_compute; reflexivity.
Qed.
(** ** Where a grant and a change come from *)

Lemma createdIds_single dep s t n k p d s' :
  tx_call t = CreateDocument n k p ->
  createDocument dep n k p (tx_context t) s = inr (d, s') ->
  createdIds dep s [t] = [d].
Proof.
  intros Hc E. cbn [createdIds]. unfold execute. now rewrite Hc, E.
Qed.

(** X3.  Where an editor comes from.  In a state reached from deployment,
    a transaction that makes [isEditor(id, a)] true is either
    [allowEditor(id, a)] sent by the owner of the document, or a
    [createDocument] sent by [a] itself that returned [id]. *)
Theorem editor_grant_provenance dep (ts : list Transaction) (t : Transaction)
    (i : uint256) (a : address) :
  isEditor i a (run dep initial ts) <> inr true ->
  isEditor i a (step dep (run dep initial ts) t) = inr true ->
  (tx_call t = AllowEditor i a /\
   exists n b k le ca ua,
     getDocument i (run dep initial ts) =
       inr (n, b, k, msg_sender (tx_context t), le, ca, ua)) \/
  (exists n k p,
     tx_call t = CreateDocument n k p /\
     msg_sender (tx_context t) = a /\
     createdIds dep (run dep initial ts) [t] = [i]).
Proof.
  pose proof (consistent_reachable dep ts) as C.
  set (s := run dep initial ts) in *.
  intros Hno Hyes.
  assert (Hno' : owner (_documents s i) <> address0 -> _editors s i a = false).
  { intros Hex. destruct (_editors s i a) eqn:E; [|reflexivity].
    elim Hno. apply isEditor_true. auto. }
  apply isEditor_true in Hyes as [Hex' Hed'].
  destruct (step_cases dep s t)
    as [E|[(n & k & p & d & Hc & E)|[(j & b & Hc & E)|(j & e & Hc & E)]]].
  - rewrite E in Hex', Hed'. rewrite (Hno' Hex') in Hed'. discriminate.
  - right. exists n, k, p. split; [assumption|].
    pose proof (createdIds_single _ _ _ _ _ _ _ _ Hc E) as Hids.
    apply createDocument_inv in E.
    destruct E as (_ & -> & _ & h & _ & _ & Hdoc & _ & Hed & _).
    rewrite Hdoc in Hex'. rewrite Hed in Hed'.
    destruct (N.eqb_spec i (_nextDocumentId s)) as [->|Ei]; cbn in *.
    + rewrite (unallocated_editors C _ a (fresh_id_unallocated s)),
        orb_false_r in Hed'.
      apply N.eqb_eq in Hed'. split; [now symmetry|assumption].
    + rewrite (Hno' Hex') in Hed'. discriminate.
  - rewrite (owner_updateDocument _ _ _ _ _ _ E) in Hex'.
    apply updateDocument_inv in E.
    destruct E as (_ & _ & _ & _ & _ & _ & Heds & _).
    rewrite Heds, (Hno' Hex') in Hed'. discriminate.
  - apply allowEditor_inv in E.
    destruct E as (Hex & _ & Ho & _ & Hdoc & _ & Hed & _).
    rewrite Hdoc in Hex'. rewrite Hed, (Hno' Hex'), orb_false_r in Hed'.
    apply andb_true_iff in Hed' as [Hi Ha]. apply N.eqb_eq in Hi, Ha.
    subst j e. left. split; [assumption|].
    rewrite (getDocument_value _ _ Hex), Ho. eauto 7.
Qed.

Lemma editor_grant_provenance_witness :
  tx_call Scenario.shareWithEditor = AllowEditor 1 Scenario.editorSigner /\
  exists n b k le ca ua,
    getDocument 1 (run Scenario.deployment initial [Scenario.createFirstDoc]) =
      inr (n, b, k, msg_sender (tx_context Scenario.shareWithEditor), le, ca, ua).
Proof.
  destruct (editor_grant_provenance Scenario.deployment [Scenario.createFirstDoc]
              Scenario.shareWithEditor 1 Scenario.editorSigner)
    as [H|(n & k & p & H & _)].
  - vm_compute. discriminate.
  - vm_compute. reflexivity.
  - exact H.
  - discriminate H.
Defined.

(** X4.  A stored document changes through [updateDocument] only.  When a
    transaction changes what [getDocument] returns for a document of a
    reachable state, the transaction is an [updateDocument] of that
    document sent by one of its editors, and the record differs from the
    old one in its body, last editor and update time alone. *)
Theorem document_changes_only_by_update dep (ts : list Transaction)
    (t : Transaction) (i : uint256) n b0 k o le ca ua :
  getDocument i (run dep initial ts) = inr (n, b0, k, o, le, ca, ua) ->
  getDocument i (step dep (run dep initial ts) t)
    <> inr (n, b0, k, o, le, ca, ua) ->
  exists b,
    tx_call t = UpdateDocument i b /\
    isEditor i (msg_sender (tx_context t)) (run dep initial ts) = inr true /\
    getDocument i (step dep (run dep initial ts) t) =
      inr (n, b, k, o, msg_sender (tx_context t), ca,
           block_timestamp (tx_context t)).
Proof.
  pose proof (consistent_reachable dep ts) as C.
  set (s := run dep initial ts) in *.
  intros Hget Hchg.
  assert (Hsame : _documents (step dep s t) i = _documents s i -> False).
  { intros E. apply Hchg. rewrite <- Hget.
    unfold getDocument, viewOnlyExisting. now rewrite E. }
  apply getDocument_fields in Hget as [Hex Hd].
  pose proof (allocated_exists_consistent _ _ C Hex) as Hal.
  destruct (step_cases dep s t)
    as [E|[(n' & k' & p & d & Hc & E)|[(j & b & Hc & E)|(j & e & Hc & E)]]].
  - elim Hsame. now rewrite E.
  - apply createDocument_inv in E.
    destruct E as (_ & -> & _ & h & _ & _ & Hdoc & _).
    elim Hsame. rewrite Hdoc.
    destruct (N.eqb_spec i (_nextDocumentId s)) as [->|Ei]; [|reflexivity].
    now rewrite fresh_id_unallocated in Hal.
  - apply updateDocument_inv in E.
    destruct E as (_ & Hed & _ & Hdoc & _).
    destruct (N.eqb_spec i j) as [->|Ei].
    + exists b. split; [assumption|]. split; [apply isEditor_true; auto|].
      unfold getDocument, viewOnlyExisting.
      rewrite Hdoc, N.eqb_refl, Hd. cbn.
      rewrite Hd in Hex. cbn in Hex. apply N.eqb_neq in Hex. now rewrite Hex.
    + elim Hsame. rewrite Hdoc.
      replace (i =? j) with false by (symmetry; now apply N.eqb_neq).
      reflexivity.
  - apply allowEditor_inv in E.
    destruct E as (_ & _ & _ & _ & Hdoc & _).
    elim Hsame. now rewrite Hdoc.
Qed.

Lemma document_changes_only_by_update_witness :
  exists b,
    tx_call Scenario.editorUpdates = UpdateDocument 1 b /\
    isEditor 1 (msg_sender (tx_context Scenario.editorUpdates))
      (run Scenario.deployment initial
       [Scenario.createFirstDoc; Scenario.shareWithEditor])
    = inr true /\
    getDocument 1
      (step Scenario.deployment
         (run Scenario.deployment initial
       [Scenario.createFirstDoc; Scenario.shareWithEditor])
         Scenario.editorUpdates) =
      inr ("First Doc", b, 0x1234, Scenario.ownerSigner,
           msg_sender (tx_context Scenario.editorUpdates), 1700000000,
           block_timestamp (tx_context Scenario.editorUpdates)).
Proof.
  apply (document_changes_only_by_update Scenario.deployment
           [Scenario.createFirstDoc; Scenario.shareWithEditor]
           Scenario.editorUpdates 1 "First Doc" "" 0x1234
           Scenario.ownerSigner Scenario.ownerSigner 1700000000 1700000000).
  - vm_compute. reflexivity.
  - vm_compute. discriminate.
Defined.

Lemma lastEditor_is_editor dep ts :
  forall i, allocated (run dep initial ts) i = true ->
    _editors (run dep initial ts) i
             (lastEditor (_documents (run dep initial ts) i)) = true.
Proof.
  apply (reachable_ind dep (fun s =>
    forall i, allocated s i = true ->
              _editors s i (lastEditor (_documents s i)) = true)).
  - intros i H. unfold allocated in H. cbn in H. nb.
  - intros s t C IH i.
    destruct (step_cases dep s t)
      as [E|[(n & k & p & d & _ & E)|[(j & b & _ & E)|(j & e & _ & E)]]].
    + rewrite E. apply IH.
    + apply createDocument_inv in E.
      destruct E as (_ & -> & _ & h & _ & Hnext & Hdoc & _ & Hed & _).
      unfold allocated. rewrite Hnext, Hdoc, Hed. intros Hi.
      destruct (N.eqb_spec i (_nextDocumentId s)) as [->|Ei]; cbn.
      * now rewrite N.eqb_refl.
      * apply IH. unfold allocated. nb.
    + rewrite (allocated_updateDocument _ _ _ _ _ _ E).
      apply updateDocument_inv in E.
      destruct E as (_ & Hed & _ & Hdoc & _ & _ & -> & _).
      intros Hal. rewrite Hdoc.
      destruct (N.eqb_spec i j) as [->|Ei]; [exact Hed|now apply IH].
    + apply allowEditor_inv in E.
      destruct E as (_ & _ & _ & Hnext & -> & _ & Hed & _).
      unfold allocated. rewrite Hnext, Hed. intros Hal.
      unfold allocated in IH. rewrite (IH i Hal). apply orb_true_r.
Qed.

(** X5.  The last editor is an editor.  In a state reached from
    deployment, the account that [getDocument] reports as [lastEditor] of a
    document is one for which [isEditor] answers true. *)
Theorem last_editor_is_authorized dep (ts : list Transaction) (i : uint256)
    n b k o le ca ua :
  getDocument i (run dep initial ts) = inr (n, b, k, o, le, ca, ua) ->
  isEditor i le (run dep initial ts) = inr true.
Proof.
  intros H. apply getDocument_fields in H as [Hex Hd].
  pose proof (consistent_reachable dep ts) as C.
  pose proof (lastEditor_is_editor dep ts i
                (allocated_exists_consistent _ _ C Hex)) as Hle.
  rewrite Hd in Hle. cbn in Hle. apply isEditor_true. auto.
Qed.

Lemma last_editor_is_authorized_witness :
  isEditor 1 Scenario.editorSigner
    (run Scenario.deployment initial
       [Scenario.createFirstDoc; Scenario.shareWithEditor; Scenario.editorUpdates])
  = inr true.
Proof.
  apply (last_editor_is_authorized Scenario.deployment
           [Scenario.createFirstDoc; Scenario.shareWithEditor; Scenario.editorUpdates]
           1 "First Doc" "updated-by-editor" 0x1234 Scenario.ownerSigner
           Scenario.editorSigner 1700000000 1700000200).
  vm_compute. reflexivity.
Defined.

(** ** The indices, the other way round *)

Lemma count_occ_pos_In (l : list N) (i : N) :
  count_occ N.eq_dec l i = 1%nat -> In i l.
Proof. intros H. apply (count_occ_In N.eq_dec). lia. Qed.

(** X6.  The indices are complete.  In a state reached from deployment,
    a document is listed by [getDocumentsForEditor(a)] for every account
    [a] for which [isEditor] answers true, and by [getDocumentsByOwner(o)]
    for the owner [o] that [getDocument] reports. *)
Theorem indices_complete dep (ts : list Transaction) (i : uint256) :
  (forall a, isEditor i a (run dep initial ts) = inr true ->
             In i (getDocumentsForEditor a (run dep initial ts))) /\
  (forall n b k o le ca ua,
     getDocument i (run dep initial ts) = inr (n, b, k, o, le, ca, ua) ->
     In i (getDocumentsByOwner o (run dep initial ts))).
Proof.
  pose proof (consistent_reachable dep ts) as C.
  set (s := run dep initial ts) in *.
  unfold getDocumentsForEditor, getDocumentsByOwner. split.
  - intros a H. apply isEditor_true in H as [_ He].
    apply count_occ_pos_In. now rewrite (editor_index C), He.
  - intros n b k o le ca ua H. apply getDocument_owner in H as [-> Hex].
    apply count_occ_pos_In.
    rewrite (owner_index C), (allocated_exists_consistent _ _ C Hex),
      N.eqb_refl. reflexivity.
Qed.

Lemma StronglySorted_snoc (l : list N) (x : N) :
  StronglySorted N.lt l -> Forall (fun y => y < x) l ->
  StronglySorted N.lt (l ++ [x]).
Proof.
  induction 1 as [|y l Hs IH Hall]; intros Hx; cbn.
  - repeat constructor.
  - inversion Hx as [|? ? Hy Hl]; subst.
    constructor; [now apply IH|].
    apply Forall_app. split; [assumption|]. now repeat constructor.
Qed.

(** X7.  The owner's list.  In a state reached from deployment the ids
    returned by [getDocumentsByOwner(a)] are in strictly increasing order,
    the order of creation, and each of them is also returned by
    [getDocumentsForEditor(a)]. *)
Theorem owner_list_increasing dep (ts : list Transaction) (a : address) :
  StronglySorted N.lt (getDocumentsByOwner a (run dep initial ts)) /\
  incl (getDocumentsByOwner a (run dep initial ts))
       (getDocumentsForEditor a (run dep initial ts)).
Proof.
  unfold getDocumentsByOwner, getDocumentsForEditor. split.
  - revert a.
    apply (reachable_ind dep (fun s =>
      forall a, StronglySorted N.lt (_documentsByOwner s a))).
    + intros a. constructor.
    + intros s t C IH a.
      destruct (step_cases dep s t)
        as [E|[(n & k & p & d & _ & E)|[(j & b & _ & E)|(j & e & _ & E)]]].
      * rewrite E. apply IH.
      * apply createDocument_inv in E.
        destruct E as (_ & -> & _ & h & _ & _ & _ & Hbo & _).
        rewrite Hbo. destruct (a =? msg_sender (tx_context t)); [|apply IH].
        apply StronglySorted_snoc; [apply IH|].
        apply Forall_forall. intros x Hx.
        apply (count_occ_In N.eq_dec) in Hx. rewrite (owner_index C) in Hx.
        unfold allocated in Hx.
        destruct (N.ltb_spec x (_nextDocumentId s)); [assumption|].
        rewrite andb_false_r in Hx. cbn in Hx. lia.
      * apply updateDocument_inv in E.
        destruct E as (_ & _ & _ & _ & -> & _). apply IH.
      * apply allowEditor_inv in E.
        destruct E as (_ & _ & _ & _ & _ & -> & _). apply IH.
  - pose proof (consistent_reachable dep ts) as C.
    intros i Hi. apply (count_occ_In N.eq_dec) in Hi.
    rewrite (owner_index C) in Hi.
    destruct (allocated (run dep initial ts) i) eqn:Hal; [|cbn in Hi; lia].
    destruct (N.eqb_spec (owner (_documents (run dep initial ts) i)) a)
      as [Ho|Ho]; [|cbn in Hi; lia].
    apply count_occ_pos_In.
    rewrite (editor_index C), <- Ho, (owner_is_editor C _ Hal). reflexivity.
Qed.

(** [getDocumentsForEditor] is in the order of the grants, which need not
    be the order of the ids. *)
Example editor_list_in_grant_order :
  getDocumentsForEditor Scenario.editorSigner
    (run Scenario.deployment initial
       [Scenario.createFirstDoc; Scenario.createDraft; Scenario.shareWithEditor])
  = [2; 1].
Proof. vm_compute. reflexivity. Qed.

(** ** The ids, counted *)

Lemma createdIds_from dep ts :
  forall s,
    createdIds dep s ts =
      map (fun k => _nextDocumentId s + N.of_nat k)
          (seq 0 (List.length (createdIds dep s ts))) /\
    _nextDocumentId (run dep s ts) =
      _nextDocumentId s + N.of_nat (List.length (createdIds dep s ts)).
Proof.
  induction ts as [|t ts IH]; intros s.
  - cbn. split; [reflexivity|lia].
  - change (run dep s (t :: ts)) with (run dep (step dep s t) ts).
    cbn [createdIds].
    pose proof (execute_next dep t s) as Hx. unfold step.
    destruct (execute dep t s) as [r|[[d|] s']].
    + apply IH.
    + destruct Hx as [-> Hn]. destruct (IH s') as [H1 H2].
      cbn [List.length seq map]. split.
      * f_equal; [lia|].
        rewrite <- seq_shift, map_map. rewrite H1 at 1.
        apply map_ext. intros k. rewrite Hn. lia.
      * rewrite H2, Hn. lia.
    + destruct (IH s') as [H1 H2]. rewrite Hx in H1, H2. split; assumption.
Qed.

(** X8.  The ids are consecutive.  Over any run from deployment the k-th
    successful [createDocument] returns k, counting from 1, and the
    contract's counter is one more than the number of documents created. *)
Theorem document_ids_consecutive dep (ts : list Transaction) :
  createdIds dep initial ts =
    map N.of_nat (seq 1 (List.length (createdIds dep initial ts))) /\
  _nextDocumentId (run dep initial ts) =
    1 + N.of_nat (List.length (createdIds dep initial ts)).
Proof.
  destruct (createdIds_from dep ts initial) as [H1 H2].
  split; [|exact H2].
  rewrite <- seq_shift, map_map. rewrite H1 at 1.
  apply map_ext. intros k. cbn [_nextDocumentId initial]. lia.
Qed.

(** ** The event log *)

Lemma events_step dep s t :
  exists l, events (step dep s t) = events s ++ l.
Proof.
  destruct (step_cases dep s t)
    as [E|[(n & k & p & d & _ & E)|[(j & b & _ & E)|(j & e & _ & E)]]].
  - rewrite E. exists []. now rewrite app_nil_r.
  - apply createDocument_inv in E.
    destruct E as (_ & _ & _ & h & _ & _ & _ & _ & _ & _ & _ & ->). eauto.
  - apply updateDocument_inv in E.
    destruct E as (_ & _ & _ & _ & _ & _ & _ & _ & ->). eauto.
  - apply allowEditor_inv in E.
    destruct E as (_ & _ & _ & _ & _ & _ & _ & _ & _ & ->). eauto.
Qed.

Lemma step_owner_name dep s t i :
  allocated s i = true ->
  owner (_documents (step dep s t) i) = owner (_documents s i) /\
  name (_documents (step dep s t) i) = name (_documents s i).
Proof.
  intros Hal. pose proof (step_identity dep s t i Hal) as H.
  unfold identityOf in H. injection H as H1 _ H2 _. auto.
Qed.

(** X9.  What the event log says is true.  In a state reached from
    deployment: a [DocumentCreated(id, o, n)] of the log names an allocated
    document whose owner is [o] and whose name is [n]; the editor of a
    [DocumentUpdated(id, e, _)] and of an [EditorAllowed(id, e)] is an
    account for which [isEditor(id, e)] answers true, and the editor of an
    [EditorAllowed] is never the null identity. *)
Theorem event_log_sound dep (ts : list Transaction) :
  (forall i o n, In (DocumentCreated i o n) (events (run dep initial ts)) ->
     allocated (run dep initial ts) i = true /\
     owner (_documents (run dep initial ts) i) = o /\
     name (_documents (run dep initial ts) i) = n) /\
  (forall i e b, In (DocumentUpdated i e b) (events (run dep initial ts)) ->
     isEditor i e (run dep initial ts) = inr true) /\
  (forall i e, In (EditorAllowed i e) (events (run dep initial ts)) ->
     e <> address0 /\ isEditor i e (run dep initial ts) = inr true).
Proof.
  apply (reachable_ind dep (fun s =>
    (forall i o n, In (DocumentCreated i o n) (events s) ->
       allocated s i = true /\ owner (_documents s i) = o /\
       name (_documents s i) = n) /\
    (forall i e b, In (DocumentUpdated i e b) (events s) ->
       isEditor i e s = inr true) /\
    (forall i e, In (EditorAllowed i e) (events s) ->
       e <> address0 /\ isEditor i e s = inr true))).
  - repeat split; intros; contradiction.
  - intros s t C (IH1 & IH2 & IH3).
    assert (K1 : forall i o n, In (DocumentCreated i o n) (events s) ->
              allocated (step dep s t) i = true /\
              owner (_documents (step dep s t) i) = o /\
              name (_documents (step dep s t) i) = n).
    { intros i o n H. destruct (IH1 i o n H) as (Hal & Ho & Hn).
      destruct (step_owner_name dep s t i Hal) as [-> ->].
      split; [now apply step_allocated|auto]. }
    assert (K2 : forall i e b, In (DocumentUpdated i e b) (events s) ->
              isEditor i e (step dep s t) = inr true).
    { intros i e b H. apply step_keeps_editor; [assumption|]. eapply IH2, H. }
    assert (K3 : forall i e, In (EditorAllowed i e) (events s) ->
              e <> address0 /\ isEditor i e (step dep s t) = inr true).
    { intros i e H. destruct (IH3 i e H) as [He Hi].
      split; [assumption|]. now apply step_keeps_editor. }
    destruct (step_cases dep s t)
      as [E|[(n & k & p & d & _ & E)|[(j & b & _ & E)|(j & e & _ & E)]]].
    + rewrite E in *. auto.
    + apply createDocument_inv in E.
      destruct E as (_ & -> & _ & h & _ & Hnext & Hdoc & _ & _ & _ & _ & Hev).
      rewrite Hev. split; [|split].
      * intros i o n' H. apply in_app_iff in H as [H|[H|[]]]; [now apply K1|].
        injection H as <- <- <-. unfold allocated.
        rewrite Hnext, Hdoc, N.eqb_refl. cbn.
        pose proof (next_bounds C). split; [nb|auto].
      * intros i e b H. apply in_app_iff in H as [H|[H|[]]];
          [eapply K2, H|discriminate].
      * intros i e H. apply in_app_iff in H as [H|[H|[]]];
          [now apply K3|discriminate].
    + pose proof (owner_updateDocument _ _ _ _ _ _ E) as Hown.
      apply updateDocument_inv in E.
      destruct E as (Hex & Hed & _ & _ & _ & _ & Heds & _ & Hev).
      rewrite Hev. split; [|split].
      * intros i o n' H. apply in_app_iff in H as [H|[H|[]]];
          [now apply K1|discriminate].
      * intros i e b' H. apply in_app_iff in H as [H|[H|[]]]; [eapply K2, H|].
        injection H as <- <- <-. apply isEditor_true.
        rewrite Hown, Heds. auto.
      * intros i e H. apply in_app_iff in H as [H|[H|[]]];
          [now apply K3|discriminate].
    + apply allowEditor_inv in E.
      destruct E as (Hex & He & _ & _ & Hdoc & _ & Heds & _ & _ & Hev).
      rewrite Hev. split; [|split].
      * intros i o n' H. apply in_app_iff in H as [H|[H|[]]];
          [now apply K1|discriminate].
      * intros i e' b' H. apply in_app_iff in H as [H|[H|[]]];
          [eapply K2, H|discriminate].
      * intros i e' H. apply in_app_iff in H as [H|[H|[]]]; [now apply K3|].
        injection H as <- <-. split; [assumption|].
        apply isEditor_true. rewrite Hdoc, Heds, !N.eqb_refl. auto.
Qed.

Lemma event_log_complete_storage dep ts :
  forall i, allocated (run dep initial ts) i = true ->
    In (DocumentCreated i (owner (_documents (run dep initial ts) i))
                          (name (_documents (run dep initial ts) i)))
       (events (run dep initial ts)) /\
    (forall a, _editors (run dep initial ts) i a = true ->
       a = owner (_documents (run dep initial ts) i) \/
       In (EditorAllowed i a) (events (run dep initial ts))) /\
    ((encryptedBody (_documents (run dep initial ts) i) = "" /\
      lastEditor (_documents (run dep initial ts) i) =
        owner (_documents (run dep initial ts) i) /\
      updatedAt (_documents (run dep initial ts) i) =
        createdAt (_documents (run dep initial ts) i)) \/
     In (DocumentUpdated i (lastEditor (_documents (run dep initial ts) i))
                           (encryptedBody (_documents (run dep initial ts) i)))
        (events (run dep initial ts))).
Proof.
  apply (reachable_ind dep (fun s =>
    forall i, allocated s i = true ->
      In (DocumentCreated i (owner (_documents s i)) (name (_documents s i)))
         (events s) /\
      (forall a, _editors s i a = true ->
         a = owner (_documents s i) \/ In (EditorAllowed i a) (events s)) /\
      ((encryptedBody (_documents s i) = "" /\
        lastEditor (_documents s i) = owner (_documents s i) /\
        updatedAt (_documents s i) = createdAt (_documents s i)) \/
       In (DocumentUpdated i (lastEditor (_documents s i))
                             (encryptedBody (_documents s i))) (events s)))).
  - intros i H. unfold allocated in H. cbn in H. nb.
  - intros s t C IH i.
    destruct (step_cases dep s t)
      as [E|[(n & k & p & d & _ & E)|[(j & b & _ & E)|(j & e & _ & E)]]].
    + rewrite E. apply IH.
    + apply createDocument_inv in E.
      destruct E as (_ & -> & _ & h & _ & Hnext & Hdoc & _ & Hed & _ & _ & Hev).
      unfold allocated. rewrite Hnext, Hdoc, Hev. intros Hi.
      destruct (N.eqb_spec i (_nextDocumentId s)) as [->|Ei]; cbn.
      * split; [apply in_app_iff; right; now left|].
        split; [|left; auto].
        intros a. rewrite Hed, N.eqb_refl. cbn.
        rewrite (unallocated_editors C _ a (fresh_id_unallocated s)),
          orb_false_r.
        intros Ha. apply N.eqb_eq in Ha. now left.
      * assert (Hal : allocated s i = true) by (unfold allocated; nb).
        destruct (IH i Hal) as (H1 & H2 & H3).
        split; [apply in_app_iff; now left|]. split.
        -- intros a. rewrite Hed.
           replace (i =? _nextDocumentId s) with false
             by (symmetry; now apply N.eqb_neq).
           cbn. intros Ha. destruct (H2 a Ha); [now left|right].
           apply in_app_iff. now left.
        -- destruct H3 as [H3|H3]; [now left|right].
           apply in_app_iff. now left.
    + rewrite (allocated_updateDocument _ _ _ _ _ _ E).
      apply updateDocument_inv in E.
      destruct E as (_ & _ & _ & Hdoc & _ & _ & -> & _ & Hev).
      intros Hal. destruct (IH i Hal) as (H1 & H2 & H3).
      rewrite Hdoc, Hev.
      destruct (N.eqb_spec i j) as [->|Ei]; cbn.
      * split; [apply in_app_iff; now left|]. split.
        -- intros a Ha. destruct (H2 a Ha); [now left|right].
           apply in_app_iff. now left.
        -- right. apply in_app_iff. right. now left.
      * split; [apply in_app_iff; now left|]. split.
        -- intros a Ha. destruct (H2 a Ha); [now left|right].
           apply in_app_iff. now left.
        -- destruct H3 as [H3|H3]; [now left|right].
           apply in_app_iff. now left.
    + apply allowEditor_inv in E.
      destruct E as (_ & _ & _ & Hnext & -> & _ & Hed & _ & _ & Hev).
      unfold allocated. rewrite Hnext, Hev. intros Hal.
      destruct (IH i Hal) as (H1 & H2 & H3).
      split; [apply in_app_iff; now left|]. split.
      * intros a. rewrite Hed. intros Ha. apply orb_true_iff in Ha as [Ha|Ha].
        -- apply andb_true_iff in Ha as [Hi Ha]. apply N.eqb_eq in Hi, Ha.
           subst. right. apply in_app_iff. right. now left.
        -- destruct (H2 a Ha); [now left|right]. apply in_app_iff. now left.
      * destruct H3 as [H3|H3]; [now left|right].
        apply in_app_iff. now left.
Qed.

(** X10.  The event log tells the whole story.  For a document that
    [getDocument] returns in a state reached from deployment, the log holds
    the [DocumentCreated] event with its owner and name; every account for
    which [isEditor] answers true is the owner or has an [EditorAllowed]
    event; and either the record is as it was created (empty body, last
    editor the owner, update time the creation time) or the log holds a
    [DocumentUpdated] event with its last editor and its body. *)
Theorem event_log_complete dep (ts : list Transaction) (i : uint256)
    n b k o le ca ua :
  getDocument i (run dep initial ts) = inr (n, b, k, o, le, ca, ua) ->
  In (DocumentCreated i o n) (events (run dep initial ts)) /\
  (forall a, isEditor i a (run dep initial ts) = inr true ->
     a = o \/ In (EditorAllowed i a) (events (run dep initial ts))) /\
  ((b = "" /\ le = o /\ ua = ca) \/
   In (DocumentUpdated i le b) (events (run dep initial ts))).
Proof.
  intros H. apply getDocument_fields in H as [Hex Hd].
  pose proof (consistent_reachable dep ts) as C.
  destruct (event_log_complete_storage dep ts i
              (allocated_exists_consistent _ _ C Hex)) as (H1 & H2 & H3).
  rewrite Hd in H1, H2, H3. cbn in H1, H2, H3.
  split; [assumption|]. split; [|assumption].
  intros a Ha. apply isEditor_true in Ha as [_ Ha]. auto.
Qed.

Lemma event_log_complete_witness :
  In (DocumentCreated 1 Scenario.ownerSigner "First Doc")
     (events (run Scenario.deployment initial
                [Scenario.createFirstDoc; Scenario.shareWithEditor;
                 Scenario.editorUpdates])) /\
  In (DocumentUpdated 1 Scenario.editorSigner "updated-by-editor")
     (events (run Scenario.deployment initial
                [Scenario.createFirstDoc; Scenario.shareWithEditor;
                 Scenario.editorUpdates])).
Proof.
  destruct (event_log_complete Scenario.deployment
              [Scenario.createFirstDoc; Scenario.shareWithEditor;
               Scenario.editorUpdates]
              1 "First Doc" "updated-by-editor" 0x1234 Scenario.ownerSigner
              Scenario.editorSigner 1700000000 1700000200)
    as (H1 & _ & [(_ & H & _)|H3]).
  - vm_compute. reflexivity.
  - vm_compute in H. discriminate H.
  - split; [exact H1|exact H3].
Defined.

(** ** Time *)

Lemma step_timestamps dep s t bound :
  (forall i, createdAt (_documents s i) <= updatedAt (_documents s i) <= bound) ->
  bound <= block_timestamp (tx_context t) ->
  forall i, createdAt (_documents (step dep s t) i)
            <= updatedAt (_documents (step dep s t) i)
            <= block_timestamp (tx_context t).
Proof.
  intros H Hb i. specialize (H i).
  destruct (step_cases dep s t)
    as [E|[(n & k & p & d & _ & E)|[(j & b & _ & E)|(j & e & _ & E)]]].
  - rewrite E. lia.
  - apply createDocument_inv in E.
    destruct E as (_ & -> & _ & h & _ & _ & Hdoc & _).
    rewrite Hdoc. destruct (i =? _nextDocumentId s); cbn; lia.
  - apply updateDocument_inv in E.
    destruct E as (_ & _ & _ & Hdoc & _).
    rewrite Hdoc. destruct (i =? j); cbn; lia.
  - apply allowEditor_inv in E.
    destruct E as (_ & _ & _ & _ & -> & _). lia.
Qed.

Lemma run_timestamps dep ts :
  forall s bound,
    (forall i, createdAt (_documents s i) <= updatedAt (_documents s i) <= bound) ->
    Forall (fun t => bound <= block_timestamp (tx_context t)) ts ->
    StronglySorted
      (fun t t' => block_timestamp (tx_context t) <= block_timestamp (tx_context t'))
      ts ->
    forall i, createdAt (_documents (run dep s ts) i)
              <= updatedAt (_documents (run dep s ts) i).
Proof.
  induction ts as [|t ts IH]; intros s bound H Hb Hs i.
  - specialize (H i). cbn. lia.
  - change (run dep s (t :: ts)) with (run dep (step dep s t) ts).
    inversion Hb as [|? ? Ht Hts]; subst.
    inversion Hs as [|? ? Hs' Hall]; subst.
    apply (IH (step dep s t) (block_timestamp (tx_context t))).
    + now apply (step_timestamps dep s t bound).
    + exact Hall.
    + exact Hs'.
Qed.

(** X11.  A document is not updated before it is created.  When the block
    timestamps of a run do not decrease from one transaction to a later
    one, every record [getDocument] returns in the state it reaches has
    [createdAt <= updatedAt]. *)
Theorem created_before_updated dep (ts : list Transaction) (i : uint256)
    n b k o le ca ua :
  StronglySorted
    (fun t t' => block_timestamp (tx_context t) <= block_timestamp (tx_context t'))
    ts ->
  getDocument i (run dep initial ts) = inr (n, b, k, o, le, ca, ua) ->
  ca <= ua.
Proof.
  intros Hs H. apply getDocument_fields in H as [_ Hd].
  pose proof (run_timestamps dep ts initial 0) as R.
  specialize (R (fun _ => conj (N.le_refl 0) (N.le_refl 0))).
  assert (Hb : Forall (fun t => 0 <= block_timestamp (tx_context t)) ts)
    by (apply Forall_forall; intros; lia).
  specialize (R Hb Hs i). now rewrite Hd in R.
Qed.

Lemma created_before_updated_witness :
  getDocument 1
    (run Scenario.deployment initial
       [Scenario.createFirstDoc; Scenario.shareWithEditor;
        Scenario.editorUpdates])
  = inr ("First Doc", "updated-by-editor", 0x1234, Scenario.ownerSigner,
         Scenario.editorSigner, 1700000000, 1700000200) /\
  1700000000 <= 1700000200.
Proof.
  split; [vm_compute; reflexivity|].
  apply (created_before_updated Scenario.deployment
           [Scenario.createFirstDoc; Scenario.shareWithEditor;
            Scenario.editorUpdates]
           1 "First Doc" "updated-by-editor" 0x1234 Scenario.ownerSigner
           Scenario.editorSigner 1700000000 1700000200).
  - repeat constructor; vm_compute; discriminate.
  - vm_compute. reflexivity.
Defined.

(** Without that order the two times can come out reversed. *)
Example updated_before_created :
  getDocument 1
    (run Scenario.deployment Scenario.created
       [mkTransaction (Scenario.asOwner 1600000000) (UpdateDocument 1 "early")])
  = inr ("First Doc", "early", 0x1234, Scenario.ownerSigner,
         Scenario.ownerSigner, 1700000000, 1600000000).
Proof. vm_compute. reflexivity. Qed.

(** ** Which documents the views know *)

(** X12.  The views know exactly the created documents.  Over a run of
    signed transactions, [getDocument(id)] returns a record exactly when
    [id] was returned by a [createDocument] of the run; for every other id
    (id 0 among them) [getDocument] and [isEditor] both revert with
    "Document does not exist". *)
Theorem views_know_created_documents dep (ts : list Transaction) (i : uint256) :
  Forall signed ts ->
  (In i (createdIds dep initial ts) <->
   exists d, getDocument i (run dep initial ts) = inr d) /\
  (~ In i (createdIds dep initial ts) ->
   getDocument i (run dep initial ts) = inl (Error "Document does not exist") /\
   forall a, isEditor i a (run dep initial ts)
             = inl (Error "Document does not exist")) /\
  ~ In 0 (createdIds dep initial ts).
Proof.
  intros Hsig.
  pose proof (consistent_reachable dep ts) as C.
  pose proof (allocatedExist_run dep ts initial Hsig allocatedExist_initial) as A.
  destruct (createdIds_range dep ts initial) as (_ & Hin & _).
  cbn [_nextDocumentId initial] in Hin.
  assert (Hal : forall j, In j (createdIds dep initial ts) <->
                          allocated (run dep initial ts) j = true).
  { intros j. rewrite Hin. unfold allocated.
    rewrite andb_true_iff, N.leb_le, N.ltb_lt. reflexivity. }
  split; [|split].
  - split.
    + intros H. apply Hal in H. specialize (A i H).
      rewrite (getDocument_value _ _ A). eauto.
    + intros [[[[[[[n b] k] o] le] ca] ua] H].
      apply getDocument_owner in H as [-> Hex]. apply Hal.
      now apply allocated_exists_consistent.
  - intros Hno.
    assert (E : allocated (run dep initial ts) i = false).
    { destruct (allocated (run dep initial ts) i) eqn:E; [|reflexivity].
      elim Hno. now apply Hal. }
    pose proof (unallocated_document C _ E) as Hz.
    unfold getDocument, isEditor, viewOnlyExisting. rewrite Hz. cbn. auto.
  - intros H. apply Hin in H. lia.
Qed.

Lemma views_know_created_documents_witness :
  (In 1 (createdIds Scenario.deployment initial
           [Scenario.createFirstDoc; Scenario.shareWithEditor]) <->
   exists d, getDocument 1
               (run Scenario.deployment initial
       [Scenario.createFirstDoc; Scenario.shareWithEditor])
             = inr d) /\
  getDocument 2
    (run Scenario.deployment initial
       [Scenario.createFirstDoc; Scenario.shareWithEditor])
  = inl (Error "Document does not exist").
Proof.
  assert (Hsig : Forall signed [Scenario.createFirstDoc; Scenario.shareWithEditor])
    by (repeat constructor; vm_compute; discriminate).
  split.
  - apply (views_know_created_documents Scenario.deployment
             [Scenario.createFirstDoc; Scenario.shareWithEditor] 1 Hsig).
  - destruct (views_know_created_documents Scenario.deployment
                [Scenario.createFirstDoc; Scenario.shareWithEditor] 2 Hsig)
      as (_ & H & _).
    apply H. vm_compute. intros [H1|[]]. discriminate H1.
Defined.

(** ** The calls, composed *)

(** X13.  Share, then edit.  Once the owner of a document of a reachable
    state has called [allowEditor(id, e)] for a non-null [e], then
    whatever calls follow, [updateDocument(id, body)] sent by [e] succeeds,
    and [getDocument] then returns the name, key handle, owner and creation
    time of before with the new body, [e] as last editor and the block's
    timestamp as update time. *)
Theorem shared_editor_can_update dep (ts later : list Transaction)
    (i : uint256) (e : address) (c c' : Context) (body : string)
    n b k o le ca ua :
  getDocument i (run dep initial ts) = inr (n, b, k, o, le, ca, ua) ->
  msg_sender c = o ->
  e <> address0 ->
  msg_sender c' = e ->
  exists s',
    updateDocument i body c'
      (run dep (step dep (run dep initial ts)
                     (mkTransaction c (AllowEditor i e))) later)
    = inr (tt, s') /\
    getDocument i s' = inr (n, body, k, o, e, ca, block_timestamp c').
Proof.
  pose proof (consistent_reachable dep ts) as C.
  set (s := run dep initial ts) in *.
  intros Hget Hc He Hc'.
  apply getDocument_fields in Hget as [Hex Hd].
  pose proof (allocated_exists_consistent _ _ C Hex) as Hal.
  assert (Ho : owner (_documents s i) = msg_sender c)
    by (rewrite Hd; cbn; congruence).
  destruct (allowEditor_succeeds i e c s Hex He Ho) as [s1 H1].
  assert (Hstep : step dep s (mkTransaction c (AllowEditor i e)) = s1)
    by (unfold step, execute; cbn; now rewrite H1).
  rewrite Hstep.
  assert (C1 : Consistent s1) by (eapply consistent_allowEditor; eauto).
  apply allowEditor_inv in H1.
  destruct H1 as (_ & _ & _ & Hnext & Hdoc1 & _ & Hed1 & _).
  assert (Hal1 : allocated s1 i = true)
    by (unfold allocated in *; now rewrite Hnext).
  assert (Hie : isEditor i e s1 = inr true).
  { apply isEditor_true. rewrite Hdoc1, Hed1, !N.eqb_refl. auto. }
  pose proof (run_keeps_editor dep later i e s1 C1 Hie) as Hlater.
  pose proof (run_identity dep later i s1 Hal1) as Hid.
  set (s2 := run dep s1 later) in *.
  apply isEditor_true in Hlater as [Hex2 Hed2].
  rewrite <- Hc' in Hed2.
  destruct (updateDocument_succeeds i body c' s2 Hex2 Hed2) as [s' Hs'].
  exists s'. split; [assumption|].
  apply updateDocument_inv in Hs'.
  destruct Hs' as (_ & _ & _ & Hdoc & _).
  unfold getDocument, viewOnlyExisting. rewrite Hdoc, N.eqb_refl.
  rewrite Hdoc1, Hd in Hid. unfold identityOf in Hid. cbn in Hid.
  injection Hid as Hn Hk Hown Hca. cbn.
  rewrite Hn, Hk, Hown, Hca, Hc'.
  rewrite Hd in Hex. cbn in Hex. apply N.eqb_neq in Hex. now rewrite Hex.
Qed.

Lemma shared_editor_can_update_witness :
  exists s',
    updateDocument 1 "updated-by-editor" (Scenario.asEditor 1700000200)
      (run Scenario.deployment
         (step Scenario.deployment
            (run Scenario.deployment initial [Scenario.createFirstDoc])
            (mkTransaction (Scenario.asOwner 1700000100)
                           (AllowEditor 1 Scenario.editorSigner)))
         [Scenario.createDraft])
    = inr (tt, s') /\
    getDocument 1 s' =
      inr ("First Doc", "updated-by-editor", 0x1234, Scenario.ownerSigner,
           Scenario.editorSigner, 1700000000, 1700000200).
Proof.
  apply (shared_editor_can_update Scenario.deployment [Scenario.createFirstDoc]
           [Scenario.createDraft] 1 Scenario.editorSigner
           (Scenario.asOwner 1700000100) (Scenario.asEditor 1700000200)
           "updated-by-editor" "First Doc" "" 0x1234 Scenario.ownerSigner
           Scenario.ownerSigner 1700000000 1700000000).
  - vm_compute. reflexivity.
  - reflexivity.
  - vm_compute. discriminate.
  - reflexivity.
Defined.

(** ** What [createDocument] and [allowEditor] answer *)

(** X14.  The outcomes of [createDocument].  The call checks the name,
    then the counter, then the input proof: with a non-empty name it
    reverts with Panic(0x11) when the counter has reached the largest
    [uint256], whatever the proof; with room left it reverts inside the
    coprocessor library (InvalidProof) when the proof is refused; and
    otherwise it succeeds and returns the counter's value.  It fails for
    no other reason than these and the empty name. *)
Theorem createDocument_outcomes dep (n : string) (k : externalEuint256)
    (p : bytes) (c : Context) (s : State) :
  (n <> "" -> _nextDocumentId s = uint256_max ->
     createDocument dep n k p c s = inl (Panic 17)) /\
  (n <> "" -> _nextDocumentId s <> uint256_max ->
     verifyInput dep (msg_sender c) k p = None ->
     createDocument dep n k p c s = inl InputVerificationFailed /\
     errorKind InputVerificationFailed = InvalidProof) /\
  (n <> "" -> _nextDocumentId s <> uint256_max ->
     verifyInput dep (msg_sender c) k p <> None ->
     exists s', createDocument dep n k p c s = inr (_nextDocumentId s, s')) /\
  (forall r, createDocument dep n k p c s = inl r ->
     r = Error "Name required" \/ r = Panic 17 \/ r = InputVerificationFailed).
Proof.
  assert (Hname : n <> "" -> (0 <? N.of_nat (String.length n)) = true).
  { intros Hn. destruct n as [|ch n']; [congruence|].
    cbn [String.length]. apply N.ltb_lt. lia. }
  assert (H1 : n <> "" -> _nextDocumentId s = uint256_max ->
               createDocument dep n k p c s = inl (Panic 17)).
  { intros Hn Hmax. tx_unfold. rewrite (Hname Hn), Hmax. reflexivity. }
  assert (H2 : n <> "" -> _nextDocumentId s <> uint256_max ->
               verifyInput dep (msg_sender c) k p = None ->
               createDocument dep n k p c s = inl InputVerificationFailed).
  { intros Hn Hmax Hv. tx_unfold. apply N.eqb_neq in Hmax.
    now rewrite (Hname Hn), Hmax, Hv. }
  assert (H3 : n <> "" -> _nextDocumentId s <> uint256_max ->
               verifyInput dep (msg_sender c) k p <> None ->
               exists s', createDocument dep n k p c s
                          = inr (_nextDocumentId s, s')).
  { intros Hn Hmax Hv.
    destruct (verifyInput dep (msg_sender c) k p) as [h|] eqn:E; [|congruence].
    eapply createDocument_succeeds; eauto. }
  split; [exact H1|]. split; [|split; [exact H3|]].
  - intros Hn Hmax Hv. split; [now apply H2|reflexivity].
  - intros r Hr.
    destruct (string_dec n "") as [->|Hn].
    + rewrite createDocument_empty_name in Hr. injection Hr as <-. now left.
    + destruct (N.eq_dec (_nextDocumentId s) uint256_max) as [Hmax|Hmax].
      * rewrite (H1 Hn Hmax) in Hr. injection Hr as <-. right. now left.
      * destruct (verifyInput dep (msg_sender c) k p) as [h|] eqn:Hv.
        -- destruct (H3 Hn Hmax) as [s' Hs']; [discriminate|].
           rewrite Hs' in Hr. discriminate Hr.
        -- rewrite (H2 Hn Hmax eq_refl) in Hr. injection Hr as <-.
           right. now right.
Qed.

(** With the counter at its end, a call that has a name and a good proof
    fails all the same. *)
Example createDocument_counter_exhausted :
  createDocument Scenario.deployment "Last" 0x01 [x01]
    (Scenario.asOwner 1700000000) (set_nextDocumentId uint256_max initial)
  = inl (Panic 17).
Proof. vm_compute. reflexivity. Qed.

Lemma isEditor_ext i a s s' :
  owner (_documents s' i) = owner (_documents s i) ->
  _editors s' i a = _editors s i a ->
  isEditor i a s' = isEditor i a s.
Proof.
  intros Ho He. unfold isEditor, viewOnlyExisting. now rewrite Ho, He.
Qed.

(** X15.  What a grant changes.  [allowEditor(id, e)] sent by the owner
    of an existing document, for a non-null [e], succeeds.  After it
    [isEditor(id, e)] is true and [e] may read the document's key; no other
    answer of [isEditor] changes, no record and no owner's list changes;
    [id] is appended to [getDocumentsForEditor(e)] if [e] was not an editor
    already, and no other editor's list changes; one [EditorAllowed] event
    is logged. *)
Theorem allowEditor_grants (i : uint256) (e : address) (c : Context)
    (s : State) n b k o le ca ua :
  getDocument i s = inr (n, b, k, o, le, ca, ua) ->
  msg_sender c = o ->
  e <> address0 ->
  exists s',
    allowEditor i e c s = inr (tt, s') /\
    isEditor i e s' = inr true /\
    acl s' k e = true /\
    (forall j a, j <> i \/ a <> e -> isEditor j a s' = isEditor j a s) /\
    (forall j, getDocument j s' = getDocument j s) /\
    (forall a, getDocumentsByOwner a s' = getDocumentsByOwner a s) /\
    getDocumentsForEditor e s' =
      (if _editors s i e then getDocumentsForEditor e s
       else getDocumentsForEditor e s ++ [i]) /\
    (forall a, a <> e -> getDocumentsForEditor a s' = getDocumentsForEditor a s) /\
    events s' = events s ++ [EditorAllowed i e].
Proof.
  intros Hget Hc He.
  apply getDocument_fields in Hget as [Hex Hd].
  assert (Ho : owner (_documents s i) = msg_sender c)
    by (rewrite Hd; cbn; congruence).
  destruct (allowEditor_succeeds i e c s Hex He Ho) as [s' H].
  exists s'. split; [assumption|].
  apply allowEditor_inv in H.
  destruct H as (_ & _ & _ & _ & Hdoc & Hbo & Hed & Hbe & Hacl & Hev).
  split; [|split; [|split; [|split; [|split; [|split; [|split]]]]]].
  - apply isEditor_true. rewrite Hdoc, Hed, !N.eqb_refl. auto.
  - rewrite Hacl, Hd. cbn. now rewrite !N.eqb_refl.
  - intros j a Hja. apply isEditor_ext; [now rewrite Hdoc|].
    rewrite Hed.
    destruct (N.eqb_spec j i) as [->|Ej]; [|reflexivity].
    destruct (N.eqb_spec a e) as [->|Ea]; [|reflexivity].
    destruct Hja as [Hj|Ha]; [now elim Hj|now elim Ha].
  - intros j. unfold getDocument, viewOnlyExisting. now rewrite Hdoc.
  - intros a. unfold getDocumentsByOwner. now rewrite Hbo.
  - unfold getDocumentsForEditor. rewrite Hbe, N.eqb_refl. cbn.
    destruct (_editors s i e); reflexivity.
  - intros a Ha. unfold getDocumentsForEditor. rewrite Hbe.
    apply N.eqb_neq in Ha. now rewrite Ha.
  - exact Hev.
Qed.

Lemma allowEditor_grants_witness :
  exists s',
    allowEditor 1 Scenario.editorSigner (Scenario.asOwner 1700000100)
      Scenario.created = inr (tt, s') /\
    isEditor 1 Scenario.editorSigner s' = inr true /\
    acl s' 0x1234 Scenario.editorSigner = true.
Proof.
  destruct (allowEditor_grants 1 Scenario.editorSigner
              (Scenario.asOwner 1700000100) Scenario.created
              "First Doc" "" 0x1234 Scenario.ownerSigner Scenario.ownerSigner
              1700000000 1700000000)
    as (s' & H1 & H2 & H3 & _).
  - vm_compute. reflexivity.
  - reflexivity.
  - vm_compute. discriminate.
  - exists s'. auto.
Defined.

End RegistryMore.

(* ===================================================================== *)
(** * Part VIII.  The codec, further                                      *)
(* ===================================================================== *)

Module CodecMore.

Import Codec CodecFacts.
Local Open Scope string_scope.
Local Open Scope list_scope.
Local Open Scope N_scope.

(** ** Base64 *)

Lemma btoa_length : forall b,
  String.length (btoa b) = (4 * ((String.length b + 2) / 3))%nat.
Proof.
  induction b as [|a|a b|a b c r IH] using string_ind3; try reflexivity.
  cbn [btoa String.length]. rewrite IH.
  replace (S (S (S (String.length r))) + 2)%nat
    with (String.length r + 2 + 1 * 3)%nat by lia.
  rewrite Nat.div_add by lia. lia.
Qed.

Lemma binaryOfBytes_length bytes :
  String.length (binaryOfBytes bytes) = List.length bytes.
Proof. induction bytes as [|b r IH]; cbn; [reflexivity|now rewrite IH]. Qed.

(** X16.  Base64 there and back.  [base64ToBytes] gives back every byte
    array that [bytesToBase64] encoded, so two arrays never share an
    encoding; the encoding of n bytes is 4 * ceil(n / 3) characters
    long. *)
Theorem base64_there_and_back (bytes : list byte) :
  base64ToBytes (bytesToBase64 bytes) = inr bytes /\
  (forall bytes', bytesToBase64 bytes' = bytesToBase64 bytes -> bytes' = bytes) /\
  String.length (bytesToBase64 bytes) = (4 * ((List.length bytes + 2) / 3))%nat.
Proof.
  split; [apply base64_round_trip|]. split.
  - intros bytes' H.
    pose proof (base64_round_trip bytes') as R. rewrite H in R.
    rewrite base64_round_trip in R. now injection R.
  - unfold bytesToBase64. now rewrite btoa_length, binaryOfBytes_length.
Qed.

(** ** Reading hexadecimal *)

Lemma hexPairs_length : forall h,
  List.length (hexPairs h) = (String.length h / 2)%nat.
Proof.
  fix IH 1. intros [|a [|b r]]; [reflexivity|reflexivity|].
  cbn [hexPairs List.length String.length]. rewrite IH.
  replace (S (S (String.length r))) with (String.length r + 1 * 2)%nat by lia.
  rewrite Nat.div_add by lia. lia.
Qed.

Lemma hexDigit_bounded c x : hexDigit c = Some x -> x < 16.
Proof.
  unfold hexDigit.
  destruct ((48 <=? N_of_ascii c) && (N_of_ascii c <=? 57)) eqn:E1.
  - apply andb_true_iff in E1 as [H1 H2]. apply N.leb_le in H1, H2.
    intros H. injection H as <-. lia.
  - destruct ((97 <=? N_of_ascii c) && (N_of_ascii c <=? 102)) eqn:E2.
    + apply andb_true_iff in E2 as [H1 H2]. apply N.leb_le in H1, H2.
      intros H. injection H as <-. lia.
    + destruct ((65 <=? N_of_ascii c) && (N_of_ascii c <=? 70)) eqn:E3;
        [|discriminate].
      apply andb_true_iff in E3 as [H1 H2]. apply N.leb_le in H1, H2.
      intros H. injection H as <-. lia.
Qed.

(** [parseInt] of a pair that starts with a digit reads the digits; the
    pair "0x" and the pair "0X", a prefix with nothing behind it, have no
    second digit. *)
Lemma parseInt16_digit_pair a b x :
  hexDigit a = Some x ->
  hexDigit b <> None ->
  parseInt16 (String a (String b "")) =
  match digits16 (String a (String b "")) None with
  | None => None
  | Some m => Some (Z.of_N m)
  end.
Proof.
  intros Ha Hb.
  destruct a as [[|] [|] [|] [|] [|] [|] [|] [|]];
    try (vm_compute in Ha; discriminate Ha);
    try (match goal with
         | |- parseInt16 ?s = _ =>
             transitivity (match digits16 s None with
                           | None => None
                           | Some m => Some (1 * Z.of_N m)%Z
                           end)
         end;
         [reflexivity
         |destruct (digits16 _ None); [f_equal; lia|reflexivity]]).
  destruct b as [[|] [|] [|] [|] [|] [|] [|] [|]];
    try (elim Hb; vm_compute; reflexivity);
    vm_compute; reflexivity.
Qed.

Lemma ToUint8_small m : m < 256 -> ToUint8 (Some (Z.of_N m)) = byte_of_N m.
Proof.
  intros H. unfold ToUint8. f_equal.
  rewrite Z.mod_small by lia. apply N2Z.id.
Qed.

Lemma parseInt16_garbage a b :
  hexDigit a = None -> isWhiteSpace a = false ->
  a <> "-"%char -> a <> "+"%char ->
  parseInt16 (String a (String b "")) = None.
Proof.
  intros Ha Hw Hm Hp.
  destruct a as [[|] [|] [|] [|] [|] [|] [|] [|]];
    try (vm_compute in Ha; discriminate Ha);
    try (vm_compute in Hw; discriminate Hw);
    try (now elim Hm); try (now elim Hp);
    reflexivity.
Qed.

(** X17.  What [hexToBytes] reads.  The result has one byte for every
    two characters left after a leading "0x" is dropped, a last single
    character being ignored.  A pair of hexadecimal digits, in either
    letter case, gives the byte they denote.  A pair that starts with
    anything but a digit, white space or a sign gives the byte 0: nothing
    is ever refused. *)
Theorem hexToBytes_reads_pairs :
  (forall h, List.length (hexToBytes h) =
             (String.length (replace_leading_0x h) / 2)%nat) /\
  (forall a b r x y,
     hexDigit a = Some x -> hexDigit b = Some y ->
     hexToBytes (String "0" (String "x" (String a (String b r)))) =
     byte_of_N (16 * x + y) :: hexToBytes (String "0" (String "x" r))) /\
  (forall a b r,
     hexDigit a = None -> isWhiteSpace a = false ->
     a <> "-"%char -> a <> "+"%char ->
     hexToBytes (String "0" (String "x" (String a (String b r)))) =
     x00 :: hexToBytes (String "0" (String "x" r))).
Proof.
  split; [|split].
  - intros h. apply hexPairs_length.
  - intros a b r x y Ha Hb.
    unfold hexToBytes. cbn [replace_leading_0x hexPairs]. f_equal.
    rewrite (parseInt16_digit_pair a b x Ha) by congruence.
    cbn [digits16]. rewrite Ha, Hb.
    pose proof (hexDigit_bounded _ _ Ha). pose proof (hexDigit_bounded _ _ Hb).
    rewrite ToUint8_small by lia. f_equal; lia.
  - intros a b r Ha Hw Hm Hp.
    unfold hexToBytes. cbn [replace_leading_0x hexPairs].
    now rewrite (parseInt16_garbage a b Ha Hw Hm Hp).
Qed.

Lemma hexToBytes_reads_pairs_witness :
  hexToBytes "0xAb" = [xab] /\ hexToBytes "0xzz" = [x00].
Proof.
  destruct hexToBytes_reads_pairs as (_ & H2 & H3). split.
  - apply (H2 "A"%char "b"%char "" 10 11); reflexivity.
  - apply (H3 "z"%char "z"%char ""); try reflexivity; discriminate.
Defined.

(** ** The blob *)

(** X18.  The layout of a blob.  On a lawful platform [encryptBody]
    succeeds for every plaintext and key, and what it returns is the
    base64 text of the 12-byte nonce followed by what AES-GCM, under the
    digest of the bytes of the key and with that nonce, seals of the UTF-8
    form of the plaintext.  So the decoded blob is 12 + 16 bytes longer
    than the UTF-8 form of the plaintext, its first 12 bytes are the nonce
    and the rest is the sealed plaintext. *)
Theorem encryptBody_layout (P : Platform) (L : Lawful P) (iv : list byte)
    (plainText : list N) (accessKey : string) :
  List.length iv = 12%nat ->
  exists blob combined,
    encryptBody P iv plainText accessKey = inr blob /\
    base64ToBytes blob = inr combined /\
    combined =
      iv ++ AES_GCM_seal P (SHA256 P (hexToBytes accessKey)) iv
              (TextEncoder_encode plainText) /\
    firstn 12 combined = iv /\
    skipn 12 combined =
      AES_GCM_seal P (SHA256 P (hexToBytes accessKey)) iv
        (TextEncoder_encode plainText) /\
    List.length combined =
      (12 + List.length (TextEncoder_encode plainText) + 16)%nat.
Proof.
  intros Hiv. do 2 eexists.
  split; [apply encryptBody_value, L|].
  split; [apply base64_round_trip|]. split; [reflexivity|].
  assert (F : firstn 12 iv = iv) by (rewrite <- Hiv; apply firstn_all).
  assert (S : skipn 12 iv = []) by (rewrite <- Hiv; apply skipn_all).
  split; [|split].
  - rewrite firstn_app, Hiv, Nat.sub_diag, F. cbn [firstn]. apply app_nil_r.
  - rewrite skipn_app, Hiv, Nat.sub_diag, S. reflexivity.
  - rewrite length_app, (seal_length L), Hiv. lia.
Qed.

Lemma encryptBody_layout_witness :
  exists blob combined,
    encryptBody standIn (repeat x01 12) (codeUnits "hello") "0xab" = inr blob /\
    base64ToBytes blob = inr combined /\
    combined =
      repeat x01 12 ++
      AES_GCM_seal standIn (SHA256 standIn (hexToBytes "0xab")) (repeat x01 12)
        (TextEncoder_encode (codeUnits "hello")) /\
    firstn 12 combined = repeat x01 12 /\
    skipn 12 combined =
      AES_GCM_seal standIn (SHA256 standIn (hexToBytes "0xab")) (repeat x01 12)
        (TextEncoder_encode (codeUnits "hello")) /\
    List.length combined =
      (12 + List.length (TextEncoder_encode (codeUnits "hello")) + 16)%nat.
Proof.
  apply (encryptBody_layout standIn standIn_lawful (repeat x01 12)
           (codeUnits "hello") "0xab").
  reflexivity.
Defined.
Lemma base64ToBytes_error blob e :
  base64ToBytes blob = inl e -> e = InvalidCharacterError.
Proof.
  unfold base64ToBytes, atob, andThen.
  destruct (_ =? 1); [intros H; now injection H|].
  destruct (sextets _); [discriminate|intros H; now injection H].
Qed.

(** X19.  Why [decryptBody] fails.  On a lawful platform the key
    derivation never fails, and [decryptBody] is rejected for two reasons
    only: with InvalidCharacterError exactly when the blob is not base64,
    whatever the key; and otherwise with OperationError, when fewer than 16
    bytes follow the nonce or when AES-GCM refuses the tag. *)
Theorem decryptBody_failures (P : Platform) (L : Lawful P)
    (cipherText accessKey : string) :
  (forall e, base64ToBytes cipherText = inl e ->
     decryptBody P cipherText accessKey = inl InvalidCharacterError) /\
  (forall e, decryptBody P cipherText accessKey = inl e ->
     (e = InvalidCharacterError /\
      base64ToBytes cipherText = inl InvalidCharacterError) \/
     (e = OperationError /\
      exists combined,
        base64ToBytes cipherText = inr combined /\
        ((List.length combined < 28)%nat \/
         AES_GCM_open P (SHA256 P (hexToBytes accessKey))
           (firstn 12 combined) (skipn 12 combined) = None))).
Proof.
  split.
  - intros e H. rewrite (base64ToBytes_error _ _ H) in H.
    unfold decryptBody, andThen. now rewrite (deriveKey_succeeds P L), H.
  - intros e.
    destruct (base64ToBytes cipherText) as [e'|combined] eqn:E.
    + pose proof (base64ToBytes_error _ _ E) as ->.
      unfold decryptBody, andThen. rewrite (deriveKey_succeeds P L), E.
      intros H. injection H as <-. now left.
    + rewrite (decryptBody_value P L _ _ _ E), length_skipn.
      destruct (Nat.ltb_spec (List.length combined - 12) 16) as [Hs|Hs].
      * intros H. injection H as <-. right. split; [reflexivity|].
        exists combined. split; [reflexivity|left; lia].
      * destruct (AES_GCM_open P _ _ _) eqn:Ho; [discriminate|].
        intros H. injection H as <-. right. split; [reflexivity|].
        exists combined. split; [reflexivity|now right].
Qed.

Lemma decryptBody_failures_witness :
  decryptBody standIn "not*base64" "0xab" = inl InvalidCharacterError.
Proof.
  destruct (decryptBody_failures standIn standIn_lawful "not*base64" "0xab")
    as [H _].
  apply (H InvalidCharacterError). vm_compute. reflexivity.
Defined.

(** ** Text *)

Lemma utf8Decode_lead b r :
  utf8Decode utf8Start (b :: r) =
  let (out, st') := leadByte b in out ++ utf8Decode st' r.
Proof. reflexivity. Qed.

Lemma utf8Decode_next cp seen needed lo hi b r :
  needed <> 0 -> lo <= b <= hi -> seen + 1 <> needed ->
  utf8Decode (mkUtf8State cp seen needed lo hi) (b :: r) =
  utf8Decode (mkUtf8State (cp * 0x40 + (b - 0x80)) (seen + 1) needed 0x80 0xBF) r.
Proof.
  intros Hn [H1 H2] Hs. cbn [utf8Decode bytesNeeded lowerBoundary upperBoundary
    codePoint bytesSeen].
  apply N.eqb_neq in Hn, Hs. apply N.leb_le in H1, H2.
  now rewrite Hn, H1, H2, Hs.
Qed.

Lemma utf8Decode_last cp seen needed lo hi b r :
  needed <> 0 -> lo <= b <= hi -> seen + 1 = needed ->
  utf8Decode (mkUtf8State cp seen needed lo hi) (b :: r) =
  cp * 0x40 + (b - 0x80) :: utf8Decode utf8Start r.
Proof.
  intros Hn [H1 H2] Hs. cbn [utf8Decode bytesNeeded lowerBoundary upperBoundary
    codePoint bytesSeen].
  apply N.eqb_neq in Hn. apply N.eqb_eq in Hs. apply N.leb_le in H1, H2.
  now rewrite Hn, H1, H2, Hs.
Qed.

Lemma leadByte_1 b : b <= 0x7F -> leadByte b = ([b], utf8Start).
Proof. intros H. unfold leadByte. apply N.leb_le in H. now rewrite H. Qed.

Lemma leadByte_2 b :
  0xC2 <= b <= 0xDF -> leadByte b = ([], mkUtf8State (b - 0xC0) 0 1 0x80 0xBF).
Proof.
  intros [H1 H2]. unfold leadByte.
  replace (b <=? 0x7F) with false by (symmetry; apply N.leb_gt; lia).
  apply N.leb_le in H1, H2. now rewrite H1, H2.
Qed.

Lemma leadByte_3 b :
  0xE0 <= b <= 0xEF ->
  leadByte b = ([], mkUtf8State (b - 0xE0) 0 2
                      (if b =? 0xE0 then 0xA0 else 0x80)
                      (if b =? 0xED then 0x9F else 0xBF)).
Proof.
  intros [H1 H2]. unfold leadByte.
  replace (b <=? 0x7F) with false by (symmetry; apply N.leb_gt; lia).
  replace (b <=? 0xDF) with false by (symmetry; apply N.leb_gt; lia).
  rewrite andb_false_r.
  apply N.leb_le in H1, H2. now rewrite H1, H2.
Qed.

Lemma leadByte_4 b :
  0xF0 <= b <= 0xF4 ->
  leadByte b = ([], mkUtf8State (b - 0xF0) 0 3
                      (if b =? 0xF0 then 0x90 else 0x80)
                      (if b =? 0xF4 then 0x8F else 0xBF)).
Proof.
  intros [H1 H2]. unfold leadByte.
  replace (b <=? 0x7F) with false by (symmetry; apply N.leb_gt; lia).
  replace (b <=? 0xDF) with false by (symmetry; apply N.leb_gt; lia).
  replace (b <=? 0xEF) with false by (symmetry; apply N.leb_gt; lia).
  rewrite !andb_false_r.
  apply N.leb_le in H1, H2. now rewrite H1, H2.
Qed.

(** The decoder reads the UTF-8 form of a scalar value back as that
    value. *)
Lemma utf8Decode_utf8Bytes cp rest :
  cp < 0xD800 \/ 0xE000 <= cp < 0x110000 ->
  utf8Decode utf8Start (List.map Byte.to_N (utf8Bytes cp) ++ rest) =
  cp :: utf8Decode utf8Start rest.
Proof.
  intros Hcp. unfold utf8Bytes.
  destruct (N.ltb_spec cp 0x80) as [H1|H1];
    [|destruct (N.ltb_spec cp 0x800) as [H2|H2];
      [|destruct (N.ltb_spec cp 0x10000) as [H3|H3]]];
    cbn [List.map app].
  - rewrite byte_of_N_to_N by lia.
    rewrite utf8Decode_lead, leadByte_1 by lia. reflexivity.
  - rewrite !byte_of_N_to_N by divlia.
    rewrite utf8Decode_lead, leadByte_2 by divlia. cbn [app].
    rewrite utf8Decode_last by (try reflexivity; try discriminate; divlia).
    f_equal. divlia.
  - rewrite !byte_of_N_to_N by divlia.
    rewrite utf8Decode_lead, leadByte_3 by divlia. cbn [app].
    rewrite utf8Decode_next.
    + rewrite utf8Decode_last by (try reflexivity; try discriminate; divlia).
      f_equal. divlia.
    + discriminate.
    + destruct (N.eqb_spec (0xE0 + cp / 0x1000) 0xE0),
               (N.eqb_spec (0xE0 + cp / 0x1000) 0xED); divlia.
    + discriminate.
  - rewrite !byte_of_N_to_N by divlia.
    rewrite utf8Decode_lead, leadByte_4 by divlia. cbn [app].
    rewrite utf8Decode_next.
    + rewrite utf8Decode_next by (try discriminate; divlia).
      rewrite utf8Decode_last by (try reflexivity; try discriminate; divlia).
      f_equal. divlia.
    + discriminate.
    + destruct (N.eqb_spec (0xF0 + cp / 0x40000) 0xF0),
               (N.eqb_spec (0xF0 + cp / 0x40000) 0xF4); divlia.
    + discriminate.
Qed.

Lemma utf8Decode_scalars cps :
  Forall (fun cp => cp < 0xD800 \/ 0xE000 <= cp < 0x110000) cps ->
  utf8Decode utf8Start (List.map Byte.to_N (flat_map utf8Bytes cps)) = cps.
Proof.
  induction 1 as [|cp r Hcp _ IH]; [reflexivity|].
  cbn [flat_map]. rewrite map_app, utf8Decode_utf8Bytes by assumption.
  now rewrite IH.
Qed.

Lemma scalarValues_codeUnitsOf cps :
  Forall (fun cp => cp < 0xD800 \/ 0xE000 <= cp < 0x110000) cps ->
  scalarValues (flat_map codeUnitsOf cps) = cps.
Proof.
  induction 1 as [|cp r Hcp _ IH]; [reflexivity|].
  cbn [flat_map]. unfold codeUnitsOf at 1.
  destruct (N.ltb_spec cp 0x10000) as [H|H]; cbn [app scalarValues].
  - unfold isHighSurrogate, isLowSurrogate.
    destruct (N.leb_spec 0xD800 cp), (N.leb_spec cp 0xDBFF),
             (N.leb_spec 0xDC00 cp), (N.leb_spec cp 0xDFFF);
      cbn [andb]; try lia; now rewrite IH.
  - unfold isHighSurrogate, isLowSurrogate.
    replace (0xD800 <=? 0xD800 + (cp - 0x10000) / 0x400) with true
      by (symmetry; apply N.leb_le; divlia).
    replace (0xD800 + (cp - 0x10000) / 0x400 <=? 0xDBFF) with true
      by (symmetry; apply N.leb_le; divlia).
    replace (0xDC00 <=? 0xDC00 + (cp - 0x10000) mod 0x400) with true
      by (symmetry; apply N.leb_le; divlia).
    replace (0xDC00 + (cp - 0x10000) mod 0x400 <=? 0xDFFF) with true
      by (symmetry; apply N.leb_le; divlia).
    cbn [andb]. rewrite IH. f_equal. divlia.
Qed.

Lemma text_round_trip_scalars cps :
  Forall (fun cp => cp < 0xD800 \/ 0xE000 <= cp < 0x110000) cps ->
  TextDecoder_decode (TextEncoder_encode (flat_map codeUnitsOf cps)) =
  flat_map codeUnitsOf
    match cps with
    | c :: r => if c =? 0xFEFF then r else cps
    | [] => cps
    end.
Proof.
  intros H. unfold TextDecoder_decode, TextEncoder_encode.
  now rewrite (scalarValues_codeUnitsOf _ H), (utf8Decode_scalars _ H).
Qed.

(** X20.  Text there and back.  A text that is the UTF-16 form of a
    sequence of Unicode scalar values, so one without unpaired surrogates,
    comes back unchanged from [TextEncoder] then [TextDecoder] when it does
    not begin with U+FEFF; when it does, it comes back without that first
    character and otherwise unchanged. *)
Theorem text_there_and_back (cps : list N) :
  Forall (fun cp => cp < 0xD800 \/ 0xE000 <= cp < 0x110000) cps ->
  (hd 0 cps <> 0xFEFF ->
   TextDecoder_decode (TextEncoder_encode (flat_map codeUnitsOf cps)) =
   flat_map codeUnitsOf cps) /\
  TextDecoder_decode (TextEncoder_encode (0xFEFF :: flat_map codeUnitsOf cps)) =
  flat_map codeUnitsOf cps.
Proof.
  intros H. split.
  - intros Hbom. rewrite (text_round_trip_scalars _ H).
    destruct cps as [|c r]; [reflexivity|]. cbn [hd] in Hbom.
    apply N.eqb_neq in Hbom. now rewrite Hbom.
  - assert (H' : Forall (fun cp => cp < 0xD800 \/ 0xE000 <= cp < 0x110000)
                        (0xFEFF :: cps)) by (constructor; [right; lia|exact H]).
    apply (text_round_trip_scalars _ H').
Qed.

Lemma text_there_and_back_witness :
  TextDecoder_decode (TextEncoder_encode [0x20AC; 0xD83D; 0xDE00]) =
  [0x20AC; 0xD83D; 0xDE00] /\
  TextDecoder_decode (TextEncoder_encode [0xFEFF; 0x20AC]) = [0x20AC].
Proof.
  destruct (text_there_and_back [0x20AC; 0x1F600]) as [H1 H2].
  - apply Forall_cons; [left; lia|].
    apply Forall_cons; [right; lia|apply Forall_nil].
  - split; [apply H1; discriminate|].
    destruct (text_there_and_back [0x20AC]) as [_ H3];
      [apply Forall_cons; [left; lia|apply Forall_nil]|exact H3].
Defined.

End CodecMore.

(* ===================================================================== *)
(** * Part IX.  The handshake, further                                    *)
(* ===================================================================== *)

Module HandshakeMore.

Import ITree.ITree ITree.ITreeFacts ITree.Events.State ITree.Events.StateFacts.
Import ITreeNotations.
Import Handshake HandshakeFacts Client.
Local Open Scope itree_scope.
Local Open Scope string_scope.
Local Open Scope list_scope.

Section Outcomes.

Variable env : Environment.

Lemma say_and_stop (doc : DocumentRecord) (m : string) :
  interp_state (handler env)
    (ITree.trigger (setMessage (id doc) m) ;; Ret (@None string)) []
  ≈ Ret ([Did (setMessage (id doc) m) tt], None).
Proof.
  rewrite run_trigger, interp_state_ret.
  rewrite (unit_answer (env _ (setMessage (id doc) m))). reflexivity.
Qed.

(** A run that does not reach the [try] block stores nothing. *)
Lemma not_ready_run (s : Session) (doc : DocumentRecord) :
  instance s = false \/ address s = None \/ address s = Some "" \/
  signer s = false ->
  exists log,
    runWith env s doc ≈ Ret (log, None) /\ storesNoKey log.
Proof.
  intros H. unfold runWith, decryptAccessKey.
  destruct (instance s).
  - destruct (address s) as [[|c u]|].
    + eexists. split; [apply say_and_stop|reflexivity].
    + destruct (signer s).
      * destruct H as [H|[H|[H|H]]]; discriminate.
      * eexists. split; [apply say_and_stop|reflexivity].
    + eexists. split; [apply say_and_stop|reflexivity].
  - eexists. split; [apply say_and_stop|reflexivity].
Qed.

(** A run in a ready session, read for what it stores. *)
Lemma ready_run_stores (s : Session) (doc : DocumentRecord) (user : string) :
  instance s = true -> address s = Some user -> user <> "" ->
  signer s = true ->
  exists log r,
    runWith env s doc ≈ Ret (log, r) /\
    match r with
    | Some key =>
        exists before after,
          log = before ++ Did (setDecryptedKeys (id doc) key) tt :: after /\
          storesNoKey before /\ storesNoKey after
    | None => storesNoKey log
    end.
Proof.
  intros Hinst Haddr Huser Hsigner.
  destruct (ready_run env s doc user Hinst Haddr Huser Hsigner)
    as (log & r & Hrun & H).
  exists log, r. split; [exact Hrun|].
  clear Hrun. cbv zeta in H. revert H.
  repeat match goal with
  | |- context [match ?x with Some _ => _ | None => _ end] =>
      assert_fails (is_var x); destruct x
  | |- context [if ?b then _ else _] =>
      assert_fails (is_var b); destruct b
  end.
  all: intros [-> ->]; cbv beta iota; try reflexivity.
  eexists [_; _; _; _; _; _; _], [_; _].
  split; [reflexivity|]. split; reflexivity.
Qed.

(** So does every run, ready or not. *)
Lemma any_run_stores (s : Session) (doc : DocumentRecord) :
  exists log r,
    runWith env s doc ≈ Ret (log, r) /\
    match r with
    | Some key =>
        exists before after,
          log = before ++ Did (setDecryptedKeys (id doc) key) tt :: after /\
          storesNoKey before /\ storesNoKey after
    | None => storesNoKey log
    end.
Proof.
  destruct (instance s) eqn:Hinst.
  2: { destruct (not_ready_run s doc) as (log & Hrun & Hq); [now left|].
       now exists log, None. }
  destruct (address s) as [user|] eqn:Haddr.
  2: { destruct (not_ready_run s doc) as (log & Hrun & Hq);
         [now right; left|].
       now exists log, None. }
  destruct user as [|c u].
  1: { destruct (not_ready_run s doc) as (log & Hrun & Hq);
         [now right; right; left|].
       now exists log, None. }
  destruct (signer s) eqn:Hsigner.
  2: { destruct (not_ready_run s doc) as (log & Hrun & Hq);
         [now right; right; right|].
       now exists log, None. }
  apply (ready_run_stores s doc (String c u)); try assumption. discriminate.
Qed.

End Outcomes.

(** X23.  A session that is not ready.  Without a relayer instance or
    without an account [decryptAccessKey] returns null after one call
    only, the message "Encryption service not ready."; with both but
    without a signer, after the message "Connect a signer to decrypt.".
    Nothing else is called: not the relayer, not the wallet, and the
    loading flag is not raised. *)
Theorem not_ready_says_why (env : Environment) (s : Session)
    (doc : DocumentRecord) :
  (instance s = false \/ address s = None \/ address s = Some "" ->
   runWith env s doc
   ≈ Ret ([Did (setMessage (id doc) "Encryption service not ready.") tt],
          None)) /\
  (instance s = true ->
   (exists c r, address s = Some (String c r)) ->
   signer s = false ->
   runWith env s doc
   ≈ Ret ([Did (setMessage (id doc) "Connect a signer to decrypt.") tt],
          None)).
Proof.
  unfold runWith, decryptAccessKey. split.
  - intros H. destruct (instance s); [|apply say_and_stop].
    destruct (address s) as [[|c u]|]; try apply say_and_stop.
    destruct H as [H|[H|H]]; discriminate.
  - intros -> (c & r & ->) ->. apply say_and_stop.
Qed.

(** X24.  How a handshake ends.  In a ready session, whatever the
    relayer, the clock, the wallet and [getAddress] answer, a run of
    [decryptAccessKey] raises the loading flag first and lowers it last.
    It returns a key exactly when the relayer gave a keypair and typed
    data, the wallet signed, the relayer answered the submission, the
    answer holds a value for the handle of the document that is not zero,
    and [getAddress] accepted "0x" followed by that value in hexadecimal,
    padded to 40 digits; the key returned is then what [getAddress]
    answered, and it was stored for the document, once, just before the
    message "Access key decrypted".  In every other case the run returns
    null, no key was stored, and the failure was logged and reported to
    the user. *)
Theorem handshake_outcome (env : Environment) (s : Session)
    (doc : DocumentRecord) (user : string) :
  instance s = true ->
  address s = Some user ->
  user <> "" ->
  signer s = true ->
  exists log r,
    runWith env s doc ≈ Ret (log, r) /\
    hd_error log = Some (Did (setKeyLoading (id doc) true) tt) /\
    match r with
    | Some key =>
        exists keypair eip712 signature result v before,
          env _ generateKeypair = Some keypair /\
          env _ (createEIP712 (publicKey keypair) [normalizedContract s]
                   (toString (env _ Date_now / 1000)) "7") = Some eip712 /\
          env _ (signTypedData (domain eip712)
                   (UserDecryptRequestVerification eip712) (message eip712))
            = Some signature /\
          env _ (userDecrypt [(encryptedAccessKey doc, normalizedContract s)]
                   (privateKey keypair) (publicKey keypair)
                   (replace_first_0x signature) [normalizedContract s] user
                   (toString (env _ Date_now / 1000)) "7") = Some result /\
          lookup (encryptedAccessKey doc) result = Some v /\
          v <> 0%N /\
          env _ (getAddress ("0x" ++ padStart40 (toString16 v))%string)
            = Some key /\
          log = before ++
                [Did (getAddress ("0x" ++ padStart40 (toString16 v))%string)
                     (Some key);
                 Did (setDecryptedKeys (id doc) key) tt;
                 Did (setMessage (id doc) "Access key decrypted") tt;
                 Did (setKeyLoading (id doc) false) tt] /\
          storesNoKey before
    | None =>
        storesNoKey log /\
        (exists before,
           log = before ++
                 [Did (console_error "Decrypt access key failed") tt;
                  Did (setMessage (id doc) "Failed to decrypt access key.") tt;
                  Did (setKeyLoading (id doc) false) tt]) /\
        ~ (exists keypair eip712 signature result v key,
             env _ generateKeypair = Some keypair /\
             env _ (createEIP712 (publicKey keypair) [normalizedContract s]
                      (toString (env _ Date_now / 1000)) "7") = Some eip712 /\
             env _ (signTypedData (domain eip712)
                      (UserDecryptRequestVerification eip712)
                      (message eip712))
               = Some signature /\
             env _ (userDecrypt
                      [(encryptedAccessKey doc, normalizedContract s)]
                      (privateKey keypair) (publicKey keypair)
                      (replace_first_0x signature) [normalizedContract s] user
                      (toString (env _ Date_now / 1000)) "7") = Some result /\
             lookup (encryptedAccessKey doc) result = Some v /\
             v <> 0%N /\
             env _ (getAddress ("0x" ++ padStart40 (toString16 v))%string)
               = Some key)
    end.
Proof.
  intros Hinst Haddr Huser Hsigner.
  destruct (ready_run env s doc user Hinst Haddr Huser Hsigner)
    as (log & r & Hrun & H).
  exists log, r. split; [exact Hrun|].
  clear Hrun. cbv zeta in H.
  assert (Hfail : forall before,
            log = before ++ failureReport doc ->
            r = None ->
            storesNoKey before ->
            storesNoKey log /\
            exists before',
              log = before' ++
                    [Did (console_error "Decrypt access key failed") tt;
                     Did (setMessage (id doc) "Failed to decrypt access key.") tt;
                     Did (setKeyLoading (id doc) false) tt]).
  { intros before -> _ Hq. split; [|now exists before].
    unfold storesNoKey in *. now rewrite forallb_app, Hq. }
  destruct (env _ generateKeypair) as [keypair|] eqn:Egen.
  2: { destruct H as [Hlog ->]. split; [now rewrite Hlog|].
       destruct (Hfail [Did (setKeyLoading (id doc) true) tt;
                        Did generateKeypair None] Hlog eq_refl eq_refl)
         as [H1 H2].
       split; [exact H1|]. split; [exact H2|].
       intros (kp & e & sg & res & v & key & F & _). discriminate F. }
  destruct (env _ (createEIP712 (publicKey keypair) [normalizedContract s]
                     (toString (env _ Date_now / 1000)) "7"))
    as [eip712|] eqn:Ereq.
  2: { destruct H as [Hlog ->]. split; [now rewrite Hlog|].
       rewrite app_assoc in Hlog.
       destruct (Hfail _ Hlog eq_refl eq_refl) as [H1 H2].
       split; [exact H1|]. split; [exact H2|].
       intros (kp & e & sg & res & v & key & F1 & F2 & _).
       injection F1 as <-. congruence. }
  destruct (env _ (signTypedData (domain eip712)
                     (UserDecryptRequestVerification eip712) (message eip712)))
    as [signature|] eqn:Esig.
  2: { destruct H as [Hlog ->]. split; [now rewrite Hlog|].
       rewrite app_assoc in Hlog.
       destruct (Hfail _ Hlog eq_refl eq_refl) as [H1 H2].
       split; [exact H1|]. split; [exact H2|].
       intros (kp & e & sg & res & v & key & F1 & F2 & F3 & _).
       injection F1 as <-. rewrite Ereq in F2. injection F2 as <-.
       congruence. }
  destruct (env _ (userDecrypt [(encryptedAccessKey doc, normalizedContract s)]
                     (privateKey keypair) (publicKey keypair)
                     (replace_first_0x signature) [normalizedContract s] user
                     (toString (env _ Date_now / 1000)) "7"))
    as [result|] eqn:Esub.
  2: { destruct H as [Hlog ->]. split; [now rewrite Hlog|].
       rewrite app_assoc in Hlog.
       destruct (Hfail _ Hlog eq_refl eq_refl) as [H1 H2].
       split; [exact H1|]. split; [exact H2|].
       intros (kp & e & sg & res & v & key & F1 & F2 & F3 & F4 & _).
       injection F1 as <-. rewrite Ereq in F2. injection F2 as <-.
       rewrite Esig in F3. injection F3 as <-. congruence. }
  assert (Hchain : forall kp e sg res,
            env _ generateKeypair = Some kp ->
            env _ (createEIP712 (publicKey kp) [normalizedContract s]
                     (toString (env _ Date_now / 1000)) "7") = Some e ->
            env _ (signTypedData (domain e)
                     (UserDecryptRequestVerification e) (message e))
              = Some sg ->
            env _ (userDecrypt [(encryptedAccessKey doc, normalizedContract s)]
                     (privateKey kp) (publicKey kp)
                     (replace_first_0x sg) [normalizedContract s] user
                     (toString (env _ Date_now / 1000)) "7") = Some res ->
            res = result).
  { intros kp e sg res F1 F2 F3 F4.
    rewrite Egen in F1. injection F1 as <-.
    rewrite Ereq in F2. injection F2 as <-.
    rewrite Esig in F3. injection F3 as <-.
    rewrite Esub in F4. now injection F4 as <-. }
  rewrite Egen in Hchain.
  destruct (lookup (encryptedAccessKey doc) result) as [v|] eqn:Elook.
  2: { destruct H as [Hlog ->]. split; [now rewrite Hlog|].
       destruct (Hfail _ Hlog eq_refl eq_refl) as [H1 H2].
       split; [exact H1|]. split; [exact H2|].
       intros (kp & e & sg & res & v & key & F1 & F2 & F3 & F4 & F5 & _).
       rewrite (Hchain kp e sg res F1 F2 F3 F4) in F5. congruence. }
  destruct (N.eqb v 0) eqn:Ezero.
  1: { destruct H as [Hlog ->]. split; [now rewrite Hlog|].
       destruct (Hfail _ Hlog eq_refl eq_refl) as [H1 H2].
       split; [exact H1|]. split; [exact H2|].
       intros (kp & e & sg & res & v' & key & F1 & F2 & F3 & F4 & F5 & F6 & _).
       rewrite (Hchain kp e sg res F1 F2 F3 F4) in F5.
       apply N.eqb_eq in Ezero. congruence. }
  destruct (env _ (getAddress ("0x" ++ padStart40 (toString16 v))%string))
    as [key|] eqn:Eaddr.
  2: { destruct H as [Hlog ->]. split; [now rewrite Hlog|].
       rewrite app_assoc in Hlog.
       destruct (Hfail _ Hlog eq_refl eq_refl) as [H1 H2].
       split; [exact H1|]. split; [exact H2|].
       intros (kp & e & sg & res & v' & key & F1 & F2 & F3 & F4 & F5 & F6 & F7).
       rewrite (Hchain kp e sg res F1 F2 F3 F4) in F5.
       rewrite Elook in F5. injection F5 as <-. congruence. }
  destruct H as [Hlog ->]. split; [now rewrite Hlog|].
  exists keypair, eip712, signature, result, v.
  eexists. repeat (split; [first [reflexivity|assumption]|]).
  split; [now apply N.eqb_neq|]. split; [exact Eaddr|].
  split; [exact Hlog|]. reflexivity.
Qed.

Lemma handshake_outcome_witness :
  exists log r,
    runWith scripted readySession firstDoc ≈ Ret (log, r) /\
    hd_error log = Some (Did (setKeyLoading 1 true) tt) /\
    r = Some "0x1234000000000000000000000000000000000000".
Proof.
  destruct (handshake_outcome scripted readySession firstDoc
              "0xf39Fd6e51aad88F6F4ce6aB8827279cffFb92266"
              eq_refl eq_refl ltac:(discriminate) eq_refl)
    as (log & r & Hrun & Hhd & Hout).
  exists log, r. split; [exact Hrun|]. split; [exact Hhd|].
  destruct r as [key|].
  - destruct Hout as (kp & e & sg & res & v & before & F1 & F2 & F3 & F4 & F5
                      & _ & F7 & _).
    injection F1 as <-. injection F2 as <-. injection F3 as <-.
    injection F4 as <-. injection F5 as <-. injection F7 as <-.
    reflexivity.
  - destruct Hout as (_ & _ & Hno). exfalso. apply Hno.
    exists (mkKeypair "ephemeral-public" "ephemeral-private").
    eexists. eexists. eexists. eexists. eexists.
    repeat split; try reflexivity. discriminate.
Defined.

(** ** The cache of keys *)

Lemma keysAfter_app l1 l2 keys :
  KeyCache.keysAfter (l1 ++ l2) keys
  = KeyCache.keysAfter l2 (KeyCache.keysAfter l1 keys).
Proof. unfold KeyCache.keysAfter. apply fold_left_app. Qed.

Lemma keysAfter_storesNoKey l : forall keys,
  storesNoKey l -> KeyCache.keysAfter l keys = keys.
Proof.
  unfold storesNoKey.
  induction l as [|entry l IH]; intros keys H; [reflexivity|].
  cbn [forallb] in H. apply andb_true_iff in H as [He Hl].
  change (KeyCache.keysAfter (entry :: l) keys)
    with (KeyCache.keysAfter l (KeyCache.keysAfter [entry] keys)).
  assert (E : KeyCache.keysAfter [entry] keys = keys).
  { destruct entry as [T e answer]. destruct e; try reflexivity.
    discriminate He. }
  rewrite E. now apply IH.
Qed.

(** X27.  The key is fetched once.  With a key in the record for the
    document, [ensureKey] returns it and calls nothing, whatever the
    session.  Without one, [ensureKey] is a run of [decryptAccessKey],
    in any session and whatever the relayer, the wallet and [getAddress]
    answer; when that run returns a key, the record as the run leaves it
    holds the key for the document, so a later [ensureKey] returns the
    same key without a call; when it returns null the record is as it
    was.  The record is indexed by [Number(doc.id)]: a document whose id
    has the same [Number] finds the same key. *)
Theorem ensureKey_fetches_once (env : Environment) (s : Session)
    (doc : DocumentRecord) (keys : KeyCache.Keys) :
  (forall cached,
     keys (Client.Number (id doc)) = Some cached -> cached <> "" ->
     KeyCache.runEnsureKey env keys s doc ≈ Ret ([], Some cached)) /\
  (keys (Client.Number (id doc)) = None \/
   keys (Client.Number (id doc)) = Some "" ->
   exists log r,
     KeyCache.runEnsureKey env keys s doc ≈ Ret (log, r) /\
     runWith env s doc ≈ Ret (log, r) /\
     match r with
     | Some key =>
         KeyCache.keysAfter log keys (Client.Number (id doc)) = Some key /\
         (key <> "" ->
          forall doc',
            Client.Number (id doc') = Client.Number (id doc) ->
            KeyCache.runEnsureKey env (KeyCache.keysAfter log keys) s doc'
            ≈ Ret ([], Some key))
     | None => forall n, KeyCache.keysAfter log keys n = keys n
     end).
Proof.
  assert (Hhit : forall (ks : KeyCache.Keys) d cached,
            ks (Client.Number (id d)) = Some cached -> cached <> "" ->
            KeyCache.runEnsureKey env ks s d ≈ Ret ([], Some cached)).
  { intros ks d cached Hk Hc. unfold KeyCache.runEnsureKey, KeyCache.ensureKey.
    rewrite Hk. destruct cached as [|c r]; [now elim Hc|].
    rewrite interp_state_ret. reflexivity. }
  split; [apply Hhit|].
  intros Hmiss.
  destruct (any_run_stores env s doc) as (log & r & Hrun & Hout).
  exists log, r.
  assert (Hsame : KeyCache.runEnsureKey env keys s doc ≈ Ret (log, r)).
  { unfold KeyCache.runEnsureKey, KeyCache.ensureKey.
    destruct Hmiss as [-> | ->]; exact Hrun. }
  split; [exact Hsame|]. split; [exact Hrun|].
  destruct r as [key|].
  - destruct Hout as (before & after & -> & Hb & Ha).
    assert (E : KeyCache.keysAfter
                  (before ++ Did (setDecryptedKeys (id doc) key) tt :: after)
                  keys
                = KeyCache.updateKeys keys (id doc) key).
    { rewrite keysAfter_app, (keysAfter_storesNoKey before keys Hb).
      change (Did (setDecryptedKeys (id doc) key) tt :: after)
        with ([Did (setDecryptedKeys (id doc) key) tt] ++ after).
      rewrite keysAfter_app. now apply keysAfter_storesNoKey. }
    assert (Hkey : KeyCache.updateKeys keys (id doc) key
                     (Client.Number (id doc)) = Some key)
      by (unfold KeyCache.updateKeys; now rewrite N.eqb_refl).
    rewrite E. split; [exact Hkey|].
    intros Hne doc' Hd. apply Hhit; [|assumption]. now rewrite Hd.
  - intros n. now rewrite (keysAfter_storesNoKey log keys Hout).
Qed.

Lemma ensureKey_fetches_once_witness :
  KeyCache.runEnsureKey scripted
    (fun n => if (n =? 1)%N then Some "0x1234000000000000000000000000000000000000"
              else None)
    readySession firstDoc
  ≈ Ret ([], Some "0x1234000000000000000000000000000000000000").
Proof.
  destruct (ensureKey_fetches_once scripted readySession firstDoc
              (fun n => if (n =? 1)%N
                        then Some "0x1234000000000000000000000000000000000000"
                        else None)) as [H _].
  apply H; [reflexivity|discriminate].
Defined.

(** Two documents whose ids differ beyond the 53rd bit share a place in
    the record. *)
Example keys_shared_beyond_53_bits :
  KeyCache.updateKeys (fun _ => None) (2 ^ 53) "0xkey"
    (Client.Number (2 ^ 53 + 1)) = Some "0xkey".
Proof. vm_compute. reflexivity. Qed.

End HandshakeMore.

(* ===================================================================== *)
(** * Part X.  Properties of the document list                            *)
(* ===================================================================== *)

Module ClientFacts.

Import Registry RegistryFacts Client.
Local Open Scope string_scope.
Local Open Scope list_scope.
Local Open Scope N_scope.

(** ** Numbers and ids *)

Lemma Number_exact n : n < 2 ^ 53 -> Number n = n.
Proof.
  intros H. unfold Number.
  destruct (N.leb_spec (N.size n) 53) as [_|Hs]; [reflexivity|].
  exfalso. pose proof (N.size_le n) as Hle.
  assert (Hpow : 2 ^ 54 <= 2 ^ N.size n) by (apply N.pow_le_mono_r; lia).
  rewrite N.succ_double_spec in Hle.
  change (2 ^ 54) with (2 * 2 ^ 53) in Hpow. lia.
Qed.

Lemma BigInt_toString n : BigInt (Handshake.toString n) = Some n.
Proof.
  unfold BigInt, Handshake.toString.
  rewrite DecimalString.NilEmpty.usu. cbn.
  now rewrite DecimalN.Unsigned.of_to.
Qed.

Lemma toString_injective n m :
  Handshake.toString n = Handshake.toString m -> n = m.
Proof.
  intros H. pose proof (BigInt_toString n) as Hn.
  rewrite H, BigInt_toString in Hn. now injection Hn.
Qed.

Lemma seen_toString i seen :
  existsb (String.eqb (Handshake.toString i)) (List.map Handshake.toString seen)
  = true <-> In i seen.
Proof.
  rewrite existsb_exists. split.
  - intros (x & Hx & He). apply in_map_iff in Hx as (j & <- & Hj).
    apply String.eqb_eq, toString_injective in He. now subst.
  - intros H. exists (Handshake.toString i).
    split; [now apply in_map|apply String.eqb_refl].
Qed.

Lemma setOf_ids : forall l seen,
  exists l',
    setOf (List.map Handshake.toString seen) (List.map Handshake.toString l)
      = List.map Handshake.toString l' /\
    NoDup l' /\
    forall i, In i l' <-> In i l /\ ~ In i seen.
Proof.
  induction l as [|v r IH]; intros seen.
  - exists []. cbn. split; [reflexivity|]. split; [constructor|].
    intros i. tauto.
  - cbn [List.map setOf].
    destruct (existsb _ _) eqn:E.
    + apply seen_toString in E.
      destruct (IH seen) as (l' & H1 & H2 & H3). exists l'.
      split; [assumption|]. split; [assumption|].
      intros i. rewrite H3. cbn. split; [tauto|].
      intros [[<-|Hi] Hn]; [contradiction|tauto].
    + assert (Hv : ~ In v seen).
      { intros Hin. apply seen_toString in Hin. congruence. }
      destruct (IH (v :: seen)) as (l' & H1 & H2 & H3).
      exists (v :: l'). cbn [List.map] in *. rewrite H1.
      split; [reflexivity|]. split.
      * constructor; [|assumption]. rewrite H3. cbn. tauto.
      * intros i. cbn. rewrite H3. cbn.
        destruct (N.eq_dec v i) as [->|Hne]; tauto.
Qed.

Lemma allOf_BigInt l : allOf BigInt (List.map Handshake.toString l) = Some l.
Proof.
  induction l as [|v r IH]; [reflexivity|].
  cbn. now rewrite BigInt_toString, IH.
Qed.

Lemma uniqueIds_spec ownerDocs editorDocs :
  exists ids,
    uniqueIds ownerDocs editorDocs = Some ids /\
    NoDup ids /\
    forall i, In i ids <-> In i (ownerDocs ++ editorDocs).
Proof.
  unfold uniqueIds.
  destruct (setOf_ids (ownerDocs ++ editorDocs) []) as (l' & H1 & H2 & H3).
  cbn [List.map] in H1. rewrite H1, allOf_BigInt.
  exists l'. split; [reflexivity|]. split; [assumption|].
  intros i. rewrite H3. cbn. tauto.
Qed.

Lemma allOf_Some {A B} (f : A -> option B) : forall l bs,
  allOf f l = Some bs -> Forall2 (fun a b => f a = Some b) l bs.
Proof.
  induction l as [|a r IH]; intros bs H; cbn in H.
  - injection H as <-. constructor.
  - destruct (f a) as [b|] eqn:E; [|discriminate].
    destruct (allOf f r) as [bs'|]; [|discriminate].
    injection H as <-. constructor; auto.
Qed.

Lemma allOf_all {A B} (f : A -> option B) : forall l,
  (forall a, In a l -> exists b, f a = Some b) ->
  exists bs, allOf f l = Some bs.
Proof.
  induction l as [|a r IH]; intros H; cbn.
  - eauto.
  - destruct (H a (or_introl eq_refl)) as [b ->].
    destruct IH as [bs ->]; [intros; apply H; now right|]. eauto.
Qed.

Lemma allOf_Forall {A B} (f : A -> option B) (Q : B -> Prop) : forall l bs,
  allOf f l = Some bs ->
  (forall a b, In a l -> f a = Some b -> Q b) ->
  Forall Q bs.
Proof.
  induction l as [|a r IH]; intros bs H HQ; cbn in H.
  - injection H as <-. constructor.
  - destruct (f a) as [b|] eqn:E; [|discriminate].
    destruct (allOf f r) as [bs'|]; [|discriminate].
    injection H as <-. constructor.
    + apply (HQ a); [now left|assumption].
    + apply IH; [reflexivity|]. intros a' b' Hin. apply HQ. now right.
Qed.

(** ** The sort *)

Lemma insertByUpdatedAt_perm x : forall l,
  Permutation (insertByUpdatedAt x l) (x :: l).
Proof.
  induction l as [|y r IH]; cbn; [reflexivity|].
  destruct (_ <? _); [|reflexivity].
  rewrite IH. apply perm_swap.
Qed.

Lemma sortByUpdatedAt_perm : forall l, Permutation (sortByUpdatedAt l) l.
Proof.
  induction l as [|x r IH]; cbn; [constructor|].
  rewrite insertByUpdatedAt_perm. now constructor.
Qed.

Lemma insertByUpdatedAt_sorted x : forall l,
  StronglySorted
    (fun d d' => Handshake.updatedAt d' <= Handshake.updatedAt d) l ->
  StronglySorted
    (fun d d' => Handshake.updatedAt d' <= Handshake.updatedAt d)
    (insertByUpdatedAt x l).
Proof.
  induction l as [|y r IH]; intros Hs; cbn.
  - repeat constructor.
  - inversion Hs as [|? ? Hr Hall]; subst.
    destruct (N.ltb_spec (Handshake.updatedAt x) (Handshake.updatedAt y)).
    + constructor; [now apply IH|].
      apply (Permutation_Forall (Permutation_sym (insertByUpdatedAt_perm x r))).
      constructor; [lia|assumption].
    + constructor; [assumption|].
      constructor; [assumption|].
      eapply Forall_impl; [|exact Hall]. cbn. intros; lia.
Qed.

Lemma sortByUpdatedAt_sorted : forall l,
  StronglySorted
    (fun d d' => Handshake.updatedAt d' <= Handshake.updatedAt d)
    (sortByUpdatedAt l).
Proof.
  induction l as [|x r IH]; cbn; [constructor|].
  now apply insertByUpdatedAt_sorted.
Qed.

Lemma loadDocument_id abi client account i d :
  loadDocument abi client account i = Some d -> Handshake.id d = i.
Proof.
  unfold loadDocument.
  destruct (read_getDocument client i) as [[[[[[[n b] k] o] le] ca] ua]|];
    [|discriminate].
  destruct (read_isEditor client i account); [|discriminate].
  intros H. injection H as <-. reflexivity.
Qed.

Lemma loaded_ids abi client account ids docs :
  allOf (loadDocument abi client account) ids = Some docs ->
  List.map Handshake.id docs = ids.
Proof.
  intros H. apply allOf_Some in H.
  induction H as [|i d ids docs Hd _ IH]; [reflexivity|].
  cbn. now rewrite (loadDocument_id _ _ _ _ _ Hd), IH.
Qed.

Lemma fetchDocuments_ready abi client a :
  fetchDocuments abi (Some client) (Some a) true =
  SetLoadingDocs true
  :: match loadDocuments abi client a with
     | Some loadedDocs => [SetDocuments loadedDocs]
     | None => [ConsoleError "Failed to load documents"]
     end
  ++ [SetLoadingDocs false].
Proof. reflexivity. Qed.

Lemma allOf_none {A B} (f : A -> option B) : forall l a,
  In a l -> f a = None -> allOf f l = None.
Proof.
  induction l as [|x r IH]; intros a Hin Ha; [destruct Hin|].
  cbn. destruct Hin as [->|Hin].
  - now rewrite Ha.
  - destruct (f x); [|reflexivity]. now rewrite (IH a Hin Ha).
Qed.

Lemma loadDocument_fields abi client account i d :
  loadDocument abi client account i = Some d ->
  exists k o le ca ua,
    read_getDocument client (Handshake.id d) =
      Some (Handshake.name d, Handshake.encryptedBody d, k, o, le, ca, ua) /\
    Handshake.encryptedAccessKey d = bytes32Text abi k /\
    Handshake.owner d = addressText abi o /\
    Handshake.lastEditor d = addressText abi le /\
    Handshake.createdAt d = Number ca /\
    Handshake.updatedAt d = Number ua /\
    read_isEditor client (Handshake.id d) account = Some (Handshake.canEdit d).
Proof.
  unfold loadDocument.
  destruct (read_getDocument client i) as [[[[[[[n b] k] o] le] ca] ua]|] eqn:Ed;
    [|discriminate].
  destruct (read_isEditor client i account) as [c|] eqn:Ee; [|discriminate].
  intros H. injection H as <-. cbn. exists k, o, le, ca, ua.
  repeat split; assumption.
Qed.

(** X21.  What the list shows.  Without a public client, an account or a
    valid contract address the one effect of [fetchDocuments] is to empty
    the list, whatever the reads would answer.  Otherwise it raises the
    loading flag, then either shows a list or logs a failure and leaves
    the list as it was, and lowers the flag.  It shows a list when the two
    list reads answer and, for every id of the two lists, [getDocument]
    and [isEditor] answer: the list then holds each of these ids exactly
    once and no other, by decreasing [updatedAt], and each record has the
    fields [getDocument] answered for its id, the two times as [Number]s,
    and for [canEdit] the answer of [isEditor].  It logs the failure when
    one of these reads throws.  Whatever the reads answer, a list it shows
    is by decreasing [updatedAt] and names no document twice. *)
Theorem fetchDocuments_shows (abi : Abi) (publicClient : option PublicClient)
    (account : option address) (contractIsValid : bool) :
  (publicClient = None \/ account = None \/ contractIsValid = false ->
   fetchDocuments abi publicClient account contractIsValid = [SetDocuments []]) /\
  (forall client a,
     publicClient = Some client -> account = Some a -> contractIsValid = true ->
     (exists docs,
        fetchDocuments abi publicClient account contractIsValid =
          [SetLoadingDocs true; SetDocuments docs; SetLoadingDocs false]) \/
     fetchDocuments abi publicClient account contractIsValid =
       [SetLoadingDocs true; ConsoleError "Failed to load documents";
        SetLoadingDocs false]) /\
  (forall docs,
     In (SetDocuments docs)
        (fetchDocuments abi publicClient account contractIsValid) ->
     StronglySorted
       (fun d d' => Handshake.updatedAt d' <= Handshake.updatedAt d) docs /\
     NoDup (List.map Handshake.id docs)) /\
  (forall client a ownerDocs editorDocs,
     publicClient = Some client -> account = Some a -> contractIsValid = true ->
     read_getDocumentsByOwner client a = Some ownerDocs ->
     read_getDocumentsForEditor client a = Some editorDocs ->
     (forall i, In i (ownerDocs ++ editorDocs) ->
        read_getDocument client i <> None /\ read_isEditor client i a <> None) ->
     exists docs,
       fetchDocuments abi publicClient account contractIsValid =
         [SetLoadingDocs true; SetDocuments docs; SetLoadingDocs false] /\
       NoDup (List.map Handshake.id docs) /\
       (forall i, In i (List.map Handshake.id docs) <->
                  In i (ownerDocs ++ editorDocs)) /\
       StronglySorted
         (fun d d' => Handshake.updatedAt d' <= Handshake.updatedAt d) docs /\
       Forall (fun d =>
         exists k o le ca ua,
           read_getDocument client (Handshake.id d) =
             Some (Handshake.name d, Handshake.encryptedBody d,
                   k, o, le, ca, ua) /\
           Handshake.encryptedAccessKey d = bytes32Text abi k /\
           Handshake.owner d = addressText abi o /\
           Handshake.lastEditor d = addressText abi le /\
           Handshake.createdAt d = Number ca /\
           Handshake.updatedAt d = Number ua /\
           read_isEditor client (Handshake.id d) a = Some (Handshake.canEdit d))
         docs) /\
  (forall client a,
     publicClient = Some client -> account = Some a -> contractIsValid = true ->
     read_getDocumentsByOwner client a = None \/
     read_getDocumentsForEditor client a = None \/
     (exists ownerDocs editorDocs i,
        read_getDocumentsByOwner client a = Some ownerDocs /\
        read_getDocumentsForEditor client a = Some editorDocs /\
        In i (ownerDocs ++ editorDocs) /\
        (read_getDocument client i = None \/ read_isEditor client i a = None)) ->
     fetchDocuments abi publicClient account contractIsValid =
       [SetLoadingDocs true; ConsoleError "Failed to load documents";
        SetLoadingDocs false]).
Proof.
  split; [|split; [|split; [|split]]].
  - intros H. unfold fetchDocuments.
    destruct publicClient as [client|]; [|reflexivity].
    destruct account as [a|]; [|reflexivity].
    destruct contractIsValid; [|reflexivity].
    destruct H as [H|[H|H]]; discriminate.
  - intros client a -> -> ->. rewrite fetchDocuments_ready.
    destruct (loadDocuments abi client a) as [docs|];
      [left; exists docs; reflexivity|right; reflexivity].
  - intros docs H.
    assert (E : docs = [] \/
                exists client a, loadDocuments abi client a = Some docs).
    { unfold fetchDocuments in H.
      destruct publicClient as [client|];
        [|destruct H as [H|[]]; injection H as <-; now left].
      destruct account as [a|];
        [|destruct H as [H|[]]; injection H as <-; now left].
      destruct contractIsValid;
        [|destruct H as [H|[]]; injection H as <-; now left].
      right. exists client, a.
      destruct (loadDocuments abi client a) as [docs'|].
      - destruct H as [H|[H|[H|[]]]]; try discriminate. now injection H as <-.
      - destruct H as [H|[H|[H|[]]]]; discriminate. }
    destruct E as [->|(client & a & E)]; [split; constructor|].
    unfold loadDocuments in E.
    destruct (read_getDocumentsByOwner client a) as [ownerDocs|]; [|discriminate].
    destruct (read_getDocumentsForEditor client a) as [editorDocs|];
      [|discriminate].
    destruct (uniqueIds_spec ownerDocs editorDocs) as (ids & Hu & Hnd & _).
    rewrite Hu in E.
    destruct (allOf (loadDocument abi client a) ids) as [loaded|] eqn:El;
      [|discriminate].
    injection E as <-. split; [apply sortByUpdatedAt_sorted|].
    apply (Permutation_NoDup
             (Permutation_map Handshake.id
                (Permutation_sym (sortByUpdatedAt_perm loaded)))).
    now rewrite (loaded_ids _ _ _ _ _ El).
  - intros client a ownerDocs editorDocs -> -> -> Ho He Hreads.
    rewrite fetchDocuments_ready. unfold loadDocuments. rewrite Ho, He.
    destruct (uniqueIds_spec ownerDocs editorDocs) as (ids & Hu & Hnd & Hin).
    rewrite Hu.
    destruct (allOf_all (loadDocument abi client a) ids) as (loaded & El).
    { intros i Hi. apply Hin, Hreads in Hi as [Hd Hc]. unfold loadDocument.
      destruct (read_getDocument client i) as [[[[[[[n b] k] o] le] ca] ua]|];
        [|now elim Hd].
      destruct (read_isEditor client i a); [eauto|now elim Hc]. }
    rewrite El. exists (sortByUpdatedAt loaded).
    pose proof (sortByUpdatedAt_perm loaded) as Hperm.
    pose proof (loaded_ids _ _ _ _ _ El) as Hids.
    split; [reflexivity|]. split; [|split; [|split]].
    + apply (Permutation_NoDup
               (Permutation_map Handshake.id (Permutation_sym Hperm))).
      now rewrite Hids.
    + intros i. rewrite <- Hin, <- Hids. split.
      * apply Permutation_in. now apply Permutation_map.
      * apply Permutation_in. now apply Permutation_map, Permutation_sym.
    + apply sortByUpdatedAt_sorted.
    + apply (Permutation_Forall (Permutation_sym Hperm)).
      apply (allOf_Forall _ _ _ _ El).
      intros i d _ Hd. exact (loadDocument_fields _ _ _ _ _ Hd).
  - intros client a -> -> -> H. rewrite fetchDocuments_ready.
    enough (E : loadDocuments abi client a = None) by now rewrite E.
    unfold loadDocuments.
    destruct H as [->|[H|(ownerDocs & editorDocs & i & -> & -> & Hi & Hr)]];
      [reflexivity| |].
    + rewrite H. now destruct (read_getDocumentsByOwner client a).
    + destruct (uniqueIds_spec ownerDocs editorDocs) as (ids & Hu & _ & Hin).
      rewrite Hu.
      rewrite (allOf_none (loadDocument abi client a) ids i);
        [reflexivity|now apply Hin|].
      unfold loadDocument.
      destruct Hr as [->| Hr]; [reflexivity|].
      destruct (read_getDocument client i) as [[[[[[[n b] k] o] le] ca] ua]|];
        [|reflexivity].
      now rewrite Hr.
Qed.
Lemma fetchDocuments_shows_witness :
  exists docs,
    fetchDocuments (mkAbi Handshake.toString16 Handshake.toString16)
      (Some (mkPublicClient
               (fun _ => Some [1; 2]) (fun _ => Some [2; 1])
               (fun i => Some (if i =? 1 then "First Doc" else "Draft", "",
                               0x1234, 7, 7, 10, if i =? 1 then 20 else 30))
               (fun i _ => Some (i =? 1))))
      (Some 7) true
    = [SetLoadingDocs true; SetDocuments docs; SetLoadingDocs false] /\
    NoDup (List.map Handshake.id docs) /\
    (forall i, In i (List.map Handshake.id docs) <-> In i ([1; 2] ++ [2; 1])).
Proof.
  destruct (fetchDocuments_shows
              (mkAbi Handshake.toString16 Handshake.toString16)
              (Some (mkPublicClient
                       (fun _ => Some [1; 2]) (fun _ => Some [2; 1])
                       (fun i => Some (if i =? 1 then "First Doc" else "Draft",
                                       "", 0x1234, 7, 7, 10,
                                       if i =? 1 then 20 else 30))
                       (fun i _ => Some (i =? 1))))
              (Some 7) true) as (_ & _ & _ & H & _).
  destruct (H _ 7 [1; 2] [2; 1] eq_refl eq_refl eq_refl eq_refl eq_refl)
    as (docs & H1 & H2 & H3 & _).
  - intros i _. split; discriminate.
  - exists docs. split; [exact H1|]. split; [exact H2|exact H3].
Defined.
(** ** The list, read from the contract *)

Lemma run_app dep s ts ts' : run dep s (ts ++ ts') = run dep (run dep s ts) ts'.
Proof. unfold run. apply fold_left_app. Qed.

Lemma editor_listed_is_editor dep ts a i :
  a <> address0 ->
  In i (getDocumentsForEditor a (run dep initial ts)) ->
  isEditor i a (run dep initial ts) = inr true.
Proof.
  intros Ha Hi.
  pose proof (consistent_reachable dep ts) as C.
  apply (count_occ_In N.eq_dec) in Hi. unfold getDocumentsForEditor in Hi.
  rewrite (editor_index C) in Hi.
  destruct (_editors (run dep initial ts) i a) eqn:He; [|lia].
  apply isEditor_true. split; [|assumption].
  now apply (editedExist_reachable dep ts i a).
Qed.

Lemma owner_listed_is_editor_listed dep ts later a i :
  In i (getDocumentsByOwner a (run dep initial ts)) ->
  In i (getDocumentsForEditor a (run dep (run dep initial ts) later)).
Proof.
  intros Hi.
  pose proof (consistent_reachable dep ts) as C.
  destruct (run_indices_grow dep later a (run dep initial ts)) as [_ [l Hl]].
  unfold getDocumentsForEditor. rewrite Hl. apply in_or_app. left.
  apply (count_occ_In N.eq_dec) in Hi. unfold getDocumentsByOwner in Hi.
  rewrite (owner_index C) in Hi.
  destruct (allocated (run dep initial ts) i) eqn:Hal; [|cbn in Hi; lia].
  destruct (N.eqb_spec (owner (_documents (run dep initial ts) i)) a)
    as [Ho|Ho]; [|cbn in Hi; lia].
  apply (count_occ_In N.eq_dec).
  rewrite (editor_index C), <- Ho, (owner_is_editor C _ Hal). lia.
Qed.

(** X22.  The list, read from the contract.  Let the four kinds of read
    be answered by the contract, each in the state the chain has when the
    read is made: the owner's list in a reachable state, the editor's list
    after any further transactions, [getDocument] for a document after
    further transactions still, and [isEditor] after yet more.  Then for a
    non-null account [fetchDocuments] does not fail: it shows a list that
    holds each document of [getDocumentsForEditor(account)] exactly once,
    every record with [canEdit] true and with the fields [getDocument]
    returned for it, the two times as [Number]s. *)
Theorem fetchDocuments_from_contract dep (abi : Abi)
    (ts0 ts1 : list Transaction) (tsd tse : uint256 -> list Transaction)
    (a : address) :
  a <> address0 ->
  let sOwner := run dep initial ts0 in
  let sEditor := run dep sOwner ts1 in
  let sDocument := fun i => run dep sEditor (tsd i) in
  let sIsEditor := fun i => run dep (sDocument i) (tse i) in
  exists docs,
    fetchDocuments abi (Some (readsFrom sOwner sEditor sDocument sIsEditor))
                   (Some a) true
    = [SetLoadingDocs true; SetDocuments docs; SetLoadingDocs false] /\
    Permutation (List.map Handshake.id docs) (getDocumentsForEditor a sEditor) /\
    Forall (fun d => Handshake.canEdit d = true) docs /\
    Forall (fun d =>
      exists k o le ca ua,
        getDocument (Handshake.id d) (sDocument (Handshake.id d)) =
          inr (Handshake.name d, Handshake.encryptedBody d, k, o, le, ca, ua) /\
        Handshake.encryptedAccessKey d = bytes32Text abi k /\
        Handshake.owner d = addressText abi o /\
        Handshake.lastEditor d = addressText abi le /\
        Handshake.createdAt d = Number ca /\
        Handshake.updatedAt d = Number ua) docs.
Proof.
  intros Ha sOwner sEditor sDocument sIsEditor.
  assert (EsE : sEditor = run dep initial (ts0 ++ ts1))
    by (symmetry; apply run_app).
  pose proof (consistent_reachable dep (ts0 ++ ts1)) as CE. rewrite <- EsE in CE.
  set (client := readsFrom sOwner sEditor sDocument sIsEditor).
  destruct (uniqueIds_spec (getDocumentsByOwner a sOwner)
              (getDocumentsForEditor a sEditor)) as (ids & Hu & Hnd & Hin).
  assert (Hids : forall i, In i ids <-> In i (getDocumentsForEditor a sEditor)).
  { intros i. rewrite Hin, in_app_iff. split; [|tauto].
    intros [H|H]; [|assumption].
    now apply owner_listed_is_editor_listed. }
  assert (Hed : forall i, In i ids -> isEditor i a sEditor = inr true).
  { intros i Hi. apply Hids in Hi. rewrite EsE in *.
    now apply editor_listed_is_editor. }
  assert (Hload : forall i, In i ids ->
            exists d, loadDocument abi client a i = Some d /\
              Handshake.canEdit d = true /\
              exists k o le ca ua,
                getDocument i (sDocument i) =
                  inr (Handshake.name d, Handshake.encryptedBody d,
                       k, o, le, ca, ua) /\
                Handshake.encryptedAccessKey d = bytes32Text abi k /\
                Handshake.owner d = addressText abi o /\
                Handshake.lastEditor d = addressText abi le /\
                Handshake.createdAt d = Number ca /\
                Handshake.updatedAt d = Number ua).
  { intros i Hi. specialize (Hed i Hi).
    pose proof (run_keeps_editor dep (tsd i) i a sEditor CE Hed) as HedD.
    fold (sDocument i) in HedD.
    assert (CD : Consistent (sDocument i)) by (apply consistent_run, CE).
    pose proof (run_keeps_editor dep (tse i) i a (sDocument i) CD HedD) as HedI.
    fold (sIsEditor i) in HedI.
    pose proof HedD as Hex. apply isEditor_true in Hex as [Hex _].
    unfold loadDocument, client, readsFrom.
    cbn [read_getDocument read_isEditor].
    rewrite HedI. unfold getDocument, viewOnlyExisting.
    apply N.eqb_neq in Hex. rewrite Hex. cbn [negb answer].
    eexists. split; [reflexivity|]. cbn. split; [reflexivity|].
    do 5 eexists. repeat split. }
  destruct (allOf_all (loadDocument abi client a) ids) as [loaded El].
  { intros i Hi. destruct (Hload i Hi) as (d & Hd & _). eauto. }
  exists (sortByUpdatedAt loaded).
  assert (Hfetch : loadDocuments abi client a = Some (sortByUpdatedAt loaded)).
  { unfold loadDocuments, client, readsFrom at 1 2.
    cbn [read_getDocumentsByOwner read_getDocumentsForEditor].
    fold client. now rewrite Hu, El. }
  assert (Hall : Forall (fun d =>
            Handshake.canEdit d = true /\
            exists k o le ca ua,
              getDocument (Handshake.id d) (sDocument (Handshake.id d)) =
                inr (Handshake.name d, Handshake.encryptedBody d,
                     k, o, le, ca, ua) /\
              Handshake.encryptedAccessKey d = bytes32Text abi k /\
              Handshake.owner d = addressText abi o /\
              Handshake.lastEditor d = addressText abi le /\
              Handshake.createdAt d = Number ca /\
              Handshake.updatedAt d = Number ua) loaded).
  { apply (allOf_Forall _ _ _ _ El). intros i d Hi Hd.
    destruct (Hload i Hi) as (d' & Hd' & Hc & Hf).
    rewrite Hd in Hd'. injection Hd' as <-.
    rewrite (loadDocument_id _ _ _ _ _ Hd). auto. }
  pose proof (Permutation_sym (sortByUpdatedAt_perm loaded)) as Hperm.
  apply (Permutation_Forall Hperm) in Hall.
  split; [rewrite fetchDocuments_ready, Hfetch; reflexivity|].
  split; [|split].
  - rewrite (Permutation_map Handshake.id (sortByUpdatedAt_perm loaded)).
    rewrite (loaded_ids _ _ _ _ _ El).
    apply NoDup_Permutation; [assumption| |exact Hids].
    apply count_occ_one_NoDup. intros i. unfold getDocumentsForEditor.
    rewrite (editor_index CE). destruct (_editors sEditor i a); lia.
  - eapply Forall_impl; [|exact Hall]. cbn. tauto.
  - eapply Forall_impl; [|exact Hall]. cbn. tauto.
Qed.

Lemma fetchDocuments_from_contract_witness :
  let abi := mkAbi Handshake.toString16 Handshake.toString16 in
  let sOwner :=
    run Scenario.deployment initial
        [Scenario.createFirstDoc; Scenario.createDraft] in
  let sEditor := run Scenario.deployment sOwner [Scenario.shareWithEditor] in
  let sDocument := fun _ : uint256 => run Scenario.deployment sEditor [] in
  let sIsEditor :=
    fun i : uint256 =>
      run Scenario.deployment (sDocument i) [Scenario.editorUpdates] in
  exists docs,
    fetchDocuments abi (Some (readsFrom sOwner sEditor sDocument sIsEditor))
                   (Some Scenario.editorSigner) true
    = [SetLoadingDocs true; SetDocuments docs; SetLoadingDocs false] /\
    Permutation (List.map Handshake.id docs)
                (getDocumentsForEditor Scenario.editorSigner sEditor) /\
    Forall (fun d => Handshake.canEdit d = true) docs.
Proof.
  intros abi sOwner sEditor sDocument sIsEditor.
  destruct (fetchDocuments_from_contract Scenario.deployment abi
              [Scenario.createFirstDoc; Scenario.createDraft]
              [Scenario.shareWithEditor]
              (fun _ => []) (fun _ => [Scenario.editorUpdates])
              Scenario.editorSigner)
    as (docs & H1 & H2 & H3 & _).
  - vm_compute. discriminate.
  - exists docs. split; [exact H1|]. split; [exact H2|exact H3].
Defined.

(** ** shortHex *)

Local Open Scope string_scope.

Lemma append_empty_r (s : string) : s ++ "" = s.
Proof. induction s as [|a s IH]; cbn; [reflexivity|now rewrite IH]. Qed.

Lemma append_length (s1 s2 : string) :
  String.length (s1 ++ s2) = (String.length s1 + String.length s2)%nat.
Proof. induction s1 as [|a s IH]; cbn; [reflexivity|now rewrite IH]. Qed.

Lemma slice_first_prefix : forall (visible : nat) (value : string),
  exists rest,
    value = slice_first visible value ++ rest /\
    String.length (slice_first visible value)
      = Nat.min visible (String.length value).
Proof.
  unfold slice_first.
  induction visible as [|n IH]; intros value.
  - exists value. destruct value; cbn; auto.
  - destruct value as [|c r]; [exists ""; auto|].
    destruct (IH r) as (rest & H1 & H2). exists rest. cbn.
    split; [now rewrite <- H1|now rewrite H2].
Qed.

Lemma substring_suffix : forall (value : string) (m : nat),
  (m <= String.length value)%nat ->
  exists before,
    value = before ++ substring m (String.length value - m) value /\
    String.length before = m.
Proof.
  induction value as [|c r IH]; intros m Hm.
  - cbn in Hm. assert (m = 0)%nat as -> by lia. exists "". auto.
  - destruct m as [|m].
    + exists "". split; [|reflexivity]. cbn [append].
      destruct (slice_first_prefix (String.length (String c r)) (String c r))
        as (rest & H1 & H2).
      unfold slice_first in H1, H2. rewrite Nat.sub_0_r.
      rewrite Nat.min_id in H2.
      assert (rest = "") as ->.
      { apply (f_equal String.length) in H1.
        rewrite append_length, H2 in H1.
        destruct rest; [reflexivity|cbn in H1; lia]. }
      now rewrite append_empty_r in H1.
    + cbn in Hm. destruct (IH m) as (before & H1 & H2); [lia|].
      exists (String c before). cbn. split; [now rewrite <- H1|now rewrite H2].
Qed.

Lemma substring_length : forall (value : string) (m n : nat),
  (m + n <= String.length value)%nat ->
  String.length (substring m n value) = n.
Proof.
  induction value as [|c r IH]; intros m n H; cbn in H.
  - assert (m = 0 /\ n = 0)%nat as [-> ->] by lia. reflexivity.
  - destruct m as [|m]; cbn.
    + destruct n as [|n]; [reflexivity|]. cbn. rewrite IH; [reflexivity|lia].
    + apply IH. lia.
Qed.

(** X25.  What [shortHex] shows.  Of the empty string it shows nothing.
    Of a value at least [visible] characters long (for a count that is
    not 0) it shows the first [visible] characters of the value, three
    dots and its last [visible] characters, so 2 * visible + 3 characters
    whatever the length of the value.  A shorter value is not shortened
    but shown whole twice, once on each side of the dots. *)
Theorem shortHex_shows (value : string) (visible : nat) :
  shortHex "" visible = "" /\
  (value <> "" -> (0 < visible <= String.length value)%nat ->
   exists head tail rest before,
     shortHex value visible = head ++ "..." ++ tail /\
     value = head ++ rest /\
     value = before ++ tail /\
     String.length head = visible /\
     String.length tail = visible) /\
  (value <> "" -> (String.length value < visible)%nat ->
   shortHex value visible = value ++ "..." ++ value).
Proof.
  split; [reflexivity|]. split.
  - intros Hv [H0 Hlen].
    destruct (slice_first_prefix visible value) as (rest & H1 & H2).
    destruct (substring_suffix value (String.length value - visible))
      as (before & H3 & H4); [lia|].
    replace (String.length value - (String.length value - visible))%nat
      with visible in H3 by lia.
    exists (slice_first visible value),
           (substring (String.length value - visible) visible value),
           rest, before.
    split; [|split; [exact H1|split; [exact H3|split]]].
    + unfold shortHex, slice_last.
      destruct value as [|c r]; [now elim Hv|].
      destruct visible as [|n]; [lia|reflexivity].
    + rewrite H2. lia.
    + apply substring_length. lia.
  - intros Hv Hlen.
    destruct (slice_first_prefix visible value) as (rest & H1 & H2).
    assert (rest = "") as ->.
    { apply (f_equal String.length) in H1.
      rewrite append_length, H2 in H1.
      destruct rest; [reflexivity|cbn in H1; lia]. }
    assert (E : slice_first visible value = value)
      by (rewrite append_empty_r in H1; congruence).
    unfold shortHex, slice_last.
    destruct value as [|c r]; [now elim Hv|].
    destruct visible as [|n]; [cbn in Hlen; lia|].
    replace (String.length (String c r) - S n)%nat with 0%nat by lia.
    unfold slice_first in *. rewrite !E. reflexivity.
Qed.

Lemma shortHex_shows_witness :
  shortHex_default "0xf39Fd6e51aad88F6F4ce6aB8827279cffFb92266"
    = "0xf39F...b92266" /\
  shortHex_default "0xabc" = "0xabc...0xabc".
Proof.
  destruct (shortHex_shows "0xabc" 6) as (_ & _ & H).
  split; [reflexivity|]. apply H; [discriminate|cbn; lia].
Defined.

End ClientFacts.

(* ===================================================================== *)
(** * Part XI.  The contract and the codec together                        *)
(* ===================================================================== *)

Module EndToEnd.

Import Registry RegistryFacts.
Local Open Scope string_scope.
Local Open Scope list_scope.
Local Open Scope N_scope.

(** X26.  What is saved can be read back.  On a lawful platform, let an
    editor of a document seal a text under an access key with
    [encryptBody] and store the blob with [updateDocument].  The call
    succeeds, [getDocument] then returns that very blob as the body, and
    [decryptBody] of the body returned gives the text back, under the same
    key or any spelling of it that [hexToBytes] reads alike.  The text is
    the UTF-16 form of Unicode scalar values and does not begin with
    U+FEFF. *)
Theorem saved_body_reads_back (P : Codec.Platform) (L : Codec.Lawful P)
    (iv : list byte) (cps : list N) (accessKey : string)
    (i : uint256) (c : Context) (s : State) :
  List.length iv = 12%nat ->
  Forall (fun cp => cp < 0xD800 \/ 0xE000 <= cp < 0x110000) cps ->
  hd 0 cps <> 0xFEFF ->
  isEditor i (msg_sender c) s = inr true ->
  let text := flat_map Codec.codeUnitsOf cps in
  exists blob s',
    Codec.encryptBody P iv text accessKey = inr blob /\
    updateDocument i blob c s = inr (tt, s') /\
    (exists n k o le ca ua,
       getDocument i s' = inr (n, blob, k, o, le, ca, ua)) /\
    forall accessKey',
      Codec.hexToBytes accessKey' = Codec.hexToBytes accessKey ->
      Codec.decryptBody P blob accessKey' = inr text.
Proof.
  intros Hiv Hcps Hbom Hed text.
  apply isEditor_true in Hed as [Hex Hed].
  eexists.
  destruct (updateDocument_succeeds i
              (Codec.bytesToBase64
                 (iv ++ Codec.AES_GCM_seal P
                          (Codec.SHA256 P (Codec.hexToBytes accessKey)) iv
                          (Codec.TextEncoder_encode text)))
              c s Hex Hed) as [s' Hs'].
  exists s'.
  split; [apply CodecFacts.encryptBody_value, L|].
  split; [exact Hs'|]. split.
  - apply updateDocument_inv in Hs'.
    destruct Hs' as (_ & _ & _ & Hdoc & _).
    unfold getDocument, viewOnlyExisting. rewrite Hdoc, N.eqb_refl. cbn.
    apply N.eqb_neq in Hex. rewrite Hex. cbn. eauto 7.
  - intros accessKey' Hk.
    rewrite (CodecFacts.decryptBody_of_encrypted P L iv text accessKey
               accessKey' _ Hiv (CodecFacts.encryptBody_value P L _ _ _)).
    rewrite Hk, (Codec.open_seal L). f_equal.
    unfold text. rewrite (CodecMore.text_round_trip_scalars _ Hcps).
    destruct cps as [|cp r]; [reflexivity|]. cbn [hd] in Hbom.
    apply N.eqb_neq in Hbom. now rewrite Hbom.
Qed.

Lemma saved_body_reads_back_witness :
  exists blob s',
    Codec.encryptBody Codec.standIn (repeat x01 12)
      (flat_map Codec.codeUnitsOf [0x68; 0x20AC; 0x1F600]) "0xab" = inr blob /\
    updateDocument 1 blob (Scenario.asEditor 1700000200)
      (run Scenario.deployment initial
         [Scenario.createFirstDoc; Scenario.shareWithEditor])
    = inr (tt, s') /\
    (exists n k o le ca ua, getDocument 1 s' = inr (n, blob, k, o, le, ca, ua)) /\
    Codec.decryptBody Codec.standIn blob "0xAB"
    = inr (flat_map Codec.codeUnitsOf [0x68; 0x20AC; 0x1F600]).
Proof.
  destruct (saved_body_reads_back Codec.standIn CodecFacts.standIn_lawful
              (repeat x01 12) [0x68; 0x20AC; 0x1F600] "0xab" 1
              (Scenario.asEditor 1700000200)
              (run Scenario.deployment initial
                 [Scenario.createFirstDoc; Scenario.shareWithEditor]))
    as (blob & s' & H1 & H2 & H3 & H4).
  - reflexivity.
  - apply Forall_cons; [left; lia|].
    apply Forall_cons; [left; lia|].
    apply Forall_cons; [right; lia|apply Forall_nil].
  - discriminate.
  - vm_compute. reflexivity.
  - exists blob, s'. split; [exact H1|]. split; [exact H2|].
    split; [exact H3|]. apply H4. vm_compute. reflexivity.
Defined.

End EndToEnd.
